(** * ZipRenamer: rule evaluator, rename engine and archive analyzer

    A shallow embedding of the renaming core of the ZipRenamer server
    ([lib/renamer.js], the [/api/process] handler of [server.js]), of the
    archive analyzer ([analyzeArchive] and its detectors), of the preview
    of the browser ([app.js]) and of the unlock tokens ([payment.js]),
    with properties of these functions.

    A string is a sequence of UTF-16 code units below 256, one [ascii]
    per code unit: code unit 201 is the letter E with an acute accent, not
    a byte of an encoding.  Lower-casing and the white-space class are the
    runtime's on these code units; upper-casing is, except for code units
    181 and 255, whose capitals lie beyond 255.  Numbers are binary64
    values.  Of the values that a field of a rule can hold, the missing
    one ([undefined] or [null]), numbers and strings are modelled.  The
    Node [path] functions are the POSIX ones. *)

From Stdlib Require Import ZArith Ascii String List Bool Lia.
From Stdlib Require Import Numbers.DecimalString Numbers.DecimalPos.
From stdpp Require Import gmap strings list.

Local Open Scope char_scope.
Local Open Scope stdpp_scope.

(** ** JavaScript string primitives *)

Module JS.

Definition isUpper (c : ascii) : bool :=
  ((65 <=? N_of_ascii c) && (N_of_ascii c <=? 90))%N.

Definition isLower (c : ascii) : bool :=
  ((97 <=? N_of_ascii c) && (N_of_ascii c <=? 122))%N.

Definition isDigit (c : ascii) : bool :=
  ((48 <=? N_of_ascii c) && (N_of_ascii c <=? 57))%N.

(** The class [\s], which is also the white space of [trim] and of the
    number parsers: TAB, LF, VT, FF, CR, SPACE and the no-break space. *)
Definition isSpace (c : ascii) : bool :=
  ((9 <=? N_of_ascii c) && (N_of_ascii c <=? 13))%N || (N_of_ascii c =? 32)%N
  || (N_of_ascii c =? 160)%N.

(** A capital letter beyond ASCII: 192 to 222, the multiplication sign
    (215) left out; its small letter is 32 further on. *)
Definition isUpperLatin (c : ascii) : bool :=
  ((192 <=? N_of_ascii c) && (N_of_ascii c <=? 222))%N
  && negb (N_of_ascii c =? 215)%N.

(** A small letter beyond ASCII with a capital below 256: 224 to 254,
    the division sign (247) left out. *)
Definition isLowerLatin (c : ascii) : bool :=
  ((224 <=? N_of_ascii c) && (N_of_ascii c <=? 254))%N
  && negb (N_of_ascii c =? 247)%N.

Definition lowerChar (c : ascii) : ascii :=
  if isUpper c || isUpperLatin c then ascii_of_N (N_of_ascii c + 32) else c.

(** The capital of a code unit other than the sharp s (223), when it is
    below 256.  The micro sign (181) and the y with diaeresis (255) have
    capitals beyond 255 and are left as they are. *)
Definition upperChar (c : ascii) : ascii :=
  if isLower c || isLowerLatin c then ascii_of_N (N_of_ascii c - 32) else c.

Fixpoint mapChars (f : ascii -> ascii) (s : string) : string :=
  match s with
  | EmptyString => EmptyString
  | String c s' => String (f c) (mapChars f s')
  end.

(** [s.toLowerCase()]. *)
Definition toLowerCase : string -> string := mapChars lowerChar.

(** [s.toUpperCase()]: the sharp s becomes [SS]. *)
Fixpoint toUpperCase (s : string) : string :=
  match s with
  | EmptyString => EmptyString
  | String c s' =>
      if (N_of_ascii c =? 223)%N then String "S" (String "S" (toUpperCase s'))
      else String (upperChar c) (toUpperCase s')
  end.

(** No code unit of the string is above 127. *)
Fixpoint isAscii (s : string) : bool :=
  match s with
  | EmptyString => true
  | String c s' => (N_of_ascii c <? 128)%N && isAscii s'
  end.

(** [s.replace(/\\/g, '/')]: every occurrence of one character. *)
Definition replaceChar (a b : ascii) : string -> string :=
  mapChars (fun c => if Ascii.eqb c a then b else c).

Definition backslash : ascii := ascii_of_N 92.

Definition normalizeSlashes : string -> string := replaceChar backslash "/".

Fixpoint filterChars (keep : ascii -> bool) (s : string) : string :=
  match s with
  | EmptyString => EmptyString
  | String c s' =>
      if keep c then String c (filterChars keep s') else filterChars keep s'
  end.

Fixpoint existsChar (p : ascii -> bool) (s : string) : bool :=
  match s with
  | EmptyString => false
  | String c s' => p c || existsChar p s'
  end.

(** [s.startsWith(p)]. *)
Fixpoint startsWith (s p : string) : bool :=
  match p, s with
  | EmptyString, _ => true
  | String _ _, EmptyString => false
  | String a p', String b s' => Ascii.eqb a b && startsWith s' p'
  end.

(** [s.substring(0, n)] and [s.substring(n)]. *)
Fixpoint take (n : nat) (s : string) : string :=
  match n, s with
  | S k, String c s' => String c (take k s')
  | _, _ => EmptyString
  end.

Fixpoint drop (n : nat) (s : string) : string :=
  match n, s with
  | S k, String _ s' => drop k s'
  | _, _ => s
  end.

(** [s.slice(a, b)] for [0 <= a] and [0 <= b]. *)
Definition slice (a b : nat) (s : string) : string := take (b - a) (drop a s).

(** [s.endsWith(p)]. *)
Definition endsWith (s p : string) : bool :=
  (String.length p <=? String.length s)%nat
  && String.eqb (drop (String.length s - String.length p) s) p.

(** [s.slice(0, -n)]. *)
Definition dropEnd (n : nat) (s : string) : string :=
  take (String.length s - n) s.

(** [s.lastIndexOf(c)], [None] standing for [-1]. *)
Fixpoint lastIndexOf (c : ascii) (s : string) : option nat :=
  match s with
  | EmptyString => None
  | String x s' =>
      match lastIndexOf c s' with
      | Some i => Some (S i)
      | None => if Ascii.eqb x c then Some 0%nat else None
      end
  end.

(** [s.includes(p)]. *)
Fixpoint includes (s p : string) : bool :=
  startsWith s p ||
  match s with
  | EmptyString => false
  | String _ s' => includes s' p
  end.

(** [s.split(c)] for a one-character separator: never the empty list. *)
Fixpoint split (c : ascii) (s : string) : list string :=
  match s with
  | EmptyString => [EmptyString]
  | String x s' =>
      if Ascii.eqb x c then EmptyString :: split c s'
      else match split c s' with
           | h :: t => String x h :: t
           | [] => [String x EmptyString]
           end
  end.

(** [parts.join(sep)]. *)
Fixpoint join (sep : string) (parts : list string) : string :=
  match parts with
  | [] => EmptyString
  | [p] => p
  | p :: rest => p +:+ sep +:+ join sep rest
  end.

Fixpoint repeatChar (c : ascii) (n : nat) : string :=
  match n with
  | O => EmptyString
  | S k => String c (repeatChar c k)
  end.

(** [s.padStart(target, c)] with a one-character filler: the string is
    returned as it is when it already has [target] code units. *)
Definition padStart (s : string) (target : nat) (c : ascii) : string :=
  repeatChar c (target - String.length s) +:+ s.

(** [GetSubstitution] for a replacement template used with a pattern
    that has no capture groups: [$$] is a dollar sign, [$&] the matched
    text, [$`] the text before the match, [$'] the text after it; any
    other dollar sign stands for itself. *)
Fixpoint getSubstitution (matched before after tmpl : string) : string :=
  match tmpl with
  | EmptyString => EmptyString
  | String c rest =>
      if Ascii.eqb c "$" then
        match rest with
        | String d rest' =>
            if Ascii.eqb d "$" then
              String "$" (getSubstitution matched before after rest')
            else if Ascii.eqb d "&" then
              matched +:+ getSubstitution matched before after rest'
            else if Ascii.eqb d "`" then
              before +:+ getSubstitution matched before after rest'
            else if Ascii.eqb d "'" then
              after +:+ getSubstitution matched before after rest'
            else String c (getSubstitution matched before after rest)
        | EmptyString => String c EmptyString
        end
      else String c (getSubstitution matched before after rest)
  end.

(** [s.replace(pat, tmpl)] with a string pattern: the first occurrence
    only.  [before] is the part of the subject already scanned. *)
Fixpoint replaceFirstFrom (before pat tmpl s : string) : string :=
  if startsWith s pat then
    let after := drop (String.length pat) s in
    before +:+ getSubstitution pat before after tmpl +:+ after
  else
    match s with
    | EmptyString => before
    | String c s' =>
        replaceFirstFrom (before +:+ String c EmptyString) pat tmpl s'
    end.

Definition replaceFirst (s pat tmpl : string) : string :=
  replaceFirstFrom EmptyString pat tmpl s.

(** [s.replace(new RegExp(escapeRegExp(pat), 'g'), tmpl)] for a
    non-empty [pat]: every occurrence, leftmost first, without overlap.
    [skip] counts the code units of the current match still to pass. *)
Fixpoint replaceAllFrom (pat tmpl before s : string) (skip : nat) : string :=
  match s with
  | EmptyString => EmptyString
  | String c s' =>
      let before' := before +:+ String c EmptyString in
      match skip with
      | S k => replaceAllFrom pat tmpl before' s' k
      | O =>
          if startsWith s pat then
            getSubstitution pat before (drop (String.length pat) s) tmpl
            +:+ replaceAllFrom pat tmpl before' s' (String.length pat - 1)
          else String c (replaceAllFrom pat tmpl before' s' 0)
      end
  end.

Definition replaceAllLiteral (s pat tmpl : string) : string :=
  replaceAllFrom pat tmpl EmptyString s 0.

Fixpoint trimStart (s : string) : string :=
  match s with
  | EmptyString => EmptyString
  | String c s' => if isSpace c then trimStart s' else s
  end.

(** Trailing white space removed: a character is kept when anything
    other than white space follows it or it is not white space. *)
Fixpoint trimEnd (s : string) : string :=
  match s with
  | EmptyString => EmptyString
  | String c s' =>
      match trimEnd s' with
      | EmptyString => if isSpace c then EmptyString else String c EmptyString
      | t => String c t
      end
  end.

(** [s.trim()]. *)
Definition trim (s : string) : string := trimEnd (trimStart s).

(** [s.replace(/cls+/g, by)]: each maximal run of characters of the
    class becomes one copy of [by]. *)
Fixpoint collapseRuns (cls : ascii -> bool) (by_ : ascii) (inRun : bool)
    (s : string) : string :=
  match s with
  | EmptyString => EmptyString
  | String c s' =>
      if cls c then
        if inRun then collapseRuns cls by_ true s'
        else String by_ (collapseRuns cls by_ true s')
      else String c (collapseRuns cls by_ false s')
  end.

(** [s.replace(/([a-z])([A-Z])/g, '$1-$2')]. *)
Fixpoint splitCamel (s : string) : string :=
  match s with
  | EmptyString => EmptyString
  | String c s' =>
      match s' with
      | String d _ =>
          if isLower c && isUpper d
          then String c (String "-" (splitCamel s'))
          else String c (splitCamel s')
      | EmptyString => String c EmptyString
      end
  end.

End JS.

(** ** JavaScript numbers and the values of rule fields *)

Module Number.

Local Open Scope Z_scope.

(** A JavaScript number: [NaN], an infinity, or the finite value
    [mantissa * 2^exponent].  The two zeros are one value here. *)
Inductive number : Type :=
  | NaN
  | Infinity (negative : bool)
  | Finite (mantissa exponent : Z).

(** [m * 2^e] is a binary64 value as it is written. *)
Definition fits (m e : Z) : bool :=
  (Z.abs m <? 2 ^ 53) && (-1074 <=? e) && (e <=? 971).

(** [n / d] rounded to the nearest integer, a tie to the even one. *)
Definition divRound (n d : Z) : Z :=
  let q := n / d in
  let r := n mod d in
  if 2 * r <? d then q
  else if d <? 2 * r then q + 1
  else if Z.even q then q else q + 1.

(** The largest [E] with [2^E <= n / d]. *)
Definition log2Ratio (n d : Z) : Z :=
  let est := Z.log2 n - Z.log2 d in
  if 0 <=? est
  then if d * 2 ^ est <=? n then est else est - 1
  else if d <=? n * 2 ^ (- est) then est else est - 1.

(** The binary64 value nearest to [n / d], for positive [n] and [d]. *)
Definition roundRatio (negative : bool) (n d : Z) : number :=
  let E := log2Ratio n d in
  let q := Z.max (E - 52) (-1074) in
  let k := if 0 <=? q then divRound n (d * 2 ^ q)
           else divRound (n * 2 ^ (- q)) d in
  if (971 <? q) || ((q =? 971) && (k =? 2 ^ 53)) then Infinity negative
  else Finite (if negative then - k else k) q.

(** The binary64 value nearest to [m * 2^e]. *)
Definition round (m e : Z) : number :=
  if m =? 0 then Finite 0 0
  else if fits m e then Finite m e
  else roundRatio (m <? 0) (Z.abs m * 2 ^ Z.max e 0) (2 ^ Z.max (- e) 0).

Definition ofZ (z : Z) : number := round z 0.

(** [a + b]. *)
Definition add (a b : number) : number :=
  match a, b with
  | NaN, _ | _, NaN => NaN
  | Infinity s, Infinity t => if Bool.eqb s t then Infinity s else NaN
  | Infinity s, Finite _ _ | Finite _ _, Infinity s => Infinity s
  | Finite m1 e1, Finite m2 e2 =>
      let e := Z.min e1 e2 in
      round (m1 * 2 ^ (e1 - e) + m2 * 2 ^ (e2 - e)) e
  end.

(** [ToBoolean]. *)
Definition isTruthy (d : number) : bool :=
  match d with
  | NaN => false
  | Infinity _ => true
  | Finite m _ => negb (m =? 0)
  end.

(** The two numbers are the same value. *)
Definition same (a b : number) : bool :=
  match a, b with
  | NaN, NaN => true
  | Infinity s, Infinity t => Bool.eqb s t
  | Finite m1 e1, Finite m2 e2 =>
      let e := Z.min e1 e2 in
      m1 * 2 ^ (e1 - e) =? m2 * 2 ^ (e2 - e)
  | _, _ => false
  end.

(** The decimal digits of an integer, with its sign. *)
Definition decimal (z : Z) : string := NilZero.string_of_int (Z.to_int z).

Fixpoint countDigits (fuel : nat) (z : Z) : Z :=
  match fuel with
  | O => 1
  | S fuel' => if z <? 10 then 1 else 1 + countDigits fuel' (z / 10)
  end.

(** The least [j >= 1] with [n * 10^j >= d]. *)
Fixpoint leadingShift (fuel : nat) (n d j : Z) : Z :=
  match fuel with
  | O => j
  | S fuel' => if d <=? n * 10 ^ j then j else leadingShift fuel' n d (j + 1)
  end.

(** The [n] with [10^(n-1) <= v < 10^n] for [v = num / den > 0]. *)
Definition decimalExponent (num den : Z) : Z :=
  if den <=? num
  then countDigits (S (Z.to_nat (Z.log2 num))) (num / den)
  else 1 - leadingShift (S (Z.to_nat (Z.log2 den))) num den 1.

(** The digits [s] and the exponent [n] of [Number::toString]: the
    shortest [s] for which [s * 10^(n - k)] is read back as [v], [k]
    being the number of digits of [s]; of two such, the nearer to [v]. *)
Fixpoint shortest (fuel : nat) (v : number) (num den n0 k : Z) : Z * Z :=
  match fuel with
  | O => (0, n0)
  | S fuel' =>
      let p := n0 - k in
      let a := if 0 <=? p then num else num * 10 ^ (- p) in
      let b := if 0 <=? p then den * 10 ^ p else den in
      let lo := a / b in
      let r := a mod b in
      let hi := lo + 1 in
      let back s :=
        same v (roundRatio false (s * 10 ^ Z.max p 0) (10 ^ Z.max (- p) 0)) in
      let pick s := if s =? 10 ^ k then (s / 10, n0 + 1) else (s, n0) in
      match back lo, back hi with
      | true, true =>
          if 2 * r <? b then pick lo
          else if b <? 2 * r then pick hi
          else if Z.even lo then pick lo else pick hi
      | true, false => pick lo
      | false, true => pick hi
      | false, false => shortest fuel' v num den n0 (k + 1)
      end
  end.

Definition zeros (n : Z) : string := JS.repeatChar "0" (Z.to_nat n).

(** [Number::toString] for a positive finite value: an integer below
    [2^53] has the digits of that integer; otherwise the shortest digits
    are laid out with zeros, a decimal point or an exponent. *)
Definition positiveToString (m e : Z) : string :=
  let num := m * 2 ^ Z.max e 0 in
  let den := 2 ^ Z.max (- e) 0 in
  if (num mod den =? 0) && (num / den <? 2 ^ 53) then decimal (num / den)
  else
    let '(s, n) :=
      shortest 17 (Finite m e) num den (decimalExponent num den) 1 in
    let digits := decimal s in
    let k := Z.of_nat (String.length digits) in
    if (k <=? n) && (n <=? 21) then digits +:+ zeros (n - k)
    else if (0 <? n) && (n <=? 21) then
      JS.take (Z.to_nat n) digits +:+ "." +:+ JS.drop (Z.to_nat n) digits
    else if (-6 <? n) && (n <=? 0) then "0." +:+ zeros (- n) +:+ digits
    else
      JS.take 1 digits
      +:+ (if k =? 1 then EmptyString else "." +:+ JS.drop 1 digits)
      +:+ "e" +:+ (if 0 <=? n - 1 then "+" else "-")
      +:+ decimal (Z.abs (n - 1)).

(** [String(d)]. *)
Definition toString (d : number) : string :=
  match d with
  | NaN => "NaN"
  | Infinity false => "Infinity"
  | Infinity true => "-Infinity"
  | Finite m e =>
      if m =? 0 then "0"
      else if m <? 0 then "-" +:+ positiveToString (- m) e
      else positiveToString m e
  end.

(** The value of a digit or letter as a digit of some radix. *)
Definition digitValue (c : ascii) : option Z :=
  let n := Z.of_N (N_of_ascii c) in
  if (48 <=? n) && (n <=? 57) then Some (n - 48)
  else if (97 <=? n) && (n <=? 122) then Some (n - 87)
  else if (65 <=? n) && (n <=? 90) then Some (n - 55)
  else None.

(** The value of the longest prefix of [s] made of digits of the radix
    and what follows it; [None] when [s] starts with no such digit. *)
Fixpoint readDigits (radix : Z) (s : string) (acc : Z) (any : bool)
    : option (Z * string) :=
  match s with
  | EmptyString => if any then Some (acc, s) else None
  | String c s' =>
      match digitValue c with
      | Some d =>
          if d <? radix then readDigits radix s' (acc * radix + d) true
          else if any then Some (acc, s) else None
      | None => if any then Some (acc, s) else None
      end
  end.

Definition stripSign (s : string) : bool * string :=
  match s with
  | String c r =>
      if Ascii.eqb c "-" then (true, r)
      else if Ascii.eqb c "+" then (false, r)
      else (false, s)
  | EmptyString => (false, s)
  end.

(** [parseInt(s)], without a radix argument. *)
Definition parseInt (input : string) : number :=
  let '(negative, s1) := stripSign (JS.trimStart input) in
  let '(radix, s2) :=
    if JS.startsWith s1 "0x" || JS.startsWith s1 "0X" then (16, JS.drop 2 s1)
    else (10, s1) in
  match readDigits radix s2 0 false with
  | Some (z, _) => round (if negative then - z else z) 0
  | None => NaN
  end.

(** The digits of a whole string in a radix. *)
Definition wholeDigits (radix : Z) (s : string) : number :=
  match readDigits radix s 0 false with
  | Some (z, EmptyString) => round z 0
  | _ => NaN
  end.

(** [digits * 10^p], rounded. *)
Definition scaled (negative : bool) (digits p : Z) (count : Z) : number :=
  if digits =? 0 then Finite 0 0
  else if 400 <? p then Infinity negative
  else if p + count <? -400 then Finite 0 0
  else if 0 <=? p then roundRatio negative (digits * 10 ^ p) 1
  else roundRatio negative digits (10 ^ (- p)).

(** The decimal digits at the start of [s], how many they are, their
    value, and the rest of [s]. *)
Fixpoint spanDigits (s : string) (acc count : Z) : Z * Z * string :=
  match s with
  | EmptyString => (acc, count, s)
  | String c s' =>
      let n := Z.of_N (N_of_ascii c) in
      if (48 <=? n) && (n <=? 57)
      then spanDigits s' (acc * 10 + (n - 48)) (count + 1)
      else (acc, count, s)
  end.

(** [ToNumber] of a string ([StringToNumber]). *)
Definition stringToNumber (input : string) : number :=
  let text := JS.trim input in
  if String.eqb text EmptyString then Finite 0 0
  else if JS.startsWith text "0x" || JS.startsWith text "0X"
  then wholeDigits 16 (JS.drop 2 text)
  else if JS.startsWith text "0o" || JS.startsWith text "0O"
  then wholeDigits 8 (JS.drop 2 text)
  else if JS.startsWith text "0b" || JS.startsWith text "0B"
  then wholeDigits 2 (JS.drop 2 text)
  else
    let '(negative, body) := stripSign text in
    if String.eqb body "Infinity" then Infinity negative
    else
      let '(whole, wholeCount, r1) := spanDigits body 0 0 in
      let '(digits, fractionCount, r2) :=
        match r1 with
        | String c r =>
            if Ascii.eqb c "." then spanDigits r whole 0 else (whole, 0, r1)
        | EmptyString => (whole, 0, r1)
        end in
      if wholeCount + fractionCount =? 0 then NaN
      else
        match r2 with
        | EmptyString =>
            scaled negative digits (- fractionCount)
              (wholeCount + fractionCount)
        | String c r =>
            if Ascii.eqb c "e" || Ascii.eqb c "E" then
              let '(down, r3) := stripSign r in
              match spanDigits r3 0 0 with
              | (power, powerCount, EmptyString) =>
                  if powerCount =? 0 then NaN
                  else
                    scaled negative digits
                      ((if down then - power else power) - fractionCount)
                      (wholeCount + fractionCount)
              | _ => NaN
              end
            else NaN
        end.

(** [ToLength(d)]: the integer part, within [0] and [2^53 - 1]. *)
Definition toLength (d : number) : Z :=
  match d with
  | NaN => 0
  | Infinity negative => if negative then 0 else 2 ^ 53 - 1
  | Finite m e =>
      Z.max 0
        (Z.min (2 ^ 53 - 1)
           (if 0 <=? e then m * 2 ^ e else Z.quot m (2 ^ (- e))))
  end.

(** What a field of a rule holds: nothing ([undefined] or [null]), a
    number, or a string. *)
Inductive value : Type :=
  | Undefined
  | Num (d : number)
  | Str (s : string).

(** [ToBoolean]. *)
Definition truthy (v : value) : bool :=
  match v with
  | Undefined => false
  | Num d => isTruthy d
  | Str s => negb (String.eqb s EmptyString)
  end.

(** [v || d]. *)
Definition orElse (v d : value) : value := if truthy v then v else d.

(** [index + v]: a sum of numbers, or the digits of the index followed
    by the string.  (Behind [||] the value is never missing.) *)
Definition plus (index : number) (v : value) : value :=
  match v with
  | Undefined => Num NaN
  | Num d => Num (add index d)
  | Str s => Str (toString index +:+ s)
  end.

(** [String(v)] for a number or a string. *)
Definition text (v : value) : string :=
  match v with
  | Undefined => "undefined"
  | Num d => toString d
  | Str s => s
  end.

(** [parseInt(v)]: of the digits that [String(v)] starts with; the
    words [undefined] and [null] have none. *)
Definition parseIntOf (v : value) : number :=
  match v with
  | Undefined => NaN
  | Num d => parseInt (toString d)
  | Str s => parseInt s
  end.

(** [ToLength(v)], as [padStart] reads its first argument. *)
Definition lengthOf (v : value) : Z :=
  match v with
  | Undefined => 0
  | Num d => toLength d
  | Str s => toLength (stringToNumber s)
  end.

Definition one : number := ofZ 1.

End Number.

(** ** Node's [path] module (POSIX flavour) *)

Module Path.
Import JS.

Fixpoint lastNonEmpty (l : list string) : string :=
  match l with
  | [] => EmptyString
  | s :: rest =>
      match lastNonEmpty rest with
      | EmptyString => s
      | t => t
      end
  end.

(** [path.basename(p)]: the last component, trailing slashes ignored. *)
Definition basename (p : string) : string := lastNonEmpty (split "/" p).

(** [path.extname(p)]: from the last dot of the last component to its
    end; empty when there is no dot, when the only dot leads the
    component, and for the component [..]. *)
Definition extname (p : string) : string :=
  let c := basename p in
  match lastIndexOf "." c with
  | None => EmptyString
  | Some O => EmptyString
  | Some i => if String.eqb c ".." then EmptyString else drop i c
  end.

Fixpoint trailingSlashes (s : string) : nat :=
  match s with
  | EmptyString => O
  | String c s' =>
      let n := trailingSlashes s' in
      if Ascii.eqb c "/" && (n =? String.length s')%nat then S n else n
  end.

(** [path.basename(p, suffix)].  The suffix is removed from the last
    component when the component ends with it and is longer than it.
    When the component is exhausted while still matching the suffix,
    Node returns the rest of the path from the component on. *)
Definition basenameSuffix (p suffix : string) : string :=
  if String.eqb suffix EmptyString
     || (String.length p <? String.length suffix)%nat
  then basename p
  else if String.eqb p suffix then EmptyString
  else
    let c := basename p in
    if endsWith c suffix then
      if String.eqb c suffix then c else dropEnd (String.length suffix) c
    else if endsWith suffix c then c +:+ repeatChar "/" (trailingSlashes p)
    else c.

(** The loop of [path.dirname] over the indices [>= i], from the last
    one down; [s] is the part of the path from index [i] on.  The result
    is the index [end] at which the loop stopped, if it did, and the flag
    [matchedSlash]. *)
Fixpoint dirnameScan (s : string) (i : nat) : option nat * bool :=
  match s with
  | EmptyString => (None, true)
  | String c s' =>
      match dirnameScan s' (S i) with
      | (Some e, ms) => (Some e, ms)
      | (None, ms) =>
          if Ascii.eqb c "/" then
            if ms then (None, ms) else (Some i, ms)
          else (None, false)
      end
  end.

(** [path.dirname(p)]. *)
Definition dirname (p : string) : string :=
  match p with
  | EmptyString => "."
  | String c0 rest =>
      let hasRoot := Ascii.eqb c0 "/" in
      match fst (dirnameScan rest 1) with
      | None => if hasRoot then "/" else "."
      | Some e => if hasRoot && (e =? 1)%nat then "//" else take e p
      end
  end.

(** [path.parse(p)], of which the server reads [name] and [ext]. *)
Record parsed := { name : string; ext : string }.

Definition parse (p : string) : parsed :=
  {| name := dropEnd (String.length (extname p)) (basename p);
     ext := extname p |}.

End Path.

(** ** The rule evaluator ([lib/renamer.js]) and the rename engine
    (the [/api/process] handler) *)

(** A rule, as the request carries it.  A text field that the request
    leaves out is [None]; [start] and [padding] of a numbering rule are
    whatever the request gives them.  [Unknown] stands for every [type]
    that the [switch] of [applyRenamingRules] has no case for ([pattern]
    among them). *)
Inductive rule : Type :=
  | Replace (find replace : option string)
  | Regex (pattern flags replace : option string)
  | Trim
  | NormalizeSpace
  | Lowercase
  | Uppercase
  | Prefix (text : option string)
  | Suffix (text : option string)
  | RemoveSpecial
  | KebabCase
  | Numbering (start padding : Number.value)
      (separator position : option string)
  | Unknown (type : string).

(** [scope] of a rule group; [NoScope] stands for a missing or an
    unrecognised scope, which [matchScope] treats alike. *)
Inductive scope : Type := Global | Folders | Extension | Folder | NoScope.

Record group : Type := {
  id : string;
  groupScope : scope;
  scopeValue : string;   (* [scopeValue || ''] *)
  exclude : bool;
  rules : list rule
}.

Record entry : Type := {
  entryName : string;
  isDirectory : bool
}.

(** One [newZip.addFile] call, with the entry it was made for. *)
Record renamed : Type := {
  originalPath : string;
  finalPath : string
}.

(** One call of [applyRenamingRules] by the engine: the group, the index
    handed to the call, and the entry. *)
Record applied : Type := {
  appliedGroup : string;
  appliedIndex : Number.number;
  appliedEntry : string
}.

(** The state of a run.  [groupCounters] holds the own properties of
    the object of that name.  [newZip] lists the [addFile] calls in order.
    [calls] is kept for the statements about counters only: the code has
    no such list, and nothing in the run reads it. *)
Record state : Type := {
  groupCounters : gmap string nat;
  folderRenameMap : list (string * string);   (* in insertion order *)
  newZip : list renamed;
  calls : list applied
}.

(** [x || d] for an optional string. *)
Definition orString (x : option string) (d : string) : string :=
  match x with
  | Some s => if String.eqb s EmptyString then d else s
  | None => d
  end.

(** [groupCounters] is a plain object, and the key [__proto__] is not
    a property of its own: an assignment of a number to it is dropped,
    and reading it gives the prototype, which is not [undefined] and
    which [++] reads as [NaN].

    [counterIndex] is the value of [groupCounters[id]++], for an id that
    was registered or is [__proto__]; [counterBump] is the object
    afterwards. *)
Definition counterIndex (counters : gmap string nat) (i : string)
    : Number.number :=
  if String.eqb i "__proto__" then Number.NaN
  else Number.ofZ (Z.of_nat (default 0%nat (counters !! i))).

Definition counterBump (counters : gmap string nat) (i : string)
    : gmap string nat :=
  if String.eqb i "__proto__" then counters
  else <[i := S (default 0%nat (counters !! i))]> counters.

(** [groupCounters[id] = 0]. *)
Definition counterReset (counters : gmap string nat) (i : string)
    : gmap string nat :=
  if String.eqb i "__proto__" then counters else <[i := 0%nat]> counters.

(** [Map.prototype.set]: a key that is present keeps its place. *)
Fixpoint mapSet (k v : string) (m : list (string * string))
    : list (string * string) :=
  match m with
  | [] => [(k, v)]
  | (k', v') :: m' =>
      if String.eqb k' k then (k, v) :: m' else (k', v') :: mapSet k v m'
  end.

Section Engine.

(** [subject.replace(new RegExp(pattern, flags), replacement)] of the
    JavaScript runtime; [None] when the constructor throws. *)
Variable regexReplace : string -> string -> string -> string -> option string.

Definition removeSpecialKeeps (c : ascii) : bool :=
  JS.isLower c || JS.isUpper c || JS.isDigit c || JS.isSpace c
  || Ascii.eqb c "-" || Ascii.eqb c "_".

(** One turn of the [switch] in [applyRenamingRules]. *)
Definition applyRule (index : Number.number) (r : rule) (newName : string)
    : string :=
  match r with
  | Replace find replace =>
      if String.eqb (orString find EmptyString) EmptyString then newName
      else JS.replaceAllLiteral newName (orString find EmptyString)
             (orString replace EmptyString)
  | Regex pattern flags replace =>
      if String.eqb (orString pattern EmptyString) EmptyString then newName
      else
        match regexReplace (orString pattern EmptyString) (orString flags "g")
                (orString replace EmptyString) newName with
        | Some s => s
        | None => newName
        end
  | Trim => JS.trim newName
  | NormalizeSpace => JS.collapseRuns JS.isSpace " " false newName
  | Lowercase => JS.toLowerCase newName
  | Uppercase => JS.toUpperCase newName
  | Prefix text =>
      if String.eqb (orString text EmptyString) EmptyString then newName
      else orString text EmptyString +:+ newName
  | Suffix text =>
      if String.eqb (orString text EmptyString) EmptyString then newName
      else newName +:+ orString text EmptyString
  | RemoveSpecial => JS.filterChars removeSpecialKeeps newName
  | KebabCase =>
      JS.toLowerCase
        (JS.collapseRuns (fun c => JS.isSpace c || Ascii.eqb c "_") "-" false
           (JS.splitCamel newName))
  | Numbering start padding separator position =>
      let num :=
        JS.padStart
          (Number.text
             (Number.plus index
                (Number.orElse start (Number.Num Number.one))))
          (Z.to_nat
             (Number.lengthOf
                (Number.orElse padding (Number.Num Number.one))))
          "0" in
      if String.eqb (orString position EmptyString) "start"
      then num +:+ orString separator "-" +:+ newName
      else newName +:+ orString separator "-" +:+ num
  | Unknown _ => newName
  end.

Definition applyRenamingRules (originalName : string)
    (index : Number.number) (rs : list rule) : string :=
  let ext := Path.extname originalName in
  let name := Path.basenameSuffix originalName ext in
  let newName := fold_left (fun acc r => applyRule index r acc) rs name in
  newName +:+ ext.

Definition matchScope (name : string) (sc : scope) (value : string)
    (isDir exclude_ : bool) : bool :=
  match sc with
  | NoScope => true
  | Global => negb isDir
  | Folders => isDir
  | Extension =>
      if isDir then false
      else
        let ext := Path.extname name in
        let targetExt :=
          if JS.startsWith value "." then value
          else if String.eqb value EmptyString then EmptyString
          else "." +:+ value in
        let extensionMatches :=
          if String.eqb targetExt EmptyString then true
          else String.eqb (JS.toLowerCase ext) (JS.toLowerCase targetExt) in
        if exclude_ then negb extensionMatches else extensionMatches
  | Folder =>
      let normPath := JS.normalizeSlashes name in
      let value' := JS.normalizeSlashes value in
      if String.eqb value' EmptyString then true
      else JS.startsWith normPath value'
  end.

(** [groups.forEach(g => { groupCounters[g.id] = 0; })]. *)
Definition initCounters (groups : list group) : gmap string nat :=
  fold_left (fun m g => counterReset m (id g)) groups ∅.

(** The body of [for (const group of groups)], which the two phases
    share; the file phase also passes the result through [path.parse]
    ([reparse]).  A group without rules is skipped. *)
Definition groupStep (isDir reparse : bool) (normalizedName original : string)
    (acc : gmap string nat * list applied * string) (g : group)
    : gmap string nat * list applied * string :=
  let '(counters, log, workingName) := acc in
  match rules g with
  | [] => acc
  | _ :: _ =>
      if matchScope normalizedName (groupScope g) (scopeValue g) isDir (exclude g)
      then
        let groupIndex := counterIndex counters (id g) in
        let renamedName :=
          applyRenamingRules workingName groupIndex (rules g) in
        (counterBump counters (id g),
         log ++ [{| appliedGroup := id g; appliedIndex := groupIndex;
                    appliedEntry := original |}],
         if reparse
         then Path.name (Path.parse renamedName)
              +:+ Path.ext (Path.parse renamedName)
         else renamedName)
      else acc
  end.

(** Phase 1, one directory entry. *)
Definition processDirectory (groups : list group) (st : state) (e : entry)
    : state :=
  let originalName := entryName e in
  let normalizedName := JS.normalizeSlashes originalName in
  let dirPath :=
    if JS.endsWith normalizedName "/" then JS.dropEnd 1 normalizedName
    else normalizedName in
  match JS.lastIndexOf "/" dirPath with
  | None =>
      {| groupCounters := groupCounters st;
         folderRenameMap := folderRenameMap st;
         newZip := newZip st ++
           [{| originalPath := originalName; finalPath := dirPath +:+ "/" |}];
         calls := calls st |}
  | Some lastSlash =>
      let parentPath := JS.take (S lastSlash) dirPath in
      let folderName := JS.drop (S lastSlash) dirPath in
      let '(counters, log, workingFolderName) :=
        fold_left (groupStep true false normalizedName originalName) groups
          (groupCounters st, calls st, folderName) in
      let oldPath := dirPath +:+ "/" in
      let newPath := parentPath +:+ workingFolderName +:+ "/" in
      {| groupCounters := counters;
         folderRenameMap := mapSet oldPath newPath (folderRenameMap st);
         newZip := newZip st ++
           [{| originalPath := originalName; finalPath := newPath |}];
         calls := log |}
  end.

(** The loop over [folderRenameMap.entries()], left at the first key
    that the path starts with. *)
Fixpoint rewriteFolder (m : list (string * string)) (normalizedName : string)
    : string :=
  match m with
  | [] => normalizedName
  | (oldFolderPath, newFolderPath) :: rest =>
      if JS.startsWith normalizedName oldFolderPath
      then JS.replaceFirst normalizedName oldFolderPath newFolderPath
      else rewriteFolder rest normalizedName
  end.

Definition keepSegment (p : string) : bool :=
  negb (String.eqb p EmptyString) && negb (String.eqb p "..")
  && negb (String.eqb p ".").

Definition rebuildPath (dir workingName : string) : string :=
  let safeDir0 := JS.join "/" (List.filter keepSegment (JS.split "/" dir)) in
  let safeDir := if String.eqb safeDir0 "." then EmptyString else safeDir0 in
  let finalPath :=
    if String.eqb safeDir EmptyString then workingName
    else safeDir +:+ "/" +:+ workingName in
  JS.normalizeSlashes finalPath.

(** Phase 2, one file entry. *)
Definition processFile (groups : list group) (st : state) (e : entry) : state :=
  let originalName := entryName e in
  let normalizedName :=
    rewriteFolder (folderRenameMap st) (JS.normalizeSlashes originalName) in
  let dir := Path.dirname normalizedName in
  let '(counters, log, workingName) :=
    fold_left (groupStep false true normalizedName originalName) groups
      (groupCounters st, calls st, Path.basename normalizedName) in
  {| groupCounters := counters;
     folderRenameMap := folderRenameMap st;
     newZip := newZip st ++
       [{| originalPath := originalName;
           finalPath := rebuildPath dir workingName |}];
     calls := log |}.

Definition directories (allEntries : list entry) : list entry :=
  List.filter isDirectory allEntries.

Definition files (allEntries : list entry) : list entry :=
  List.filter (fun e => negb (isDirectory e)) allEntries.

Definition initialState (groups : list group) : state :=
  {| groupCounters := initCounters groups;
     folderRenameMap := [];
     newZip := [];
     calls := [] |}.

Definition phase1 (allEntries : list entry) (groups : list group) : state :=
  fold_left (processDirectory groups) (directories allEntries)
    (initialState groups).

(** The rename run: all directories, then all files. *)
Definition processArchive (allEntries : list entry) (groups : list group)
    : state :=
  fold_left (processFile groups) (files allEntries) (phase1 allEntries groups).

End Engine.

(** ** Unicode checks of the analyzer ([checkUnicode])

    Here a string is the sequence of its UTF-16 code units, since the
    check is about surrogates and encodings. *)

Module Unicode.

Definition codeUnits (s : string) : list N :=
  List.map N_of_ascii (list_ascii_of_string s).

Definition isHighSurrogate (u : N) : bool := ((55296 <=? u) && (u <=? 56319))%N.
Definition isLowSurrogate (u : N) : bool := ((56320 <=? u) && (u <=? 57343))%N.

Definition encodeScalar (cp : N) : list N :=
  (if cp <? 128 then [cp]
   else if cp <? 2048 then [192 + cp / 64; 128 + cp mod 64]
   else if cp <? 65536 then
     [224 + cp / 4096; 128 + (cp / 64) mod 64; 128 + cp mod 64]
   else
     [240 + cp / 262144; 128 + (cp / 4096) mod 64;
      128 + (cp / 64) mod 64; 128 + cp mod 64])%N.

(** [Buffer.from(s, 'utf8')]: a surrogate pair is one scalar value, a
    lone surrogate is written as U+FFFD.  It never throws. *)
Fixpoint utf8Encode (s : list N) : list N :=
  match s with
  | [] => []
  | u :: rest =>
      if isHighSurrogate u then
        match rest with
        | v :: rest' =>
            if isLowSurrogate v
            then encodeScalar (65536 + (u - 55296) * 1024 + (v - 56320))%N
                 ++ utf8Encode rest'
            else encodeScalar 65533 ++ utf8Encode rest
        | [] => encodeScalar 65533
        end
      else if isLowSurrogate u then encodeScalar 65533 ++ utf8Encode rest
      else encodeScalar u ++ utf8Encode rest
  end.

Definition scalarUnits (cp : N) : list N :=
  (if cp <? 65536 then [cp]
   else [55296 + (cp - 65536) / 1024; 56320 + (cp - 65536) mod 1024])%N.

Definition isContinuation (b : N) : bool := ((128 <=? b) && (b <? 192))%N.

(** What a byte does at the start of a sequence: the units written, the
    scalar value under construction, the continuation bytes expected and
    the least scalar value a sequence of that length may stand for. *)
Definition leadByte (b : N) : list N * N * nat * N :=
  (if b <? 128 then ([b], 0, O, 0)
   else if (194 <=? b) && (b <? 224) then ([], b - 192, 1%nat, 128)
   else if (224 <=? b) && (b <? 240) then ([], b - 224, 2%nat, 2048)
   else if (240 <=? b) && (b <? 245) then ([], b - 240, 3%nat, 65536)
   else ([65533], 0, O, 0))%N.

Definition completed (least cp : N) : list N :=
  if ((least <=? cp) && (cp <=? 1114111)
      && negb (isHighSurrogate cp || isLowSurrogate cp))%N
  then scalarUnits cp else [65533%N].

(** [buf.toString('utf8')] as a decoder that reads one byte at a time.
    It is exact on well-formed input; an ill-formed sequence is answered
    by U+FFFD.  It never throws. *)
Fixpoint utf8DecodeFrom (pending : N) (more : nat) (least : N)
    (bytes : list N) : list N :=
  match bytes with
  | [] => match more with O => [] | S _ => [65533%N] end
  | b :: rest =>
      match more with
      | S k =>
          if isContinuation b then
            let cp := (pending * 64 + (b - 128))%N in
            match k with
            | O => completed least cp ++ utf8DecodeFrom 0 0 0 rest
            | S _ => utf8DecodeFrom cp k least rest
            end
          else
            let '(out, p, m, l) := leadByte b in
            65533%N :: out ++ utf8DecodeFrom p m l rest
      | O =>
          let '(out, p, m, l) := leadByte b in
          out ++ utf8DecodeFrom p m l rest
      end
  end.

Definition utf8Decode (bytes : list N) : list N := utf8DecodeFrom 0 0 0 bytes.


Inductive issue : Type := NfcNfdMismatch | InvalidSequence.

(** The outcome of a statement inside [try]. *)
Inductive outcome (A : Type) : Type :=
  | Returned (a : A)
  | Thrown.
Arguments Returned {A} a.
Arguments Thrown {A}.

Section CheckUnicode.

(** [String.prototype.normalize] for the forms NFC and NFD, total
    functions of the runtime. *)
Variables normalizeNFC normalizeNFD : list N -> list N.

Definition normalize (form : bool) (s : list N) : outcome (list N) :=
  Returned (if form then normalizeNFC s else normalizeNFD s).

(** [Buffer.from(filename, 'utf8').toString('utf8')]; the result is
    not looked at. *)
Definition bufferRoundTrip (s : list N) : outcome (list N) :=
  Returned (utf8Decode (utf8Encode s)).

(** The issues that [checkUnicode] pushes for one path, in order.
    A statement of the [try] block that throws hands over to the
    [catch] clause, which pushes [invalid_sequence] after whatever
    was pushed before. *)
Definition checkUnicode (filename : list N) : list issue :=
  match normalize true filename with
  | Thrown => [InvalidSequence]
  | Returned nfc =>
      match normalize false filename with
      | Thrown => [InvalidSequence]
      | Returned nfd =>
          let pushed :=
            if negb (bool_decide (nfc = nfd))
               && negb (bool_decide (filename = nfc))
            then [NfcNfdMismatch] else [] in
          match bufferRoundTrip filename with
          | Thrown => pushed ++ [InvalidSequence]
          | Returned _ => pushed
          end
      end
  end.

End CheckUnicode.

End Unicode.

(** ** The archive analyzer ([analyzeArchive]) *)

Module Analyzer.

Record file : Type := {
  originalName : string;
  size : Z;                (* [file.size || 0] *)
  isDirectory : bool
}.

Inductive os : Type := Windows | Linux | Macos.

Record pathWarning : Type := {
  pwPath : string;
  pwLength : nat;
  pwOs : os;
  pwLimit : nat
}.

Record invalidCharWarning : Type := {
  icPath : string;
  icInvalidChars : list string;
  icOs : os
}.

Record unicodeWarning : Type := {
  uwPath : string;
  uwIssue : Unicode.issue
}.

Record duplicateWarning : Type := {
  dwDirectory : string;
  dwFilename : string;
  dwCount : nat;
  dwPaths : list string
}.

Record systemFileWarning : Type := {
  sfPath : string;
  sfType : string
}.

(** Every conflict has [type: 'case_sensitivity']. *)
Record conflictWarning : Type := {
  cwDirectory : string;
  cwConflictingFiles : list string;
  cwResultName : string;
  cwCount : nat
}.

Record warnings : Type := {
  renameConflicts : list conflictWarning;
  pathTooLong : list pathWarning;
  duplicateNames : list duplicateWarning;
  invalidChars : list invalidCharWarning;
  unicodeIssues : list unicodeWarning;
  systemFiles : list systemFileWarning
}.

Inductive severity : Type := Critical | High | Medium | Low | None_.

Record stats : Type := {
  totalFiles : nat;
  totalDirectories : nat;
  totalSize : Z;
  maxDepth : nat;
  largestFile : string * Z
}.

(** The report, without its [timestamp]. *)
Record report : Type := {
  reportStats : stats;
  reportWarnings : warnings;
  reportSeverity : severity
}.

(** An insertion-ordered [Map] from strings: [get] and the update of
    one key, which keeps the place of a key that is present. *)
Fixpoint mapGet {V : Type} (k : string) (m : list (string * V)) : option V :=
  match m with
  | [] => None
  | (k', v) :: m' => if String.eqb k' k then Some v else mapGet k m'
  end.

Fixpoint mapUpdate {V : Type} (k : string) (f : option V -> V)
    (m : list (string * V)) : list (string * V) :=
  match m with
  | [] => [(k, f None)]
  | (k', v) :: m' =>
      if String.eqb k' k then (k', f (Some v)) :: m'
      else (k', v) :: mapUpdate k f m'
  end.

(** [if (!m.has(k)) m.set(k, []); m.get(k).push(x)]. *)
Definition mapPush (k x : string) (m : list (string * list string))
    : list (string * list string) :=
  mapUpdate k (fun o => default [] o ++ [x]) m.

Definition OS_LIMITS : list (os * nat) :=
  [(Windows, 260%nat); (Linux, 4096%nat); (Macos, 1024%nat)].

(** [Buffer.byteLength(s, 'utf8')] for code units below 256. *)
Fixpoint byteLength (s : string) : nat :=
  match s with
  | EmptyString => O
  | String c s' =>
      ((if (N_of_ascii c <? 128)%N then 1 else 2) + byteLength s')%nat
  end.

Definition checkPathLength (f : file) (ws : list pathWarning)
    : list pathWarning :=
  let fullPath := originalName f in
  let length := byteLength fullPath in
  fold_left
    (fun acc '(o, limit) =>
       if (limit <? length)%nat
       then acc ++ [{| pwPath := fullPath; pwLength := length;
                       pwOs := o; pwLimit := limit |}]
       else acc)
    OS_LIMITS ws.

Definition isControl (c : ascii) : bool := (N_of_ascii c <? 32)%N.

Definition windowsInvalid (c : ascii) : bool :=
  isControl c
  || existsb (Ascii.eqb c)
       ["<"; ">"; ":"; ascii_of_N 34; "|"; "?"; "*"]%char.

Definition macosInvalid (c : ascii) : bool :=
  existsb (Ascii.eqb c) [":"; "/"; ascii_of_N 0]%char.

Definition linuxInvalid (c : ascii) : bool := Ascii.eqb c (ascii_of_N 0).

Definition INVALID_CHARS : list (os * (ascii -> bool)) :=
  [(Windows, windowsInvalid); (Macos, macosInvalid); (Linux, linuxInvalid)].

Definition hexDigit (n : N) : ascii :=
  if (n <? 10)%N then ascii_of_N (48 + n) else ascii_of_N (87 + n).

(** A control character is shown as a backslash, [x] and two
    hexadecimal digits; any other character as itself. *)
Definition showChar (c : ascii) : string :=
  if isControl c then
    String JS.backslash
      (String "x"
         (String (hexDigit (N_of_ascii c / 16))
            (String (hexDigit (N_of_ascii c mod 16)) EmptyString)))
  else String c EmptyString.

(** [[...new Set(xs)]]: first occurrences, in order. *)
Fixpoint unique (xs : list string) : list string :=
  match xs with
  | [] => []
  | x :: rest =>
      x :: List.filter (fun y => negb (String.eqb y x)) (unique rest)
  end.

Definition RESERVED_NAMES_WINDOWS : list string :=
  ["CON"; "PRN"; "AUX"; "NUL";
   "COM1"; "COM2"; "COM3"; "COM4"; "COM5"; "COM6"; "COM7"; "COM8"; "COM9";
   "LPT1"; "LPT2"; "LPT3"; "LPT4"; "LPT5"; "LPT6"; "LPT7"; "LPT8"; "LPT9"].

Definition checkInvalidChars (f : file) (ws : list invalidCharWarning)
    : list invalidCharWarning :=
  let filename := originalName f in
  let ws1 :=
    fold_left
      (fun acc '(o, cls) =>
         match list_ascii_of_string (JS.filterChars cls filename) with
         | [] => acc
         | matches =>
             acc ++ [{| icPath := filename;
                        icInvalidChars := unique (List.map showChar matches);
                        icOs := o |}]
         end)
      INVALID_CHARS ws in
  let basename := Path.basenameSuffix filename (Path.extname filename) in
  if existsb (String.eqb (JS.toUpperCase basename)) RESERVED_NAMES_WINDOWS
  then ws1 ++ [{| icPath := filename; icInvalidChars := ["RESERVED_NAME"];
                  icOs := Windows |}]
  else ws1.

(** The part of [s] before the first occurrence of [sep]: the first
    element of [s.split(sep)]. *)
Fixpoint beforeFirst (sep s : string) : string :=
  if JS.startsWith s sep then EmptyString
  else match s with
       | EmptyString => EmptyString
       | String c s' => String c (beforeFirst sep s')
       end.

(** The key under which [detectDuplicates] files an entry. *)
Definition duplicateKey (path : string) : string :=
  Path.dirname path +:+ "::" +:+ JS.toLowerCase (Path.basename path).

Definition duplicateGroups (fs : list file) : list (string * list string) :=
  fold_left
    (fun dirMap f =>
       if isDirectory f then dirMap
       else mapPush (duplicateKey (originalName f)) (originalName f) dirMap)
    fs [].

Definition duplicateOf (kv : string * list string) : list duplicateWarning :=
  let '(key, paths) := kv in
  if (1 <? List.length paths)%nat then
    let dir := beforeFirst "::" key in
    [{| dwDirectory := if String.eqb dir EmptyString then "/" else dir;
        dwFilename := Path.basename (List.hd EmptyString paths);
        dwCount := List.length paths;
        dwPaths := List.firstn 10 paths |}]
  else [].

Definition detectDuplicates (fs : list file) : list duplicateWarning :=
  List.flat_map duplicateOf (duplicateGroups fs).

Definition SYSTEM_FILE_PATTERNS : list (string * (string -> bool)) :=
  [("__MACOSX", fun s => JS.includes s "/__MACOSX/");
   (".DS_Store", fun s => JS.endsWith s ".DS_Store");
   ("Thumbs.db", fun s => JS.endsWith (JS.toLowerCase s) "thumbs.db");
   ("desktop.ini", fun s => JS.endsWith (JS.toLowerCase s) "desktop.ini");
   (".git", fun s => JS.includes s "/.git/")].

Definition detectSystemFiles (fs : list file) : list systemFileWarning :=
  List.firstn 20
    (List.flat_map
       (fun f =>
          match List.find (fun '(_, test) => test (originalName f))
                  SYSTEM_FILE_PATTERNS with
          | Some (type, _) => [{| sfPath := originalName f; sfType := type |}]
          | None => []
          end)
       fs).

Definition conflictGroups (fs : list file)
    : list (string * list (string * list string)) :=
  fold_left
    (fun dirMap f =>
       if isDirectory f then dirMap
       else
         let dir := Path.dirname (originalName f) in
         let basename := Path.basename (originalName f) in
         mapUpdate dir
           (fun o => mapPush (JS.toLowerCase basename) basename (default [] o))
           dirMap)
    fs [].

Definition conflictsOf (dirEntry : string * list (string * list string))
    : list conflictWarning :=
  let '(dir, nameMap) := dirEntry in
  List.flat_map
    (fun '(lowerName, originals) =>
       if (1 <? List.length originals)%nat
          && (1 <? List.length (unique originals))%nat
       then [{| cwDirectory := dir; cwConflictingFiles := originals;
                cwResultName := lowerName;
                cwCount := List.length originals |}]
       else [])
    nameMap.

Definition simulateRenameConflicts (fs : list file) : list conflictWarning :=
  List.firstn 10 (List.flat_map conflictsOf (conflictGroups fs)).

Definition calculateSeverity (w : warnings) : severity :=
  if (0 <? List.length (renameConflicts w))%nat then Critical
  else if (5 <? List.length (pathTooLong w))%nat
          || (5 <? List.length (invalidChars w))%nat then High
  else if (0 <? List.length (duplicateNames w))%nat
          || (0 <? List.length (unicodeIssues w))%nat then Medium
  else if (0 <? List.length (systemFiles w))%nat then Low
  else None_.

Definition calculateStats (fs : list file) : stats :=
  let '(nf, nd, total, depth, largest) :=
    fold_left
      (fun '(nf, nd, total, depth, largest) f =>
         let '(nf', nd', total', largest') :=
           if isDirectory f then (nf, S nd, total, largest)
           else
             (S nf, nd, (total + size f)%Z,
              match largest with
              | Some (_, s) =>
                  if (s <? size f)%Z then Some (originalName f, size f)
                  else largest
              | None => Some (originalName f, size f)
              end) in
         let d := (List.length (JS.split "/" (originalName f)) - 1)%nat in
         (nf', nd', total', if (depth <? d)%nat then d else depth, largest'))
      fs (O, O, 0%Z, O, None) in
  {| totalFiles := nf; totalDirectories := nd; totalSize := total;
     maxDepth := depth;
     largestFile := default (EmptyString, 0%Z) largest |}.

Section Analyze.

Variables normalizeNFC normalizeNFD : list N -> list N.

Definition checkUnicode (f : file) (ws : list unicodeWarning)
    : list unicodeWarning :=
  ws ++ List.map (fun i => {| uwPath := originalName f; uwIssue := i |})
          (Unicode.checkUnicode normalizeNFC normalizeNFD
             (Unicode.codeUnits (originalName f))).

Definition analyzeArchive (fs : list file) : report :=
  let '(pathWarnings, invalidCharWarnings, unicodeWarnings) :=
    fold_left
      (fun '(pw, iw, uw) f =>
         if isDirectory f then (pw, iw, uw)
         else (checkPathLength f pw, checkInvalidChars f iw,
               checkUnicode f uw))
      fs ([], [], []) in
  let w :=
    {| renameConflicts := simulateRenameConflicts fs;
       pathTooLong := pathWarnings;
       duplicateNames := detectDuplicates fs;
       invalidChars := invalidCharWarnings;
       unicodeIssues := unicodeWarnings;
       systemFiles := detectSystemFiles fs |} in
  {| reportStats := calculateStats fs;
     reportWarnings := w;
     reportSeverity := calculateSeverity w |}.

End Analyze.

End Analyzer.

(** ** The request's rule groups ([/api/process]) *)

(** The groups of a request: its [ruleGroups] when there are any,
    otherwise its legacy [rules], if any, as one group of global scope
    under the id [default]. *)
Definition requestGroups (ruleGroups : list group) (legacyRules : list rule)
    : list group :=
  match ruleGroups with
  | _ :: _ => ruleGroups
  | [] =>
      match legacyRules with
      | [] => []
      | _ :: _ =>
          [{| id := "default"; groupScope := Global; scopeValue := EmptyString;
              exclude := false; rules := legacyRules |}]
      end
  end.

(** ** The first [/api/process] handler: one flat rule list *)

Section Legacy.

Variable regexReplace : string -> string -> string -> string -> option string.

Definition legacyKeeps (p : string) : bool :=
  negb (String.eqb p "..") && negb (String.eqb p ".").

(** [finalPath] from [dir] and the new name. *)
Definition legacyRebuild (dir newBytes : string) : string :=
  let safeDir0 := JS.join "/" (List.filter legacyKeeps (JS.split "/" dir)) in
  let safeDir := if String.eqb safeDir0 "." then EmptyString else safeDir0 in
  if String.eqb safeDir EmptyString then newBytes
  else safeDir +:+ "/" +:+ newBytes.

(** [nonDirEntries.forEach((entry, idx) => ...)], from index [idx] on. *)
Fixpoint legacyEntries (legacyRules : list rule) (idx : nat)
    (nonDirEntries : list entry) : list renamed :=
  match nonDirEntries with
  | [] => []
  | e :: rest =>
      let originalName := entryName e in
      let dir := Path.dirname originalName in
      let newBytes :=
        applyRenamingRules regexReplace originalName
          (Number.ofZ (Z.of_nat idx)) legacyRules in
      {| originalPath := originalName;
         finalPath := legacyRebuild dir newBytes |}
      :: legacyEntries legacyRules (S idx) rest
  end.

Definition legacyProcess (allEntries : list entry) (legacyRules : list rule)
    : list renamed :=
  legacyEntries legacyRules 0 (files allEntries).

End Legacy.

(** ** The preview of the browser ([applyRules] of [app.js]) *)

Module Client.

(** A rule as the preview reads it: the [pattern] type, which only the
    preview implements, or a rule of any other type. *)
Inductive clientRule : Type :=
  | Pattern (pattern : option string)
  | Other (r : rule).

(** [s.replace(/\/+$/, '')]. *)
Fixpoint stripTrailingSlashes (s : string) : string :=
  match s with
  | EmptyString => EmptyString
  | String c s' =>
      match stripTrailingSlashes s' with
      | EmptyString =>
          if Ascii.eqb c "/" then EmptyString else String c EmptyString
      | t => String c t
      end
  end.

(** [ext.replace(/^\./, '')]. *)
Definition withoutLeadingDot (ext : string) : string :=
  match ext with
  | String c rest => if Ascii.eqb c "." then rest else ext
  | EmptyString => EmptyString
  end.

Section ApplyRules.

(** [new Date().toISOString().split('T')[0]]. *)
Variable currentDate : string.

(** One turn of the [switch]; the state is [baseName] and [ext]. *)
Definition applyRule (index : Number.number) (pathPart : string)
    (r : clientRule) (st : string * string) : string * string :=
  let '(baseName, ext) := st in
  match r with
  | Other (Replace find replace) =>
      if String.eqb (orString find EmptyString) EmptyString then st
      else (JS.replaceAllLiteral baseName (orString find EmptyString)
              (orString replace EmptyString), ext)
  | Other (Prefix text) =>
      if String.eqb (orString text EmptyString) EmptyString then st
      else (orString text EmptyString +:+ baseName, ext)
  | Other (Suffix text) =>
      if String.eqb (orString text EmptyString) EmptyString then st
      else (baseName +:+ orString text EmptyString, ext)
  | Other Lowercase => (JS.toLowerCase baseName, ext)
  | Other Uppercase => (JS.toUpperCase baseName, ext)
  | Other (Numbering start padding separator position) =>
      let parsed := Number.parseIntOf start in
      let num :=
        JS.padStart
          (Number.toString
             (Number.add index
                (if Number.isTruthy parsed then parsed else Number.one)))
          (Z.to_nat
             (Number.lengthOf
                (Number.orElse padding (Number.Num Number.one))))
          "0" in
      if String.eqb (orString position EmptyString) "start"
      then (num +:+ orString separator "-" +:+ baseName, ext)
      else (baseName +:+ orString separator "-" +:+ num, ext)
  | Other RemoveSpecial => (JS.filterChars removeSpecialKeeps baseName, ext)
  | Pattern pattern =>
      let pat := orString pattern EmptyString in
      if String.eqb pat EmptyString then st
      else
        let pathParts :=
          List.filter (fun p => negb (String.eqb p EmptyString))
            (JS.split "/" pathPart) in
        let parentFolder := List.last pathParts EmptyString in
        let depth := List.length pathParts in
        let extWithoutDot := withoutLeadingDot ext in
        let result :=
          JS.replaceAllLiteral
            (JS.replaceAllLiteral
               (JS.replaceAllLiteral
                  (JS.replaceAllLiteral
                     (JS.replaceAllLiteral
                        (JS.replaceAllLiteral pat "{name}" baseName)
                        "{index}"
                        (JS.padStart
                           (Number.toString (Number.add index Number.one))
                           3 "0"))
                     "{ext}" extWithoutDot)
                  "{parent}" parentFolder)
               "{date}" currentDate)
            "{depth}" (Number.toString (Number.ofZ (Z.of_nat depth))) in
        (result, if JS.includes pat "{ext}" then EmptyString else ext)
  | Other _ => st
  end.

Definition applyRules (name : string) (index : Number.number)
    (rs : list clientRule) (isDir : bool) : string :=
  let workingName0 := JS.normalizeSlashes name in
  let strip := isDir && JS.endsWith workingName0 "/" in
  let trailingSlash := if strip then "/" else EmptyString in
  let workingName :=
    if strip then stripTrailingSlashes workingName0 else workingName0 in
  let '(pathPart, filePart) :=
    match JS.lastIndexOf "/" workingName with
    | Some lastSlash =>
        (JS.take (S lastSlash) workingName, JS.drop (S lastSlash) workingName)
    | None => (EmptyString, workingName)
    end in
  let '(baseName0, ext0) :=
    if isDir then (filePart, EmptyString)
    else
      match JS.lastIndexOf "." filePart with
      | Some (S lastDot) =>
          (JS.take (S lastDot) filePart, JS.drop (S lastDot) filePart)
      | _ => (filePart, EmptyString)
      end in
  let '(baseName, ext) :=
    fold_left (fun st r => applyRule index pathPart r st) rs (baseName0, ext0) in
  JS.normalizeSlashes (pathPart +:+ baseName +:+ ext +:+ trailingSlash).

(** A rule group as the browser holds it, and what [updatePreviews]
    leaves on a file object. *)
Record group : Type := {
  id : string;
  groupScope : scope;
  scopeValue : string;
  exclude : bool;
  rules : list clientRule
}.

Record previewed : Type := {
  preview : string;
  hideFromPreview : bool
}.

Definition isTopLevelFolder (file : entry) : bool :=
  isDirectory file
  && negb (JS.includes
             (stripTrailingSlashes (JS.normalizeSlashes (entryName file))) "/").

(** The scope check inside the loop over the groups. *)
Definition matchGroup (file : entry) (g : group) : bool :=
  match groupScope g with
  | Global => negb (isDirectory file)
  | Folders => isDirectory file
  | Extension =>
      if String.eqb (scopeValue g) EmptyString then false
      else
        let ext := List.last (JS.split "." (entryName file)) EmptyString in
        let fullExt := "." +:+ ext in
        let target :=
          if JS.startsWith (scopeValue g) "." then scopeValue g
          else "." +:+ scopeValue g in
        let extensionMatches :=
          negb (isDirectory file)
          && String.eqb (JS.toLowerCase fullExt) (JS.toLowerCase target) in
        if exclude g then negb extensionMatches else extensionMatches
  | Folder =>
      if String.eqb (scopeValue g) EmptyString then false
      else JS.startsWith (JS.normalizeSlashes (entryName file))
             (JS.normalizeSlashes (scopeValue g))
  | NoScope => false
  end.

Definition initCounters (groups : list group) : gmap string nat :=
  fold_left (fun m g => counterReset m (id g)) groups ∅.

(** The body of [for (const group of this.ruleGroups)]. *)
Definition groupStep (file : entry) (acc : gmap string nat * string)
    (g : group) : gmap string nat * string :=
  let '(groupCounters, currentName) := acc in
  if matchGroup file g then
    let idx := counterIndex groupCounters (id g) in
    (counterBump groupCounters (id g),
     applyRules currentName idx (rules g) (isDirectory file))
  else acc.

(** The body of [this.files.forEach]. *)
Definition previewFile (groups : list group)
    (st : gmap string nat * list previewed) (file : entry)
    : gmap string nat * list previewed :=
  let '(groupCounters, out) := st in
  if isTopLevelFolder file then
    (groupCounters,
     out ++ [{| preview := entryName file; hideFromPreview := true |}])
  else
    let '(groupCounters', currentName) :=
      fold_left (groupStep file) groups (groupCounters, entryName file) in
    (groupCounters',
     out ++ [{| preview := currentName; hideFromPreview := false |}]).

Definition updatePreviews (files : list entry) (groups : list group)
    : list previewed :=
  snd (fold_left (previewFile groups) files (initCounters groups, [])).

End ApplyRules.

End Client.

(** ** Unlock tokens ([payment.js]) *)

Module Payment.

(** [activeSessions] holds, for a token, the time at which it expires.
    [createToken] is
    [activeSessions.set(token, { expiresAt: Date.now() + 3600000 })], the
    step of [verifySessionAndCreateToken] once the session counts as
    paid; [token] is the value drawn from [crypto.randomBytes]. *)
Definition createToken (now : Z) (token : string) (activeSessions : gmap string Z)
    : gmap string Z :=
  <[token := (now + 3600000)%Z]> activeSessions.

(** [paid]: the session is a mock session outside production, or Stripe
    reports it as paid. *)
Definition verifySessionAndCreateToken (paid : bool) (now : Z)
    (token : string) (activeSessions : gmap string Z)
    : option string * gmap string Z :=
  if paid then (Some token, createToken now token activeSessions)
  else (None, activeSessions).

Definition isTokenValid (now : Z) (token : string)
    (activeSessions : gmap string Z) : bool * gmap string Z :=
  if String.eqb token EmptyString then (false, activeSessions)
  else
    match activeSessions !! token with
    | None => (false, activeSessions)
    | Some expiresAt =>
        if (expiresAt <? now)%Z then (false, delete token activeSessions)
        else (true, activeSessions)
    end.

End Payment.

(** * Vocabulary of the properties *)

(** A runtime whose [RegExp] constructor rejects every pattern; the
    closed examples below run on it. *)
Definition noRegex : string -> string -> string -> string -> option string :=
  fun _ _ _ _ => None.

(** A field of a numbering rule that is missing or holds an integer. *)
Definition integerField (field : option Z) : Number.value :=
  match field with
  | Some z => Number.Num (Number.ofZ z)
  | None => Number.Undefined
  end.

(** The design document's reading of the numbering rule, for integers:
    [start], [padding] and [separator] take their default only when they
    are not given. *)
Definition numberingAsStated (stem : string) (i : Z) (start padding : option Z)
    (separator position : option string) : string :=
  let n := (i + default 1%Z start)%Z in
  let num :=
    JS.padStart (Number.decimal n) (Z.to_nat (default 1%Z padding)) "0" in
  let sep := default "-" separator in
  if bool_decide (position = Some "start")
  then num +:+ sep +:+ stem
  else stem +:+ sep +:+ num.

(** The number that the [n]-th increment of a counter hands out. *)
Definition indexNumber (n : nat) : Number.number := Number.ofZ (Z.of_nat n).

(** The value of decimal digits read from the left, after digits of
    value [acc]. *)
Fixpoint uintValue (u : Decimal.uint) (acc : Z) : Z :=
  match u with
  | Decimal.Nil => acc
  | Decimal.D0 l => uintValue l (acc * 10 + 0)
  | Decimal.D1 l => uintValue l (acc * 10 + 1)
  | Decimal.D2 l => uintValue l (acc * 10 + 2)
  | Decimal.D3 l => uintValue l (acc * 10 + 3)
  | Decimal.D4 l => uintValue l (acc * 10 + 4)
  | Decimal.D5 l => uintValue l (acc * 10 + 5)
  | Decimal.D6 l => uintValue l (acc * 10 + 6)
  | Decimal.D7 l => uintValue l (acc * 10 + 7)
  | Decimal.D8 l => uintValue l (acc * 10 + 8)
  | Decimal.D9 l => uintValue l (acc * 10 + 9)
  end%Z.

(** The integers that a number holds exactly and prints digit for digit. *)
Definition safeInteger (z : Z) : bool := (Z.abs z <? 2 ^ 53)%Z.

Definition noChar (c : ascii) (s : string) : bool :=
  negb (JS.existsChar (Ascii.eqb c) s).

(** The group takes part in the renaming of an entry: it has rules and
    its scope matches. *)
Definition active (isDir : bool) (normalizedName : string) (g : group) : bool :=
  match rules g with
  | [] => false
  | _ :: _ =>
      matchScope normalizedName (groupScope g) (scopeValue g) isDir (exclude g)
  end.

Definition counterOf (counters : gmap string nat) (i : string) : nat :=
  default 0%nat (counters !! i).

Definition callsOf (i : string) (log : list applied) : list applied :=
  List.filter (fun c => String.eqb (appliedGroup c) i) log.

Definition callKey (c : applied) : string * string :=
  (appliedGroup c, appliedEntry c).

(** The indices that a group id has handed out so far are 0, 1, ... up to
    its counter; the id [__proto__] has no counter and has handed out
    [NaN] only. *)
Definition consistent (counters : gmap string nat) (log : list applied) : Prop :=
  counters !! "__proto__" = None
  /\ (forall i,
        i <> "__proto__"%string ->
        List.map appliedIndex (callsOf i log)
        = List.map indexNumber (seq 0 (counterOf counters i)))
  /\ Forall (fun c => appliedIndex c = Number.NaN) (callsOf "__proto__" log).

(** The path of a directory entry without its trailing slash, and the
    test for a top-level directory, as [processDirectory] makes it. *)
Definition dirPathOf (originalName : string) : string :=
  let normalizedName := JS.normalizeSlashes originalName in
  if JS.endsWith normalizedName "/" then JS.dropEnd 1 normalizedName
  else normalizedName.

Definition topLevel (originalName : string) : bool :=
  match JS.lastIndexOf "/" (dirPathOf originalName) with
  | None => true
  | Some _ => false
  end.

(** The calls that one directory entry, and one file entry under the
    rename map [m], give rise to: one per active group, in group order. *)
Definition directoryMatches (groups : list group) (e : entry)
    : list (string * string) :=
  if topLevel (entryName e) then []
  else
    List.map (fun g => (id g, entryName e))
      (List.filter (active true (JS.normalizeSlashes (entryName e))) groups).

Definition fileMatches (m : list (string * string)) (groups : list group)
    (e : entry) : list (string * string) :=
  List.map (fun g => (id g, entryName e))
    (List.filter
       (active false (rewriteFolder m (JS.normalizeSlashes (entryName e))))
       groups).





(** Entries that a run without rule groups reproduces letter for letter:
    a directory path with forward slashes only and a trailing slash; a
    file path with forward slashes only, free of dollar signs, whose
    segments are not empty and whose parent segments are neither [.] nor
    [..]. *)
Definition plainDirectoryPath (p : string) : bool :=
  noChar JS.backslash p && JS.endsWith p "/".

Definition plainFilePath (p : string) : bool :=
  noChar JS.backslash p && noChar "$" p
  && forallb keepSegment (removelast (JS.split "/" p))
  && negb (String.eqb (List.last (JS.split "/" p) EmptyString) EmptyString).

Definition passesUnchanged (e : entry) : bool :=
  if isDirectory e then plainDirectoryPath (entryName e)
  else plainFilePath (entryName e).



Definition fileEntry (path : string) : entry :=
  {| entryName := path; isDirectory := false |}.

Definition directoryEntry (path : string) : entry :=
  {| entryName := path; isDirectory := true |}.



Definition archiveFile (path : string) : Analyzer.file :=
  {| Analyzer.originalName := path; Analyzer.size := 0;
     Analyzer.isDirectory := false |}.

(** The original paths of the file entries filed under one key, in
    listing order. *)
Definition filesWithKey (k : string) (fs : list Analyzer.file) : list string :=
  List.map Analyzer.originalName
    (List.filter
       (fun f =>
          negb (Analyzer.isDirectory f)
          && String.eqb (Analyzer.duplicateKey (Analyzer.originalName f)) k)
       fs).

(** The design document's test for a duplicate group: more than one
    distinct spelling among its original paths. *)
Definition severalSpellings (paths : list string) : bool :=
  (1 <? List.length (Analyzer.unique paths))%nat.

Definition duplicateStep (dirMap : list (string * list string))
    (f : Analyzer.file) : list (string * list string) :=
  if Analyzer.isDirectory f then dirMap
  else Analyzer.mapPush (Analyzer.duplicateKey (Analyzer.originalName f))
         (Analyzer.originalName f) dirMap.

(** The parent path and the last segment of a directory entry, as
    [processDirectory] takes them apart. *)
Definition parentPathOf (originalName : string) : string :=
  match JS.lastIndexOf "/" (dirPathOf originalName) with
  | Some lastSlash => JS.take (S lastSlash) (dirPathOf originalName)
  | None => EmptyString
  end.

Definition folderNameOf (originalName : string) : string :=
  match JS.lastIndexOf "/" (dirPathOf originalName) with
  | Some lastSlash => JS.drop (S lastSlash) (dirPathOf originalName)
  | None => dirPathOf originalName
  end.

(** The calls of one group on a list of entries, numbered from [n]. *)
Fixpoint callsFrom (i : string) (n : nat) (es : list entry) : list applied :=
  match es with
  | [] => []
  | e :: rest =>
      {| appliedGroup := i; appliedIndex := indexNumber n;
         appliedEntry := entryName e |}
      :: callsFrom i (S n) rest
  end.

(** The outputs of a run, read back from the recorded calls: every
    active group renames the entry under the index of the next recorded
    call.  [renameByCalls] gives the working name after the loop over the
    groups, and the calls that are left. *)
Fixpoint renameByCalls
    (regexReplace : string -> string -> string -> string -> option string)
    (isDir reparse : bool) (normalizedName : string) (groups : list group)
    (log : list applied) (workingName : string) : string * list applied :=
  match groups with
  | [] => (workingName, log)
  | g :: rest =>
      if active isDir normalizedName g then
        match log with
        | [] => (workingName, [])
        | c :: log' =>
            let renamedName :=
              applyRenamingRules regexReplace workingName (appliedIndex c)
                (rules g) in
            renameByCalls regexReplace isDir reparse normalizedName rest log'
              (if reparse
               then Path.name (Path.parse renamedName)
                    +:+ Path.ext (Path.parse renamedName)
               else renamedName)
        end
      else
        renameByCalls regexReplace isDir reparse normalizedName rest log
          workingName
  end.

Fixpoint directoryPathsByCalls
    (regexReplace : string -> string -> string -> string -> option string)
    (groups : list group) (es : list entry) (log : list applied)
    : list string * list applied :=
  match es with
  | [] => ([], log)
  | e :: rest =>
      if topLevel (entryName e) then
        let '(paths, log') :=
          directoryPathsByCalls regexReplace groups rest log in
        ((dirPathOf (entryName e) +:+ "/") :: paths, log')
      else
        let '(workingFolderName, log1) :=
          renameByCalls regexReplace true false
            (JS.normalizeSlashes (entryName e)) groups log
            (folderNameOf (entryName e)) in
        let '(paths, log') :=
          directoryPathsByCalls regexReplace groups rest log1 in
        ((parentPathOf (entryName e) +:+ workingFolderName +:+ "/") :: paths,
         log')
  end.

Fixpoint filePathsByCalls
    (regexReplace : string -> string -> string -> string -> option string)
    (m : list (string * string)) (groups : list group) (es : list entry)
    (log : list applied) : list string :=
  match es with
  | [] => []
  | e :: rest =>
      let normalizedName :=
        rewriteFolder m (JS.normalizeSlashes (entryName e)) in
      let '(workingName, log1) :=
        renameByCalls regexReplace false true normalizedName groups log
          (Path.basename normalizedName) in
      rebuildPath (Path.dirname normalizedName) workingName
      :: filePathsByCalls regexReplace m groups rest log1
  end.

Definition pathsByCalls
    (regexReplace : string -> string -> string -> string -> option string)
    (m : list (string * string)) (groups : list group)
    (allEntries : list entry) (log : list applied) : list string :=
  let '(paths, log1) :=
    directoryPathsByCalls regexReplace groups (directories allEntries) log in
  paths ++ filePathsByCalls regexReplace m groups (files allEntries) log1.

(** The paths under which a rule list alone, applied to every file entry
    in turn, writes the entries of a list under the rename map [m], the
    first one under index [idx]. *)
Fixpoint numberedFiles
    (regexReplace : string -> string -> string -> string -> option string)
    (rs : list rule) (m : list (string * string)) (idx : nat)
    (es : list entry) : list string :=
  match es with
  | [] => []
  | e :: rest =>
      let normalizedName :=
        rewriteFolder m (JS.normalizeSlashes (entryName e)) in
      let renamedName :=
        applyRenamingRules regexReplace (Path.basename normalizedName)
          (indexNumber idx) rs in
      rebuildPath (Path.dirname normalizedName)
        (Path.name (Path.parse renamedName)
         +:+ Path.ext (Path.parse renamedName))
      :: numberedFiles regexReplace rs m (S idx) rest
  end.

(** A request with one group of global scope under the id [__proto__],
    whose one rule numbers the entries. *)
Definition protoGroups : list group :=
  [{| id := "__proto__"; groupScope := Global; scopeValue := "";
      exclude := false;
      rules := [Numbering Number.Undefined Number.Undefined None None] |}].

(** A [start] that is missing or a safe integer. *)
Definition integerStart (start : Number.value) : bool :=
  match start with
  | Number.Undefined => true
  | Number.Num (Number.Finite m e) => (e =? 0)%Z && safeInteger m
  | _ => false
  end.

(** The rules that both the server and the preview implement: of the
    types that both have a case for, and a numbering rule only with a
    [start] that is missing or a safe integer (the preview reads [start]
    through [parseInt], the server adds it as it comes). *)
Definition bothImplement (r : rule) : bool :=
  match r with
  | Replace _ _ | Prefix _ | Suffix _ | Lowercase | Uppercase
  | RemoveSpecial => true
  | Numbering start _ _ _ => integerStart start
  | _ => false
  end.

(** The file entries of a listing. *)
Definition fileEntries (fs : list Analyzer.file) : list Analyzer.file :=
  List.filter (fun f => negb (Analyzer.isDirectory f)) fs.

Fixpoint countChar (c : ascii) (s : string) : nat :=
  match s with
  | EmptyString => O
  | String x s' => ((if Ascii.eqb x c then 1 else 0) + countChar c s')%nat
  end.

(** The depth of an entry: the number of slashes of its path. *)
Definition depthOf (f : Analyzer.file) : nat :=
  countChar "/" (Analyzer.originalName f).

Definition sizeSum (fs : list Analyzer.file) : Z :=
  fold_right Z.add 0%Z (List.map Analyzer.size fs).

(** A file entry inside a folder. *)
Definition nestedFile (f : Analyzer.file) : bool :=
  negb (Analyzer.isDirectory f) && negb (noChar "/" (Analyzer.originalName f)).

(** The base names of the file entries of directory [dir] whose
    lower-cased base name is [lower], in listing order. *)
Definition namesIn (dir lower : string) (fs : list Analyzer.file)
    : list string :=
  List.map (fun f => Path.basename (Analyzer.originalName f))
    (List.filter
       (fun f =>
          negb (Analyzer.isDirectory f)
          && String.eqb (Path.dirname (Analyzer.originalName f)) dir
          && String.eqb
               (JS.toLowerCase (Path.basename (Analyzer.originalName f))) lower)
       fs).

Definition conflictStep (dirMap : list (string * list (string * list string)))
    (f : Analyzer.file) : list (string * list (string * list string)) :=
  if Analyzer.isDirectory f then dirMap
  else
    Analyzer.mapUpdate (Path.dirname (Analyzer.originalName f))
      (fun o =>
         Analyzer.mapPush (JS.toLowerCase (Path.basename (Analyzer.originalName f)))
           (Path.basename (Analyzer.originalName f)) (default [] o))
      dirMap.

(** The conflict that [simulateRenameConflicts] reports for a directory
    and a lower-cased name. *)
Definition conflictFor (dir lower : string) (fs : list Analyzer.file)
    : Analyzer.conflictWarning :=
  {| Analyzer.cwDirectory := dir;
     Analyzer.cwConflictingFiles := namesIn dir lower fs;
     Analyzer.cwResultName := lower;
     Analyzer.cwCount := List.length (namesIn dir lower fs) |}.

(** The names that a rule list gives the entries of a list, the
    first one under index [idx]. *)
Fixpoint newNames
    (regexReplace : string -> string -> string -> string -> option string)
    (rs : list rule) (idx : nat) (es : list entry) : list string :=
  match es with
  | [] => []
  | e :: rest =>
      applyRenamingRules regexReplace (entryName e) (indexNumber idx) rs
      :: newNames regexReplace rs (S idx) rest
  end.

Definition slashFree (n : string) : bool :=
  noChar "/" n && noChar JS.backslash n.

(** A rule group of the request as the browser holds it. *)
Definition clientGroup (g : group) : Client.group :=
  {| Client.id := id g; Client.groupScope := groupScope g;
     Client.scopeValue := scopeValue g; Client.exclude := exclude g;
     Client.rules := List.map Client.Other (rules g) |}.

(** The previews of the file entries of a listing, in listing order. *)
Definition filePreviews (allEntries : list entry)
    (previews : list Client.previewed) : list string :=
  List.map (fun ep => Client.preview ep.2)
    (List.filter (fun ep => negb (isDirectory ep.1))
       (combine allEntries previews)).

(** The names that the preview gives the entries of a list under one
    rule list, the first one under index [idx]. *)
Fixpoint previewNames (currentDate : string) (rs : list Client.clientRule)
    (idx : nat) (es : list entry) : list string :=
  match es with
  | [] => []
  | e :: rest =>
      Client.applyRules currentDate (entryName e) (indexNumber idx) rs false
      :: previewNames currentDate rs (S idx) rest
  end.

(** A plain file path whose last segment is not [..]. *)
Definition previewablePath (p : string) : bool :=
  plainFilePath p && negb (String.eqb (Path.basename p) "..").

(** * Properties *)

Local Arguments String.append !s1 s2 : simpl nomatch.

(** ** The primitives on the examples of their documentation *)

Example node_basename :
  Path.basename "/foo/bar/baz/asdf/quux.html" = "quux.html"
  /\ Path.basenameSuffix "/foo/bar/baz/asdf/quux.html" ".html" = "quux"
  /\ Path.basename "/foo/bar/" = "bar".
Proof. repeat split. Qed.

Example node_dirname :
  Path.dirname "/foo/bar/baz/asdf/quux" = "/foo/bar/baz/asdf"
  /\ Path.dirname "quux.html" = "."
  /\ Path.dirname "/quux" = "/"
  /\ Path.dirname "a/b/" = "a".
Proof. repeat split. Qed.

Example node_extname :
  List.map Path.extname
    ["index.html"; "index.coffee.md"; "index."; "index"; ".index"; ".index.md"]
  = [".html"; ".md"; "."; ""; ""; ".md"].
Proof. reflexivity. Qed.

Example js_split_join :
  JS.split "/" "a//b/" = ["a"; ""; "b"; ""]
  /\ JS.split "/" "" = [""]
  /\ JS.join "/" ["a"; "b"] = "a/b".
Proof. repeat split. Qed.

Example js_replace_patterns :
  JS.replaceFirst "abcabc" "b" "[$&]" = "a[b]cabc"
  /\ JS.replaceFirst "abc" "b" "$$" = "a$c"
  /\ JS.replaceFirst "abc" "b" "$1" = "a$1c"
  /\ JS.replaceAllLiteral "a.b.c" "." "-" = "a-b-c"
  /\ JS.replaceAllLiteral "aaa" "aa" "b" = "ba".
Proof. repeat split. Qed.

Example js_padStart :
  JS.padStart (Number.toString (Number.ofZ 7)) 3 "0" = "007"
  /\ JS.padStart (Number.toString (Number.ofZ 1234)) 3 "0" = "1234".
Proof. repeat split. Qed.

(** ** Strings *)

Lemma str_app_nil_r s : s +:+ EmptyString = s.
Proof. induction s as [|c s IH]; simpl; [done|]. by rewrite IH. Qed.

Lemma str_app_assoc s t u : (s +:+ t) +:+ u = s +:+ t +:+ u.
Proof. induction s as [|c s IH]; simpl; [done|]. by rewrite IH. Qed.

Lemma str_length_app s t :
  String.length (s +:+ t) = (String.length s + String.length t)%nat.
Proof. induction s as [|c s IH]; simpl; [done|]. by rewrite IH. Qed.

Lemma str_take_drop n s : JS.take n s +:+ JS.drop n s = s.
Proof.
  revert s. induction n as [|n IH]; intros [|c s]; simpl; try done.
  by rewrite IH.
Qed.

Lemma str_drop_app p r : JS.drop (String.length p) (p +:+ r) = r.
Proof. induction p as [|c p IH]; simpl; [by destruct r|done]. Qed.

Lemma str_take_app p r : JS.take (String.length p) (p +:+ r) = p.
Proof. induction p as [|c p IH]; simpl; [by destruct r|]. by rewrite IH. Qed.

Lemma str_length_drop n s :
  String.length (JS.drop n s) = (String.length s - n)%nat.
Proof. revert s. induction n as [|n IH]; intros [|c s]; simpl; auto. Qed.

Lemma str_length_repeat c n : String.length (JS.repeatChar c n) = n.
Proof. induction n as [|n IH]; simpl; [done|]. by rewrite IH. Qed.

Lemma startsWith_app p r : JS.startsWith (p +:+ r) p = true.
Proof.
  induction p as [|c p IH]; simpl; [by destruct r|].
  by rewrite Ascii.eqb_refl.
Qed.

Lemma startsWith_inv s p :
  JS.startsWith s p = true -> s = p +:+ JS.drop (String.length p) s.
Proof.
  revert s. induction p as [|a p IH]; intros [|b s]; simpl; try done.
  intros [Hab Hs]%andb_prop. apply Ascii.eqb_eq in Hab as ->.
  by rewrite <- (IH s Hs).
Qed.

Lemma endsWith_drop n s :
  (n <= String.length s)%nat -> JS.endsWith s (JS.drop n s) = true.
Proof.
  intros Hn. unfold JS.endsWith. rewrite str_length_drop.
  apply andb_true_intro. split; [apply Nat.leb_le; lia|].
  replace (String.length s - (String.length s - n))%nat with n by lia.
  apply String.eqb_refl.
Qed.

Lemma endsWith_app s t : JS.endsWith (s +:+ t) t = true.
Proof.
  rewrite <- (str_drop_app s t) at 2.
  apply endsWith_drop. rewrite str_length_app. lia.
Qed.

Lemma lastIndexOf_lt c s i :
  JS.lastIndexOf c s = Some i -> (i < String.length s)%nat.
Proof.
  revert i. induction s as [|x s IH]; intros i; simpl; [done|].
  destruct (JS.lastIndexOf c s) as [j|].
  - intros [= <-]. specialize (IH j eq_refl). lia.
  - destruct (Ascii.eqb x c); [|done]. intros [= <-]. lia.
Qed.

(** ** Path components *)

Lemma split_length_le c s :
  Forall (fun seg => (String.length seg <= String.length s)%nat) (JS.split c s).
Proof.
  induction s as [|x s IH]; simpl.
  - by constructor.
  - destruct (Ascii.eqb x c).
    + constructor; [simpl; lia|].
      eapply Forall_impl; [exact IH|]. simpl. intros; lia.
    + destruct (JS.split c s) as [|h t].
      { constructor; [simpl; lia|constructor]. }
      inversion IH as [|? ? Hh Ht]; subst.
      constructor; [simpl; lia|].
      eapply Forall_impl; [exact Ht|]. simpl. intros; lia.
Qed.

Lemma lastNonEmpty_length_le n l :
  Forall (fun seg => (String.length seg <= n)%nat) l ->
  (String.length (Path.lastNonEmpty l) <= n)%nat.
Proof.
  induction 1 as [|s l Hs Hl IH]; simpl; [lia|].
  destruct (Path.lastNonEmpty l); simpl in *; lia.
Qed.

Lemma basename_length_le p :
  (String.length (Path.basename p) <= String.length p)%nat.
Proof. apply lastNonEmpty_length_le, split_length_le. Qed.

(** The stem that [applyRenamingRules] starts from and the extension it
    sets aside make up the base name. *)
Lemma stem_ext_basename p :
  Path.basenameSuffix p (Path.extname p) +:+ Path.extname p = Path.basename p.
Proof.
  pose proof (basename_length_le p) as Hlen.
  unfold Path.basenameSuffix, Path.extname in *.
  set (c := Path.basename p) in *.
  destruct (JS.lastIndexOf "." c) as [[|i]|] eqn:Hdot;
    [simpl; apply str_app_nil_r| |simpl; apply str_app_nil_r].
  destruct (String.eqb c "..") eqn:Hdd; [simpl; apply str_app_nil_r|].
  apply lastIndexOf_lt in Hdot.
  set (e := JS.drop (S i) c).
  assert (String.length e = (String.length c - S i)%nat) as He
    by apply str_length_drop.
  assert (String.eqb e EmptyString = false) as ->.
  { apply String.eqb_neq. intros Heq. rewrite Heq in He. simpl in He. lia. }
  assert ((String.length p <? String.length e)%nat = false) as ->
    by (apply Nat.ltb_ge; lia).
  cbn [orb].
  assert (String.eqb p e = false) as ->.
  { apply String.eqb_neq. intros Heq. rewrite Heq in Hlen. lia. }
  assert (JS.endsWith c e = true) as -> by (apply endsWith_drop; lia).
  assert (String.eqb c e = false) as ->.
  { apply String.eqb_neq. intros Heq. rewrite <- Heq in He. lia. }
  unfold JS.dropEnd. rewrite He.
  replace (String.length c - (String.length c - S i))%nat with (S i) by lia.
  apply str_take_drop.
Qed.

(** ** Numbers on the safe integers *)

Lemma ofZ_safe z : safeInteger z = true -> Number.ofZ z = Number.Finite z 0.
Proof.
  unfold safeInteger, Number.ofZ, Number.round, Number.fits. intros ->.
  by destruct (Z.eqb_spec z 0) as [->|].
Qed.

Lemma add_safe a b :
  safeInteger (a + b) = true ->
  Number.add (Number.Finite a 0) (Number.Finite b 0)
  = Number.Finite (a + b) 0.
Proof.
  intros Hsum. unfold Number.add.
  change (Z.min 0 0) with 0%Z. change (0 - 0)%Z with 0%Z.
  change (2 ^ 0)%Z with 1%Z. rewrite !Z.mul_1_r.
  by apply ofZ_safe.
Qed.

Lemma toString_safe z :
  safeInteger z = true ->
  Number.toString (Number.Finite z 0) = Number.decimal z.
Proof.
  assert (forall p,
            safeInteger (Z.pos p) = true ->
            Number.positiveToString (Z.pos p) 0 = Number.decimal (Z.pos p))
    as Hpos.
  { intros p Hp. unfold Number.positiveToString.
    change (Z.max 0 0) with 0%Z. change (Z.max (- 0) 0) with 0%Z.
    change (2 ^ 0)%Z with 1%Z.
    rewrite Z.mul_1_r, Z.mod_1_r, Z.div_1_r. cbn [Z.eqb andb].
    unfold safeInteger in Hp. change (Z.abs (Z.pos p)) with (Z.pos p) in Hp.
    by rewrite Hp. }
  intros Hz. destruct z as [|p|p]; [reflexivity| |].
  - change (Number.toString (Number.Finite (Z.pos p) 0))
      with (Number.positiveToString (Z.pos p) 0).
    by apply Hpos.
  - change (Number.toString (Number.Finite (Z.neg p) 0))
      with (String "-" (Number.positiveToString (Z.pos p) 0)).
    by rewrite Hpos.
Qed.

Lemma toLength_safe z :
  safeInteger z = true -> Number.toLength (Number.Finite z 0) = Z.max 0 z.
Proof.
  unfold safeInteger. intros Hz%Z.ltb_lt. unfold Number.toLength.
  cbn [Z.leb Z.compare]. change (2 ^ 0)%Z with 1%Z. rewrite Z.mul_1_r. lia.
Qed.

(** [parseInt] reads the digits of an integer back. *)
Lemma readDigits_uint u acc :
  Number.readDigits 10 (NilEmpty.string_of_uint u) acc true
  = Some (uintValue u acc, EmptyString).
Proof.
  revert acc.
  induction u as [|u IH|u IH|u IH|u IH|u IH|u IH|u IH|u IH|u IH|u IH];
    intros acc; [reflexivity|..]; exact (IH _).
Qed.

Lemma uintValue_pos u acc :
  uintValue u (Z.pos acc) = Z.pos (Pos.of_uint_acc u acc).
Proof.
  revert acc.
  induction u as [|u IH|u IH|u IH|u IH|u IH|u IH|u IH|u IH|u IH|u IH];
    intros acc; [reflexivity|..]; cbn [uintValue Pos.of_uint_acc];
    rewrite <- IH; f_equal; lia.
Qed.

Lemma uintValue_of_uint u : uintValue u 0 = Z.of_N (Pos.of_uint u).
Proof.
  induction u as [|u IH|u IH|u IH|u IH|u IH|u IH|u IH|u IH|u IH|u IH];
    [reflexivity|exact IH|..]; cbn [uintValue Pos.of_uint Z.of_N];
    apply (uintValue_pos u).
Qed.

Lemma uint_no_x l :
  JS.startsWith (NilEmpty.string_of_uint l) "x" = false
  /\ JS.startsWith (NilEmpty.string_of_uint l) "X" = false.
Proof. by destruct l. Qed.

Lemma parseInt_uint u (negative : bool) :
  u <> Decimal.Nil ->
  Number.parseInt
    ((if negative then "-" else EmptyString) +:+ NilEmpty.string_of_uint u)
  = Number.round (if negative then - uintValue u 0 else uintValue u 0) 0.
Proof.
  intros Hu. pose proof (readDigits_uint u 0) as Hread.
  unfold Number.parseInt.
  assert (Number.stripSign
            (JS.trimStart
               ((if negative then "-" else EmptyString)
                +:+ NilEmpty.string_of_uint u))
          = (negative, NilEmpty.string_of_uint u)) as ->.
  { destruct negative; [done|]. by destruct u. }
  assert (JS.startsWith (NilEmpty.string_of_uint u) "0x" = false) as ->.
  { destruct u; try done. cbn. apply uint_no_x. }
  assert (JS.startsWith (NilEmpty.string_of_uint u) "0X" = false) as ->.
  { destruct u; try done. cbn. apply uint_no_x. }
  cbn [orb].
  assert (Number.readDigits 10 (NilEmpty.string_of_uint u) 0 false
          = Number.readDigits 10 (NilEmpty.string_of_uint u) 0 true) as ->
    by (by destruct u).
  by rewrite Hread.
Qed.

Lemma parseInt_decimal z :
  Number.parseInt (Number.decimal z) = Number.ofZ z.
Proof.
  unfold Number.decimal, Number.ofZ.
  destruct z as [|p|p]; [reflexivity| |].
  - pose proof (DecimalPos.Unsigned.of_to p) as Hback.
    pose proof (uintValue_of_uint (Pos.to_uint p)) as Hval.
    rewrite Hback in Hval. cbn [Z.of_N] in Hval.
    assert (Pos.to_uint p <> Decimal.Nil) as Hnil
      by apply DecimalPos.Unsigned.to_uint_nonnil.
    cbn [Z.to_int NilZero.string_of_int].
    replace (NilZero.string_of_uint (Pos.to_uint p))
      with (NilEmpty.string_of_uint (Pos.to_uint p))
      by (by destruct (Pos.to_uint p)).
    rewrite <- Hval. exact (parseInt_uint (Pos.to_uint p) false Hnil).
  - pose proof (DecimalPos.Unsigned.of_to p) as Hback.
    pose proof (uintValue_of_uint (Pos.to_uint p)) as Hval.
    rewrite Hback in Hval. cbn [Z.of_N] in Hval.
    assert (Pos.to_uint p <> Decimal.Nil) as Hnil
      by apply DecimalPos.Unsigned.to_uint_nonnil.
    cbn [Z.to_int NilZero.string_of_int].
    replace (NilZero.string_of_uint (Pos.to_uint p))
      with (NilEmpty.string_of_uint (Pos.to_uint p))
      by (by destruct (Pos.to_uint p)).
    change (Z.neg p) with (- Z.pos p)%Z. rewrite <- Hval.
    exact (parseInt_uint (Pos.to_uint p) true Hnil).
Qed.

Lemma parseInt_safe z :
  safeInteger z = true ->
  Number.parseInt (Number.toString (Number.Finite z 0)) = Number.Finite z 0.
Proof.
  intros Hz. by rewrite toString_safe, parseInt_decimal, ofZ_safe.
Qed.

Section RuleEvaluator.

Variable regexReplace : string -> string -> string -> string -> option string.


(** C5, as amended.  For an integer index and a numbering rule whose
    [start] and [padding] are missing or integers, all within the range
    in which numbers are exact (below 2^53 in size; [padding] below 2^28,
    so that the padded string can be built), the rule appends, or with
    [position = start] prepends, the number [index + start], where
    [start] is 1 when it is missing or zero; the decimal string of the
    number is left-padded with zeros to [padding] digits ([padding] is 1
    when missing or zero) and never cut; the separator is [-] when it is
    missing or empty.  The rule of the preview gives the same stem and
    leaves the extension alone. *)
Theorem numbering_rule stem index start padding separator position
    currentDate pathPart ext :
  let from :=
    match start with
    | Some s => if (s =? 0)%Z then 1%Z else s
    | None => 1%Z
    end in
  let n := (index + from)%Z in
  let size :=
    match padding with
    | Some p => if (p =? 0)%Z then 1%Z else p
    | None => 1%Z
    end in
  safeInteger index = true -> safeInteger from = true ->
  safeInteger n = true -> safeInteger size = true -> (size < 2 ^ 28)%Z ->
  let width := Z.to_nat size in
  let sep :=
    match separator with
    | Some s => if String.eqb s EmptyString then "-" else s
    | None => "-"
    end in
  let digits := Number.decimal n in
  let num := JS.repeatChar "0" (width - String.length digits) +:+ digits in
  String.length num = Nat.max width (String.length digits)
  /\ JS.endsWith num digits = true
  /\ applyRule regexReplace (Number.ofZ index)
       (Numbering (integerField start) (integerField padding)
          separator position) stem
     = (if bool_decide (position = Some "start")
        then num +:+ sep +:+ stem
        else stem +:+ sep +:+ num)
  /\ Client.applyRule currentDate (Number.ofZ index) pathPart
       (Client.Other
          (Numbering (integerField start) (integerField padding)
             separator position))
       (stem, ext)
     = (if bool_decide (position = Some "start")
        then num +:+ sep +:+ stem
        else stem +:+ sep +:+ num,
        ext).
Proof.
  intros from n size Hindex Hfrom Hn Hsafe Hsize width sep digits num.
  split; [|split].
  - unfold num. rewrite str_length_app, str_length_repeat. lia.
  - apply endsWith_app.
  - assert (Number.toString
              (Number.add (Number.ofZ index)
                 (if Number.isTruthy (Number.parseIntOf (integerField start))
                  then Number.parseIntOf (integerField start)
                  else Number.one))
            = digits) as Hparsed.
    { rewrite (ofZ_safe index Hindex).
      assert ((if Number.isTruthy (Number.parseIntOf (integerField start))
               then Number.parseIntOf (integerField start)
               else Number.one)
              = Number.Finite from 0) as ->.
      { unfold from in *. destruct start as [s|]; [|reflexivity].
        unfold integerField, Number.parseIntOf.
        destruct (Z.eqb_spec s 0) as [->|Hs]; [reflexivity|].
        rewrite (ofZ_safe s Hfrom), (parseInt_safe s Hfrom).
        cbn [Number.isTruthy]. by apply Z.eqb_neq in Hs as ->. }
      by rewrite add_safe, toString_safe. }
    assert (Number.text
              (Number.plus (Number.ofZ index)
                 (Number.orElse (integerField start) (Number.Num Number.one)))
            = digits) as Htext.
    { rewrite (ofZ_safe index Hindex).
      assert (Number.orElse (integerField start) (Number.Num Number.one)
              = Number.Num (Number.Finite from 0)) as ->.
      { unfold from in *. destruct start as [s|]; [|reflexivity].
        unfold integerField, Number.orElse, Number.truthy.
        destruct (Z.eqb_spec s 0) as [->|Hs]; [reflexivity|].
        rewrite (ofZ_safe s Hfrom). cbn [Number.isTruthy].
        by apply Z.eqb_neq in Hs as ->. }
      cbn [Number.plus Number.text].
      by rewrite add_safe, toString_safe. }
    assert (Z.to_nat
              (Number.lengthOf
                 (Number.orElse (integerField padding) (Number.Num Number.one)))
            = width) as Hwidth.
    { unfold width, size in *. destruct padding as [p|]; [|reflexivity].
      unfold integerField, Number.orElse, Number.truthy.
      destruct (Z.eqb_spec p 0) as [->|Hne]; [reflexivity|].
      rewrite (ofZ_safe p Hsafe). cbn [Number.isTruthy].
      apply Z.eqb_neq in Hne as ->. cbn [negb Number.lengthOf].
      rewrite toLength_safe by done. lia. }
    unfold applyRule, Client.applyRule. cbv zeta.
    rewrite Htext, Hparsed, Hwidth. unfold JS.padStart, orString.
    fold num. fold sep.
    destruct position as [pos|]; case_bool_decide as Hp.
    + injection Hp as ->. by split.
    + destruct (String.eqb pos EmptyString); [by split|].
      destruct (String.eqb_spec pos "start") as [->|_]; [by destruct Hp|done].
    + discriminate Hp.
    + by split.
Qed.

End RuleEvaluator.

(** C5, as stated, fails: with [start] given as 0 the rule numbers the
    first entry 1, not 0. *)
Lemma numbering_start_zero_counts_from_one :
  ~ (forall regexReplace stem index start padding separator position,
       applyRule regexReplace (Number.ofZ index)
         (Numbering (integerField start) (integerField padding)
            separator position) stem
       = numberingAsStated stem index start padding separator position).
Proof.
  intros H.
  specialize (H noRegex "a" 0%Z (Some 0%Z) None None None).
  vm_compute in H. discriminate H.
Qed.

(** The theorem for the third file of a run, numbered from 1 with three
    digits. *)
Lemma numbering_rule_example :
  String.length "003" = Nat.max 3 (String.length "3")
  /\ JS.endsWith "003" "3" = true
  /\ applyRule noRegex (Number.ofZ 2)
       (Numbering (integerField (Some 1%Z)) (integerField (Some 3%Z))
          (Some "_") None) "holiday"
     = "holiday_003"
  /\ Client.applyRule "2026-01-01" (Number.ofZ 2) "trip/"
       (Client.Other
          (Numbering (integerField (Some 1%Z)) (integerField (Some 3%Z))
             (Some "_") None))
       ("holiday", ".jpg")
     = ("holiday_003", ".jpg").
Proof.
  apply (numbering_rule noRegex "holiday" 2 (Some 1%Z) (Some 3%Z)
           (Some "_") None "2026-01-01" "trip/" ".jpg"); reflexivity.
Defined.

(** Outside these integers the rule does what [+], [String] and
    [padStart] do: a [start] that is a string is appended to the digits of
    the index; a fraction is printed as one; a large number is printed
    with an exponent; and beyond 2^53 a sum is rounded. *)
Example numbering_outside_integers :
  applyRule noRegex (Number.ofZ 0)
    (Numbering (Number.Str "5") Number.Undefined None None) "a"
  = "a-05"
  /\ applyRule noRegex (Number.ofZ 0)
       (Numbering (Number.Num (Number.Finite 3 (-1))) (Number.Str "4") None
          None) "a"
     = "a-01.5"
  /\ applyRule noRegex (Number.ofZ 0)
       (Numbering (Number.Num (Number.ofZ (10 ^ 21))) Number.Undefined None
          None) "a"
     = "a-1e+21"
  /\ applyRule noRegex (Number.ofZ 1)
       (Numbering (Number.Num (Number.ofZ (2 ^ 53))) Number.Undefined None
          None) "a"
     = "a-9007199254740992".
Proof. repeat split; vm_compute; reflexivity. Qed.

(** ** Splitting and joining paths *)

Lemma noChar_cons c x s :
  noChar c (String x s) = true <-> x <> c /\ noChar c s = true.
Proof.
  unfold noChar. simpl. rewrite negb_orb, andb_true_iff, negb_true_iff.
  rewrite (Ascii.eqb_sym c x), Ascii.eqb_neq. tauto.
Qed.

Lemma noChar_app c s t :
  noChar c (s +:+ t) = true <-> noChar c s = true /\ noChar c t = true.
Proof.
  induction s as [|x s IH]; simpl.
  - unfold noChar at 2. simpl. tauto.
  - rewrite !noChar_cons, IH. tauto.
Qed.

Lemma replaceChar_noChar a b s :
  noChar a s = true -> JS.replaceChar a b s = s.
Proof.
  induction s as [|x s IH]; [done|].
  intros [Hx Hs]%noChar_cons. unfold JS.replaceChar in *. simpl.
  rewrite (IH Hs). by apply Ascii.eqb_neq in Hx as ->.
Qed.

Lemma split_nonempty c s : JS.split c s <> [].
Proof.
  destruct s as [|x s]; simpl; [done|].
  destruct (Ascii.eqb x c); [done|]. by destruct (JS.split c s).
Qed.

Lemma join_split s : JS.join "/" (JS.split "/" s) = s.
Proof.
  induction s as [|x s IH]; [done|].
  pose proof (split_nonempty "/" s) as Hne. simpl.
  destruct (JS.split "/" s) as [|h t]; [done|].
  destruct (Ascii.eqb_spec x "/") as [->|Hx].
  - change (JS.join "/" (EmptyString :: h :: t))
      with (EmptyString +:+ "/" +:+ JS.join "/" (h :: t)).
    by rewrite IH.
  - destruct t as [|h' t]; simpl in *; by rewrite <- IH.
Qed.

Lemma split_noSlash s :
  Forall (fun seg => noChar "/" seg = true) (JS.split "/" s).
Proof.
  induction s as [|x s IH]; simpl; [by repeat constructor|].
  destruct (Ascii.eqb_spec x "/") as [->|Hx]; [by constructor|].
  destruct (JS.split "/" s) as [|h t].
  { constructor; [|constructor]. by apply noChar_cons. }
  inversion IH; subst. constructor; [|done]. by apply noChar_cons.
Qed.

Lemma split_plain s : noChar "/" s = true -> JS.split "/" s = [s].
Proof.
  induction s as [|x s IH]; [done|].
  intros [Hx Hs]%noChar_cons. simpl.
  apply Ascii.eqb_neq in Hx as ->. by rewrite (IH Hs).
Qed.

Lemma split_app a r :
  noChar "/" a = true -> JS.split "/" (a +:+ "/" +:+ r) = a :: JS.split "/" r.
Proof.
  induction a as [|x a IH]; [done|].
  intros [Hx Ha]%noChar_cons. specialize (IH Ha). simpl in IH |- *.
  apply Ascii.eqb_neq in Hx as ->. by rewrite IH.
Qed.

Lemma split_join l :
  l <> [] -> Forall (fun seg => noChar "/" seg = true) l ->
  JS.split "/" (JS.join "/" l) = l.
Proof.
  induction l as [|a [|b t] IH]; [done| |]; intros _ Hl.
  - inversion Hl; subst. by apply split_plain.
  - inversion Hl as [|? ? Ha Ht]; subst.
    change (JS.join "/" (a :: b :: t)) with (a +:+ "/" +:+ JS.join "/" (b :: t)).
    rewrite (split_app _ _ Ha). by rewrite IH.
Qed.

Lemma join_snoc l b :
  l <> [] -> JS.join "/" (l ++ [b]) = JS.join "/" l +:+ "/" +:+ b.
Proof.
  induction l as [|a [|a' t] IH]; [done| |]; intros _.
  - reflexivity.
  - change (JS.join "/" ((a :: a' :: t) ++ [b]))
      with (a +:+ "/" +:+ JS.join "/" ((a' :: t) ++ [b])).
    rewrite IH by done.
    change (JS.join "/" (a :: a' :: t)) with (a +:+ "/" +:+ JS.join "/" (a' :: t)).
    by rewrite !str_app_assoc.
Qed.

Lemma lastNonEmpty_snoc l b :
  b <> EmptyString -> Path.lastNonEmpty (l ++ [b]) = b.
Proof.
  intros Hb. induction l as [|a l IH]; simpl.
  - by destruct b.
  - rewrite IH. by destruct b.
Qed.

Lemma dirnameScan_plain s i :
  noChar "/" s = true -> s <> EmptyString ->
  Path.dirnameScan s i = (None, false).
Proof.
  revert i. induction s as [|x s IH]; [done|].
  intros i [Hx Hs]%noChar_cons _. simpl.
  apply Ascii.eqb_neq in Hx as Hx'. rewrite Hx'.
  destruct s as [|y s]; [done|]. by rewrite (IH (S i) Hs).
Qed.

Lemma dirnameScan_app x b i :
  noChar "/" b = true -> b <> EmptyString ->
  Path.dirnameScan (x +:+ String "/" b) i
  = (Some (i + String.length x)%nat, false).
Proof.
  intros Hb Hne. revert i.
  induction x as [|c x IH]; intros i.
  - simpl. rewrite (dirnameScan_plain b (S i) Hb Hne). simpl.
    by rewrite Nat.add_0_r.
  - specialize (IH (S i)). simpl in IH |- *. rewrite IH. do 2 f_equal. lia.
Qed.

Lemma dirname_plain b :
  noChar "/" b = true -> b <> EmptyString -> Path.dirname b = ".".
Proof.
  destruct b as [|c b]; [done|]. intros [Hc Hb]%noChar_cons _.
  unfold Path.dirname. apply Ascii.eqb_neq in Hc as ->.
  destruct b as [|y b]; [done|]. by rewrite dirnameScan_plain.
Qed.

Lemma dirname_app c d b :
  c <> "/"%char -> noChar "/" b = true -> b <> EmptyString ->
  Path.dirname (String c d +:+ "/" +:+ b) = String c d.
Proof.
  intros Hc Hb Hne. unfold Path.dirname. simpl.
  rewrite dirnameScan_app by done. apply Ascii.eqb_neq in Hc as ->. simpl.
  by rewrite str_take_app.
Qed.

Lemma filter_all {A} (f : A -> bool) l : forallb f l = true -> List.filter f l = l.
Proof.
  induction l as [|a l IH]; simpl; [done|].
  intros [Ha Hl]%andb_prop. by rewrite Ha, IH.
Qed.

(** A path whose segments are all kept is put together again as it was. *)
Lemma rebuildPath_plain p :
  noChar JS.backslash p = true ->
  forallb keepSegment (removelast (JS.split "/" p)) = true ->
  List.last (JS.split "/" p) EmptyString <> EmptyString ->
  rebuildPath (Path.dirname p) (Path.basename p) = p.
Proof.
  intros Hbs Hinit Hlast.
  pose proof (join_split p) as Hjoin.
  pose proof (split_noSlash p) as Hns.
  pose proof (split_nonempty "/" p) as Hne.
  unfold Path.basename.
  rewrite (app_removelast_last EmptyString Hne) in Hjoin, Hns |- *.
  remember (removelast (JS.split "/" p)) as init eqn:Ei.
  remember (List.last (JS.split "/" p) EmptyString) as b eqn:Eb.
  clear Ei Eb Hne.
  apply Forall_app in Hns as [Hinit_ns Hb]. inversion Hb as [|? ? Hb' _]; subst.
  rewrite lastNonEmpty_snoc by done.
  destruct init as [|a init'].
  - simpl in *. rewrite dirname_plain by done.
    unfold rebuildPath. simpl. by apply replaceChar_noChar.
  - assert (exists c d, JS.join "/" (a :: init') = String c d /\ c <> "/"%char)
      as (c & d & Hd & Hc).
    { simpl in Hinit. apply andb_prop in Hinit as [Ha _].
      inversion Hinit_ns as [|? ? Hans _]; subst.
      destruct a as [|c a]; [done|]. apply noChar_cons in Hans as [Hc _].
      destruct init'; simpl; eauto. }
    remember (a :: init') as init eqn:Hinit_eq.
    assert (init <> []) as Hinit_ne by (by rewrite Hinit_eq).
    assert (JS.split "/" (JS.join "/" init) = init) as Hsplit
      by (by apply split_join).
    rewrite join_snoc in Hbs |- * by done.
    rewrite Hd at 1. rewrite dirname_app by done. rewrite <- Hd.
    unfold rebuildPath. rewrite Hsplit, (filter_all _ _ Hinit).
    assert (String.eqb (JS.join "/" init) "." = false) as ->.
    { apply String.eqb_neq. intros Heq. rewrite Heq in Hsplit.
      rewrite <- Hsplit in Hinit. done. }
    assert (String.eqb (JS.join "/" init) EmptyString = false) as ->
      by (rewrite Hd; done).
    by apply replaceChar_noChar.
Qed.

(** ** The rename engine: counters *)

Section EngineFacts.

Variable regexReplace : string -> string -> string -> string -> option string.

Lemma groupStep_counters isDir reparse n o acc g :
  (groupStep regexReplace isDir reparse n o acc g).1.1
  = if active isDir n g then counterBump acc.1.1 (id g) else acc.1.1.
Proof.
  destruct acc as [[c log] w]. unfold groupStep, active.
  destruct (rules g); [done|]. by destruct (matchScope _ _ _ _ _).
Qed.

Lemma groupStep_calls isDir reparse n o acc g :
  (groupStep regexReplace isDir reparse n o acc g).1.2
  = acc.1.2 ++
    (if active isDir n g
     then [{| appliedGroup := id g;
              appliedIndex := counterIndex acc.1.1 (id g);
              appliedEntry := o |}]
     else []).
Proof.
  destruct acc as [[c log] w]. unfold groupStep, active.
  destruct (rules g); simpl; [by rewrite List.app_nil_r|].
  destruct (matchScope _ _ _ _ _); simpl; [done|by rewrite List.app_nil_r].
Qed.

Lemma callsOf_app i l1 l2 : callsOf i (l1 ++ l2) = callsOf i l1 ++ callsOf i l2.
Proof. apply List.filter_app. Qed.

Lemma groupStep_consistent isDir reparse n o acc g :
  consistent acc.1.1 acc.1.2 ->
  consistent (groupStep regexReplace isDir reparse n o acc g).1.1
    (groupStep regexReplace isDir reparse n o acc g).1.2.
Proof.
  intros Hc. rewrite groupStep_counters, groupStep_calls.
  destruct (active isDir n g); [|by rewrite List.app_nil_r].
  destruct Hc as (Hproto & Hseq & Hnan).
  unfold counterBump, counterIndex.
  destruct (String.eqb_spec (id g) "__proto__") as [Hid|Hid].
  - split; [done|split].
    + intros i Hi. rewrite callsOf_app, <- Hseq by done.
      unfold callsOf at 2. simpl.
      destruct (String.eqb_spec (id g) i) as [<-|_]; [done|].
      by rewrite List.app_nil_r.
    + rewrite callsOf_app. apply List.Forall_app. split; [done|].
      unfold callsOf. simpl. rewrite Hid. simpl. by constructor.
  - split; [by rewrite lookup_insert_ne|split].
    + intros i Hi. rewrite callsOf_app, List.map_app, Hseq by done.
      unfold counterOf, callsOf. simpl.
      destruct (String.eqb_spec (id g) i) as [->|Hne].
      * rewrite lookup_insert_eq.
        cbn [from_option List.map appliedIndex]. unfold Datatypes.id.
        by rewrite seq_S, List.map_app.
      * rewrite lookup_insert_ne by done. by rewrite List.app_nil_r.
    + rewrite callsOf_app. unfold callsOf at 2. simpl.
      destruct (String.eqb_spec (id g) "__proto__") as [|_]; [done|].
      by rewrite List.app_nil_r.
Qed.

Lemma groupLoop_consistent isDir reparse n o groups acc :
  consistent acc.1.1 acc.1.2 ->
  consistent
    (fold_left (groupStep regexReplace isDir reparse n o) groups acc).1.1
    (fold_left (groupStep regexReplace isDir reparse n o) groups acc).1.2.
Proof.
  revert acc. induction groups as [|g groups IH]; intros acc Hc; simpl; [done|].
  by apply IH, groupStep_consistent.
Qed.

Lemma groupLoop_calls isDir reparse n o groups acc :
  List.map callKey
    (fold_left (groupStep regexReplace isDir reparse n o) groups acc).1.2
  = List.map callKey acc.1.2
    ++ List.map (fun g => (id g, o)) (List.filter (active isDir n) groups).
Proof.
  revert acc. induction groups as [|g groups IH]; intros acc; simpl.
  - by rewrite List.app_nil_r.
  - rewrite IH, groupStep_calls, List.map_app, <- List.app_assoc.
    by destruct (active isDir n g).
Qed.

Lemma processDirectory_consistent groups st e :
  consistent (groupCounters st) (calls st) ->
  consistent (groupCounters (processDirectory regexReplace groups st e))
    (calls (processDirectory regexReplace groups st e)).
Proof.
  intros Hc. unfold processDirectory.
  destruct (JS.lastIndexOf "/" _) as [lastSlash|]; [|done].
  match goal with
  | |- context [fold_left ?f groups ?a] =>
      pose proof (groupLoop_consistent true false
        (JS.normalizeSlashes (entryName e)) (entryName e) groups a Hc) as H;
      destruct (fold_left f groups a) as [[c l] w]
  end.
  exact H.
Qed.

Lemma processDirectory_calls groups st e :
  List.map callKey (calls (processDirectory regexReplace groups st e))
  = List.map callKey (calls st) ++ directoryMatches groups e.
Proof.
  unfold processDirectory, directoryMatches, topLevel, dirPathOf.
  destruct (JS.lastIndexOf "/" _) as [lastSlash|]; simpl;
    [|by rewrite List.app_nil_r].
  match goal with
  | |- context [fold_left ?f groups ?a] =>
      pose proof (groupLoop_calls true false
        (JS.normalizeSlashes (entryName e)) (entryName e) groups a) as H;
      destruct (fold_left f groups a) as [[c l] w]
  end.
  exact H.
Qed.

Lemma processFile_consistent groups st e :
  consistent (groupCounters st) (calls st) ->
  consistent (groupCounters (processFile regexReplace groups st e))
    (calls (processFile regexReplace groups st e)).
Proof.
  intros Hc. unfold processFile.
  match goal with
  | |- context [fold_left (groupStep _ _ _ ?n ?o) groups ?a] =>
      pose proof (groupLoop_consistent false true n o groups a Hc) as H;
      destruct (fold_left (groupStep regexReplace false true n o) groups a)
        as [[c l] w]
  end.
  exact H.
Qed.

Lemma processFile_calls groups st e :
  List.map callKey (calls (processFile regexReplace groups st e))
  = List.map callKey (calls st)
    ++ fileMatches (folderRenameMap st) groups e.
Proof.
  unfold processFile, fileMatches.
  match goal with
  | |- context [fold_left (groupStep _ _ _ ?n ?o) groups ?a] =>
      pose proof (groupLoop_calls false true n o groups a) as H;
      destruct (fold_left (groupStep regexReplace false true n o) groups a)
        as [[c l] w]
  end.
  exact H.
Qed.

Lemma processFile_map groups st e :
  folderRenameMap (processFile regexReplace groups st e) = folderRenameMap st.
Proof.
  unfold processFile.
  by destruct (fold_left _ groups _) as [[c l] w].
Qed.

Lemma directories_consistent groups es st :
  consistent (groupCounters st) (calls st) ->
  consistent
    (groupCounters (fold_left (processDirectory regexReplace groups) es st))
    (calls (fold_left (processDirectory regexReplace groups) es st)).
Proof.
  revert st. induction es as [|e es IH]; intros st Hc; simpl; [done|].
  by apply IH, processDirectory_consistent.
Qed.

Lemma directories_calls groups es st :
  List.map callKey
    (calls (fold_left (processDirectory regexReplace groups) es st))
  = List.map callKey (calls st) ++ flat_map (directoryMatches groups) es.
Proof.
  revert st. induction es as [|e es IH]; intros st; simpl.
  - by rewrite List.app_nil_r.
  - by rewrite IH, processDirectory_calls, <- List.app_assoc.
Qed.

Lemma files_consistent groups es st :
  consistent (groupCounters st) (calls st) ->
  consistent
    (groupCounters (fold_left (processFile regexReplace groups) es st))
    (calls (fold_left (processFile regexReplace groups) es st)).
Proof.
  revert st. induction es as [|e es IH]; intros st Hc; simpl; [done|].
  by apply IH, processFile_consistent.
Qed.

Lemma files_calls groups es st :
  List.map callKey (calls (fold_left (processFile regexReplace groups) es st))
  = List.map callKey (calls st)
    ++ flat_map (fileMatches (folderRenameMap st) groups) es.
Proof.
  revert st. induction es as [|e es IH]; intros st; simpl.
  - by rewrite List.app_nil_r.
  - by rewrite IH, processFile_calls, processFile_map, <- List.app_assoc.
Qed.

Lemma groupStep_name isDir reparse n o acc g :
  (groupStep regexReplace isDir reparse n o acc g).2
  = if active isDir n g
    then
      let renamedName :=
        applyRenamingRules regexReplace acc.2 (counterIndex acc.1.1 (id g))
          (rules g) in
      if reparse
      then Path.name (Path.parse renamedName)
           +:+ Path.ext (Path.parse renamedName)
      else renamedName
    else acc.2.
Proof.
  destruct acc as [[c log] w]. unfold groupStep, active.
  destruct (rules g); [done|]. by destruct (matchScope _ _ _ _ _).
Qed.

Lemma groupLoop_byCalls isDir reparse n o groups acc :
  exists done_,
    (fold_left (groupStep regexReplace isDir reparse n o) groups acc).1.2
    = acc.1.2 ++ done_
    /\ forall rest,
         renameByCalls regexReplace isDir reparse n groups (done_ ++ rest) acc.2
         = ((fold_left (groupStep regexReplace isDir reparse n o) groups acc).2,
            rest).
Proof.
  revert acc. induction groups as [|g groups IH]; intros acc.
  - exists []. split; [by rewrite List.app_nil_r|done].
  - cbn [fold_left renameByCalls].
    destruct (IH (groupStep regexReplace isDir reparse n o acc g))
      as (d & Hlog & Hname).
    rewrite groupStep_calls in Hlog. rewrite groupStep_name in Hname.
    destruct (active isDir n g).
    + eexists (_ :: d). split.
      * rewrite Hlog, <- List.app_assoc. reflexivity.
      * intros rest. cbn [List.app appliedIndex]. apply Hname.
    + exists d. split; [by rewrite Hlog, List.app_nil_r|exact Hname].
Qed.

Lemma processDirectory_byCalls groups st e :
  exists done_ p,
    calls (processDirectory regexReplace groups st e) = calls st ++ done_
    /\ List.map finalPath (newZip (processDirectory regexReplace groups st e))
       = List.map finalPath (newZip st) ++ [p]
    /\ forall es rest,
         directoryPathsByCalls regexReplace groups (e :: es) (done_ ++ rest)
         = (p :: (directoryPathsByCalls regexReplace groups es rest).1,
            (directoryPathsByCalls regexReplace groups es rest).2).
Proof.
  unfold processDirectory. cbn [directoryPathsByCalls].
  unfold topLevel, parentPathOf, folderNameOf, dirPathOf.
  destruct (JS.lastIndexOf "/" _) as [lastSlash|].
  - match goal with
    | |- context [fold_left ?f groups ?a] =>
        destruct (groupLoop_byCalls true false
                    (JS.normalizeSlashes (entryName e)) (entryName e) groups a)
          as (d & Hlog & Hname);
        destruct (fold_left f groups a) as [[c l] w]
    end.
    cbn [fst snd] in Hlog, Hname.
    exists d, (JS.take (S lastSlash)
                 (if JS.endsWith (JS.normalizeSlashes (entryName e)) "/"
                  then JS.dropEnd 1 (JS.normalizeSlashes (entryName e))
                  else JS.normalizeSlashes (entryName e))
               +:+ w +:+ "/").
    cbn [calls newZip]. split; [done|]. split.
    + by rewrite List.map_app.
    + intros es rest. rewrite Hname.
      by destruct (directoryPathsByCalls regexReplace groups es rest).
  - eexists [], _. cbn [calls newZip]. split; [by rewrite List.app_nil_r|].
    split.
    + rewrite List.map_app. reflexivity.
    + intros es rest. cbn [List.app finalPath List.map].
      by destruct (directoryPathsByCalls regexReplace groups es rest).
Qed.

Lemma directories_byCalls groups es st :
  exists done_ paths,
    calls (fold_left (processDirectory regexReplace groups) es st)
    = calls st ++ done_
    /\ List.map finalPath
         (newZip (fold_left (processDirectory regexReplace groups) es st))
       = List.map finalPath (newZip st) ++ paths
    /\ forall rest,
         directoryPathsByCalls regexReplace groups es (done_ ++ rest)
         = (paths, rest).
Proof.
  revert st. induction es as [|e es IH]; intros st.
  - exists [], []. by rewrite !List.app_nil_r.
  - cbn [fold_left].
    destruct (processDirectory_byCalls groups st e)
      as (d1 & p & Hc1 & Hz1 & Hp1).
    destruct (IH (processDirectory regexReplace groups st e))
      as (d2 & ps & Hc2 & Hz2 & Hp2).
    exists (d1 ++ d2), (p :: ps). split; [|split].
    + by rewrite Hc2, Hc1, List.app_assoc.
    + by rewrite Hz2, Hz1, <- List.app_assoc.
    + intros rest. by rewrite <- List.app_assoc, Hp1, Hp2.
Qed.

Lemma processFile_byCalls groups st e :
  exists done_ p,
    calls (processFile regexReplace groups st e) = calls st ++ done_
    /\ List.map finalPath (newZip (processFile regexReplace groups st e))
       = List.map finalPath (newZip st) ++ [p]
    /\ forall es rest,
         filePathsByCalls regexReplace (folderRenameMap st) groups (e :: es)
           (done_ ++ rest)
         = p :: filePathsByCalls regexReplace (folderRenameMap st) groups es
                  rest.
Proof.
  unfold processFile. cbn [filePathsByCalls].
  match goal with
  | |- context [fold_left (groupStep _ _ _ ?n ?o) groups ?a] =>
      destruct (groupLoop_byCalls false true n o groups a)
        as (d & Hlog & Hname);
      destruct (fold_left (groupStep regexReplace false true n o) groups a)
        as [[c l] w]
  end.
  cbn [fst snd] in Hlog, Hname.
  eexists d, _. cbn [calls newZip]. split; [done|]. split.
  - rewrite List.map_app. reflexivity.
  - intros es rest. by rewrite Hname.
Qed.

Lemma files_byCalls groups es st :
  exists done_ paths,
    calls (fold_left (processFile regexReplace groups) es st)
    = calls st ++ done_
    /\ List.map finalPath
         (newZip (fold_left (processFile regexReplace groups) es st))
       = List.map finalPath (newZip st) ++ paths
    /\ forall rest,
         filePathsByCalls regexReplace (folderRenameMap st) groups es
           (done_ ++ rest)
         = paths.
Proof.
  revert st. induction es as [|e es IH]; intros st.
  - exists [], []. by rewrite !List.app_nil_r.
  - cbn [fold_left].
    destruct (processFile_byCalls groups st e) as (d1 & p & Hc1 & Hz1 & Hp1).
    destruct (IH (processFile regexReplace groups st e))
      as (d2 & ps & Hc2 & Hz2 & Hp2).
    rewrite processFile_map in Hp2.
    exists (d1 ++ d2), (p :: ps). split; [|split].
    + by rewrite Hc2, Hc1, List.app_assoc.
    + by rewrite Hz2, Hz1, <- List.app_assoc.
    + intros rest. by rewrite <- List.app_assoc, Hp1, Hp2.
Qed.

Lemma initCounters_from groups (m : gmap string nat) i :
  fold_left (fun m g => counterReset m (id g)) groups m !! i
  = if existsb (fun g => String.eqb (id g) i) groups
       && negb (String.eqb i "__proto__")
    then Some 0%nat else m !! i.
Proof.
  revert m. induction groups as [|g groups IH]; intros m; simpl; [done|].
  rewrite IH. unfold counterReset.
  destruct (String.eqb i "__proto__") eqn:Hi; cbn [negb].
  - rewrite !andb_false_r. apply String.eqb_eq in Hi.
    destruct (String.eqb_spec (id g) "__proto__") as [|Hg]; [done|].
    rewrite lookup_insert_ne; [done|]. by rewrite Hi.
  - rewrite !andb_true_r. destruct (existsb _ groups) eqn:Hex.
    + by rewrite orb_true_r.
    + rewrite orb_false_r. destruct (String.eqb_spec (id g) i) as [Hg|Hne].
      * rewrite Hg, Hi. by rewrite lookup_insert_eq.
      * destruct (String.eqb (id g) "__proto__"); [done|].
        by rewrite lookup_insert_ne.
Qed.

Lemma initCounters_zero groups i : counterOf (initCounters groups) i = 0%nat.
Proof.
  unfold counterOf, initCounters. rewrite initCounters_from.
  by destruct (_ && _).
Qed.

Lemma initCounters_consistent groups : consistent (initCounters groups) [].
Proof.
  split; [|split].
  - unfold initCounters. rewrite initCounters_from.
    by rewrite String.eqb_refl, andb_false_r.
  - intros i _. simpl. by rewrite initCounters_zero.
  - constructor.
Qed.

(** C6. One rename run keeps one counter per group id, except under the
    id [__proto__].  Every other id of the request starts at zero; the
    calls of [applyRenamingRules] are, in order, one for every directory
    and active group of the directory phase followed by one for every file
    and active group of the file phase; the paths written are those that
    the rules give under the indices of these calls; and under each id
    other than [__proto__] the indices handed out are 0, 1, 2, ... up to
    the final value of the counter, so directories and files are numbered
    in one unbroken rising sequence.  Under the id [__proto__] there is no
    counter, neither at the start nor at the end, and every index handed
    out is [NaN]: two files numbered by such a group are both given the
    number [NaN]. *)
Theorem counters_shared_and_continuous allEntries groups :
  let st := processArchive regexReplace allEntries groups in
  let m := folderRenameMap (phase1 regexReplace allEntries groups) in
  Forall
    (fun g => id g <> "__proto__"%string ->
              initCounters groups !! id g = Some 0%nat)
    groups
  /\ List.map callKey (calls st)
     = flat_map (directoryMatches groups) (directories allEntries)
       ++ flat_map (fileMatches m groups) (files allEntries)
  /\ List.map finalPath (newZip st)
     = pathsByCalls regexReplace m groups allEntries (calls st)
  /\ (forall i,
        i <> "__proto__"%string ->
        List.map appliedIndex (callsOf i (calls st))
        = List.map indexNumber (seq 0 (counterOf (groupCounters st) i)))
  /\ (forall i,
        i <> "__proto__"%string ->
        counterOf (groupCounters st) i = List.length (callsOf i (calls st)))
  /\ initCounters groups !! "__proto__" = None
  /\ groupCounters st !! "__proto__" = None
  /\ Forall (fun c => appliedIndex c = Number.NaN)
       (callsOf "__proto__" (calls st))
  /\ List.map finalPath
       (newZip
          (processArchive regexReplace [fileEntry "a.jpg"; fileEntry "b.jpg"]
             protoGroups))
     = ["a-NaN.jpg"; "b-NaN.jpg"].
Proof.
  intros st m.
  assert (consistent (groupCounters st) (calls st)) as (Hproto & Hseq & Hnan).
  { apply files_consistent, directories_consistent, initCounters_consistent. }
  repeat match goal with |- _ /\ _ => split end.
  - apply List.Forall_forall. intros g Hg Hid. unfold initCounters.
    rewrite initCounters_from.
    assert (existsb (fun g' => String.eqb (id g') (id g)) groups = true) as ->.
    { apply List.existsb_exists. exists g.
      split; [done|apply String.eqb_refl]. }
    by destruct (String.eqb_spec (id g) "__proto__").
  - unfold st, processArchive. rewrite files_calls. fold m.
    unfold phase1. by rewrite directories_calls.
  - unfold st, processArchive, pathsByCalls.
    destruct (directories_byCalls groups (directories allEntries)
                (initialState groups)) as (d1 & ps1 & Hc1 & Hz1 & Hp1).
    fold (phase1 regexReplace allEntries groups) in Hc1, Hz1.
    destruct (files_byCalls groups (files allEntries)
                (phase1 regexReplace allEntries groups))
      as (d2 & ps2 & Hc2 & Hz2 & Hp2).
    fold m in Hp2. rewrite Hz2, Hz1, Hc2, Hc1. cbn [initialState calls newZip
      List.map List.app].
    rewrite Hp1. specialize (Hp2 []). rewrite List.app_nil_r in Hp2.
    by rewrite Hp2.
  - exact Hseq.
  - intros i Hi. specialize (Hseq i Hi).
    apply (f_equal (@List.length Number.number)) in Hseq.
    by rewrite !List.length_map, List.length_seq in Hseq.
  - apply initCounters_consistent.
  - exact Hproto.
  - exact Hnan.
  - reflexivity.
Qed.


(** ** The rename engine: paths *)

Lemma dropEnd_slash n :
  JS.endsWith n "/" = true -> JS.dropEnd 1 n +:+ "/" = n.
Proof.
  unfold JS.endsWith, JS.dropEnd. intros [_ Heq]%andb_prop.
  apply String.eqb_eq in Heq. simpl in Heq. rewrite <- Heq at 1.
  apply str_take_drop.
Qed.

Lemma dirPathOf_plain p :
  plainDirectoryPath p = true -> dirPathOf p +:+ "/" = p.
Proof.
  unfold plainDirectoryPath, dirPathOf. intros [Hbs Hend]%andb_prop.
  unfold JS.normalizeSlashes. rewrite replaceChar_noChar by done.
  rewrite Hend. by apply dropEnd_slash.
Qed.

Lemma getSubstitution_plain matched before after tmpl :
  noChar "$" tmpl = true ->
  JS.getSubstitution matched before after tmpl = tmpl.
Proof.
  induction tmpl as [|c tmpl IH]; [done|].
  intros [Hc Ht]%noChar_cons. simpl.
  apply Ascii.eqb_neq in Hc as ->. by rewrite IH.
Qed.

Lemma replaceFirst_prefix s pat tmpl :
  JS.startsWith s pat = true ->
  JS.replaceFirst s pat tmpl
  = JS.getSubstitution pat EmptyString (JS.drop (String.length pat) s) tmpl
    +:+ JS.drop (String.length pat) s.
Proof.
  intros H. unfold JS.replaceFirst.
  replace (JS.replaceFirstFrom EmptyString pat tmpl s)
    with (if JS.startsWith s pat
          then EmptyString
               +:+ JS.getSubstitution pat EmptyString
                     (JS.drop (String.length pat) s) tmpl
               +:+ JS.drop (String.length pat) s
          else match s with
               | EmptyString => EmptyString
               | String c s' =>
                   JS.replaceFirstFrom (EmptyString +:+ String c EmptyString)
                     pat tmpl s'
               end)
    by (by destruct s).
  by rewrite H.
Qed.


Lemma rewriteFolder_identity m name :
  Forall (fun kv => kv.1 = kv.2) m -> noChar "$" name = true ->
  rewriteFolder m name = name.
Proof.
  intros Hm Hname. induction Hm as [|[k v] m Hkv _ IH]; simpl; [done|].
  simpl in Hkv. subst v.
  destruct (JS.startsWith name k) eqn:Hk; [|done].
  rewrite replaceFirst_prefix by done.
  pose proof (startsWith_inv _ _ Hk) as Heq.
  rewrite getSubstitution_plain; [by rewrite <- Heq|].
  rewrite Heq in Hname. by apply noChar_app in Hname as [? _].
Qed.

Lemma mapSet_Forall (P : string * string -> Prop) k v m :
  Forall P m -> P (k, v) -> Forall P (mapSet k v m).
Proof.
  intros Hm Hkv. induction Hm as [|[k' v'] m Hk' Hm IH]; simpl.
  - by constructor.
  - destruct (String.eqb k' k); by constructor.
Qed.

Lemma filter_Forall {A} (f : A -> bool) l :
  Forall (fun x => f x = true) (List.filter f l).
Proof.
  apply List.Forall_forall. intros x Hx. by apply List.filter_In in Hx as [_ ?].
Qed.

Lemma Forall2_In_l {A B} (Q : A -> B -> Prop) l k x :
  Forall2 Q l k -> In x l -> exists y, In y k /\ Q x y.
Proof.
  induction 1 as [|a b l k Hab _ IH]; simpl; [done|].
  intros [<-|Hx]; [by eauto|]. destruct (IH Hx) as (y & ? & ?). eauto.
Qed.

(** The outputs of a phase line up with its entries. *)
Lemma outputs_aligned (step : state -> entry -> state) (Inv : state -> Prop)
    (R : entry -> Prop) (Q : entry -> renamed -> Prop) es st :
  (forall st e, R e -> Inv st ->
     Inv (step st e) /\ exists r, newZip (step st e) = newZip st ++ [r] /\ Q e r) ->
  Forall R es -> Inv st ->
  exists rs,
    newZip (fold_left step es st) = newZip st ++ rs
    /\ Forall2 Q es rs /\ Inv (fold_left step es st).
Proof.
  intros Hstep Hes. revert st.
  induction Hes as [|e es He _ IH]; intros st Hst; simpl.
  - exists []. by rewrite List.app_nil_r.
  - destruct (Hstep st e He Hst) as (Hst' & r & Hr & Hq).
    destruct (IH _ Hst') as (rs & Hrs & HQ & Hinv).
    exists (r :: rs). rewrite Hrs, Hr, <- List.app_assoc. by repeat split; [constructor|].
Qed.

Lemma processDirectory_topLevel groups st e :
  topLevel (entryName e) = true ->
  processDirectory regexReplace groups st e
  = {| groupCounters := groupCounters st;
       folderRenameMap := folderRenameMap st;
       newZip := newZip st ++
         [{| originalPath := entryName e;
             finalPath := dirPathOf (entryName e) +:+ "/" |}];
       calls := calls st |}.
Proof.
  unfold topLevel, dirPathOf, processDirectory.
  by destruct (JS.lastIndexOf "/" _).
Qed.

Lemma processDirectory_output groups st e :
  exists f,
    newZip (processDirectory regexReplace groups st e)
    = newZip st ++ [{| originalPath := entryName e; finalPath := f |}]
    /\ (topLevel (entryName e) = true -> f = dirPathOf (entryName e) +:+ "/").
Proof.
  destruct (topLevel (entryName e)) eqn:Htop.
  - rewrite processDirectory_topLevel by done. by eexists.
  - unfold processDirectory.
    destruct (JS.lastIndexOf "/" _) as [lastSlash|];
      [|by eexists].
    destruct (fold_left _ groups _) as [[c l] w]. by eexists.
Qed.

Lemma processDirectory_noGroups st e :
  processDirectory regexReplace [] st e
  = {| groupCounters := groupCounters st;
       folderRenameMap :=
         if topLevel (entryName e) then folderRenameMap st
         else mapSet (dirPathOf (entryName e) +:+ "/")
                (dirPathOf (entryName e) +:+ "/") (folderRenameMap st);
       newZip := newZip st ++
         [{| originalPath := entryName e;
             finalPath := dirPathOf (entryName e) +:+ "/" |}];
       calls := calls st |}.
Proof.
  unfold topLevel, dirPathOf, processDirectory.
  destruct (JS.lastIndexOf "/" _) as [lastSlash|]; [|done].
  cbn [fold_left]. by rewrite <- str_app_assoc, str_take_drop.
Qed.

Lemma processFile_output groups st e :
  let n := rewriteFolder (folderRenameMap st)
             (JS.normalizeSlashes (entryName e)) in
  newZip (processFile regexReplace groups st e)
  = newZip st ++
    [{| originalPath := entryName e;
        finalPath :=
          rebuildPath (Path.dirname n)
            (fold_left (groupStep regexReplace false true n (entryName e))
               groups (groupCounters st, calls st, Path.basename n)).2 |}].
Proof.
  intros n. unfold processFile. fold n.
  by destruct (fold_left _ groups _) as [[c l] w].
Qed.

Lemma directories_outputs groups (Q : entry -> renamed -> Prop) es st :
  (forall st e, isDirectory e = true ->
     exists r, newZip (processDirectory regexReplace groups st e)
               = newZip st ++ [r] /\ Q e r) ->
  Forall (fun e => isDirectory e = true) es ->
  exists rs,
    newZip (fold_left (processDirectory regexReplace groups) es st)
    = newZip st ++ rs /\ Forall2 Q es rs.
Proof.
  intros Hstep Hes.
  destruct (outputs_aligned (processDirectory regexReplace groups)
              (fun _ => True) (fun e => isDirectory e = true) Q es st)
    as (rs & ? & ? & _); eauto.
Qed.

Lemma files_outputs groups (Inv : state -> Prop)
    (Q : entry -> renamed -> Prop) es st :
  (forall st e, isDirectory e = false -> Inv st ->
     exists r, newZip (processFile regexReplace groups st e)
               = newZip st ++ [r] /\ Q e r) ->
  (forall st e, Inv st -> Inv (processFile regexReplace groups st e)) ->
  Forall (fun e => isDirectory e = false) es -> Inv st ->
  exists rs,
    newZip (fold_left (processFile regexReplace groups) es st)
    = newZip st ++ rs /\ Forall2 Q es rs.
Proof.
  intros Hstep Hinv Hes Hst.
  destruct (outputs_aligned (processFile regexReplace groups) Inv
              (fun e => isDirectory e = false) Q es st)
    as (rs & ? & ? & _); eauto.
Qed.

Lemma directories_are_directories allEntries :
  Forall (fun e => isDirectory e = true) (directories allEntries).
Proof. apply filter_Forall. Qed.

Lemma files_are_files allEntries :
  Forall (fun e => isDirectory e = false) (files allEntries).
Proof.
  eapply Forall_impl; [apply filter_Forall|].
  simpl. intros e He. by apply negb_true_iff.
Qed.

Lemma groupLoop_inactive isDir reparse n o groups acc :
  Forall (fun g => active isDir n g = false) groups ->
  fold_left (groupStep regexReplace isDir reparse n o) groups acc = acc.
Proof.
  intros Hg. revert acc.
  induction Hg as [|g groups Hact _ IH]; intros acc; simpl; [done|].
  rewrite <- (IH acc) at 2. f_equal.
  destruct acc as [[c l] w]. unfold groupStep, active in *.
  destruct (rules g); [done|]. by rewrite Hact.
Qed.

(** C1, as amended.  A directory entry without a parent segment is
    never offered to a rule group: processing it leaves the counters, the
    calls and the rename map as they were and writes the directory under
    its path with forward slashes and one trailing slash, which is its
    original path whenever that has this form.  (A file without a parent
    segment is matched and renamed like any other file.) *)
Theorem top_level_directory_passes_through allEntries groups e :
  In e allEntries -> isDirectory e = true -> topLevel (entryName e) = true ->
  (forall st,
     processDirectory regexReplace groups st e
     = {| groupCounters := groupCounters st;
          folderRenameMap := folderRenameMap st;
          newZip := newZip st ++
            [{| originalPath := entryName e;
                finalPath := dirPathOf (entryName e) +:+ "/" |}];
          calls := calls st |})
  /\ In {| originalPath := entryName e;
           finalPath := dirPathOf (entryName e) +:+ "/" |}
        (newZip (processArchive regexReplace allEntries groups))
  /\ (plainDirectoryPath (entryName e) = true ->
      dirPathOf (entryName e) +:+ "/" = entryName e).
Proof.
  intros Hin Hdir Htop. split; [|split].
  - intros st. by apply processDirectory_topLevel.
  - destruct (directories_outputs groups
                (fun e r =>
                   originalPath r = entryName e
                   /\ (topLevel (entryName e) = true ->
                       finalPath r = dirPathOf (entryName e) +:+ "/"))
                (directories allEntries) (initialState groups))
      as (rs1 & Hrs1 & HQ1).
    { intros st e' _.
      destruct (processDirectory_output groups st e') as (f & Hf & Hf').
      eexists. split; [exact Hf|]. by split. }
    { apply directories_are_directories. }
    destruct (files_outputs groups (fun _ => True) (fun _ _ => True)
                (files allEntries) (phase1 regexReplace allEntries groups))
      as (rs2 & Hrs2 & _).
    { intros st e' _ _. rewrite processFile_output. by eexists. }
    { done. }
    { apply files_are_files. }
    { done. }
    unfold processArchive. rewrite Hrs2. unfold phase1. rewrite Hrs1. simpl.
    apply List.in_or_app. left.
    assert (In e (directories allEntries)) as Hin'
      by (apply List.filter_In; by split).
    destruct (Forall2_In_l _ _ _ _ HQ1 Hin') as ([o f] & Hr & Ho & Hf).
    simpl in Ho, Hf. by rewrite <- (Hf Htop), <- Ho.
  - apply dirPathOf_plain.
Qed.





(** C3, as amended.  A run without rule groups writes one output per
    entry, directories first, each under its original path; it reproduces
    the path of every directory written with forward slashes and a
    trailing slash, and of every file whose path has forward slashes
    only, no dollar sign, no empty segment and no parent segment [.] or
    [..]. *)
Theorem rename_without_groups allEntries :
  Forall2
    (fun e r =>
       originalPath r = entryName e
       /\ (passesUnchanged e = true -> finalPath r = entryName e))
    (directories allEntries ++ files allEntries)
    (newZip (processArchive regexReplace allEntries [])).
Proof.
  set (Q := fun e r =>
              originalPath r = entryName e
              /\ (passesUnchanged e = true -> finalPath r = entryName e)).
  set (Inv := fun st : state => Forall (fun kv => kv.1 = kv.2) (folderRenameMap st)).
  destruct (outputs_aligned (processDirectory regexReplace []) Inv
              (fun e => isDirectory e = true) Q
              (directories allEntries) (initialState []))
    as (rs1 & Hrs1 & HQ1 & Hinv1).
  { intros st e He Hst. rewrite processDirectory_noGroups. split.
    - unfold Inv. simpl. destruct (topLevel (entryName e)); [done|].
      by apply mapSet_Forall.
    - eexists. split; [reflexivity|]. split; [done|].
      unfold passesUnchanged. rewrite He. simpl. apply dirPathOf_plain. }
  { apply directories_are_directories. }
  { by constructor. }
  destruct (files_outputs [] Inv Q (files allEntries)
              (phase1 regexReplace allEntries []))
    as (rs2 & Hrs2 & HQ2).
  { intros st e He Hst. rewrite processFile_output. eexists.
    split; [reflexivity|]. split; [done|].
    unfold passesUnchanged, plainFilePath. rewrite He. simpl.
    intros [[[Hbs Hdollar]%andb_prop Hinit]%andb_prop Hlast]%andb_prop.
    unfold JS.normalizeSlashes. rewrite replaceChar_noChar by done.
    rewrite rewriteFolder_identity by done.
    apply rebuildPath_plain; [done..|].
    by apply negb_true_iff, String.eqb_neq in Hlast. }
  { intros st e Hst. unfold Inv. by rewrite processFile_map. }
  { apply files_are_files. }
  { exact Hinv1. }
  unfold processArchive. rewrite Hrs2. unfold phase1. rewrite Hrs1. simpl.
  by apply Forall2_app.
Qed.

(** C4, as amended.  For the one entry [a.TXT] and one group of scope
    [extension] with value [.txt] and the rule [lowercase], the scope
    matches without regard to case, the group is applied once, and the
    output path is [a.TXT]: the rule lower-cases the stem and leaves the
    extension as it is (so [A.TXT] becomes [a.TXT]). *)
Theorem extension_scope_lowercases_stem_only :
  let g := {| id := "g"; groupScope := Extension; scopeValue := ".txt";
              exclude := false; rules := [Lowercase] |} in
  let st :=
    processArchive regexReplace
      [{| entryName := "a.TXT"; isDirectory := false |}] [g] in
  matchScope "a.TXT" Extension ".txt" false false = true
  /\ List.map callKey (calls st) = [("g", "a.TXT")]
  /\ newZip st = [{| originalPath := "a.TXT"; finalPath := "a.TXT" |}]
  /\ applyRenamingRules regexReplace "A.TXT" (Number.ofZ 0) [Lowercase]
     = "a.TXT".
Proof. repeat split. Qed.

End EngineFacts.

(** A group of scope [folder] numbers a directory in phase 1 and a file
    in phase 2 from the same counter. *)
Example counter_shared_across_phases :
  let groups :=
    [{| id := "n"; groupScope := Folder; scopeValue := "x/"; exclude := false;
        rules := [Numbering Number.Undefined Number.Undefined None None] |}] in
  let st :=
    processArchive noRegex
      [fileEntry "x/y/f.txt"; directoryEntry "x/"; directoryEntry "x/y/"]
      groups in
  List.map finalPath (newZip st) = ["x/"; "x/y-1/"; "x/y-1/f-2.txt"]
  /\ calls st
     = [{| appliedGroup := "n"; appliedIndex := indexNumber 0;
           appliedEntry := "x/y/" |};
        {| appliedGroup := "n"; appliedIndex := indexNumber 1;
           appliedEntry := "x/y/f.txt" |}]
  /\ groupCounters st !! "n" = Some 2%nat.
Proof. repeat split. Qed.

(** C1, as stated, fails: a file without a parent segment is matched by
    a group of global scope and renamed. *)
Lemma top_level_file_is_renamed :
  ~ (forall regexReplace allEntries groups e,
       In e allEntries -> topLevel (entryName e) = true ->
       In {| originalPath := entryName e; finalPath := entryName e |}
          (newZip (processArchive regexReplace allEntries groups))).
Proof.
  intros H.
  specialize (H noRegex [fileEntry "A.txt"]
                [{| id := "g"; groupScope := Global; scopeValue := "";
                    exclude := false; rules := [Lowercase] |}]
                (fileEntry "A.txt") (or_introl eq_refl) eq_refl).
  vm_compute in H. destruct H as [H|[]]. discriminate H.
Qed.

(** The theorem at the archive [Photos/], [Photos/img.jpg] with a group
    that prefixes folders. *)
Lemma top_level_directory_example :
  let e := directoryEntry "Photos/" in
  let allEntries := [e; fileEntry "Photos/img.jpg"] in
  let groups := [{| id := "g"; groupScope := Folders; scopeValue := "";
                    exclude := false; rules := [Prefix (Some "new_")] |}] in
  (forall st,
     processDirectory noRegex groups st e
     = {| groupCounters := groupCounters st;
          folderRenameMap := folderRenameMap st;
          newZip := newZip st ++
            [{| originalPath := entryName e;
                finalPath := dirPathOf (entryName e) +:+ "/" |}];
          calls := calls st |})
  /\ In {| originalPath := entryName e;
           finalPath := dirPathOf (entryName e) +:+ "/" |}
        (newZip (processArchive noRegex allEntries groups))
  /\ (plainDirectoryPath (entryName e) = true ->
      dirPathOf (entryName e) +:+ "/" = entryName e).
Proof.
  intros e allEntries groups.
  apply (top_level_directory_passes_through noRegex allEntries groups e).
  - left. reflexivity.
  - reflexivity.
  - reflexivity.
Defined.



(** Why the file paths of C3 are taken without dollar signs: the folder
    [a/$&/] is recorded under itself, and [String.prototype.replace]
    reads [$&] in the new path as the matched text. *)
Example dollar_pattern_in_folder_name :
  List.map finalPath
    (newZip
       (processArchive noRegex
          [directoryEntry "a/$&/"; fileEntry "a/$&/f.txt"] []))
  = ["a/$&/"; "a/a/$&/f.txt"].
Proof. reflexivity. Qed.

(** C3, as stated, fails: an empty segment is dropped when the path is
    put together again. *)
Lemma empty_segment_is_dropped :
  ~ (forall regexReplace allEntries,
       Forall (fun r => finalPath r = originalPath r)
         (newZip (processArchive regexReplace allEntries []))).
Proof.
  intros H. specialize (H noRegex [fileEntry "docs//a.txt"]).
  vm_compute in H. inversion H as [|? ? Heq _]. discriminate Heq.
Qed.

(** The theorem at an archive all of whose entries are plain. *)
Lemma rename_without_groups_example :
  let allEntries :=
    [directoryEntry "Photos/"; fileEntry "Photos/2024/img.jpg";
     directoryEntry "Photos/2024/"; fileEntry "notes.txt"] in
  forallb passesUnchanged allEntries = true
  /\ Forall2
       (fun e r =>
          originalPath r = entryName e
          /\ (passesUnchanged e = true -> finalPath r = entryName e))
       (directories allEntries ++ files allEntries)
       (newZip (processArchive noRegex allEntries [])).
Proof.
  intros allEntries. split.
  - reflexivity.
  - apply (rename_without_groups noRegex allEntries).
Defined.

(** C4, as stated, fails: the output path is not [a.txt]. *)
Lemma extension_is_not_lowercased :
  ~ (forall regexReplace,
       List.map finalPath
         (newZip
            (processArchive regexReplace [fileEntry "a.TXT"]
               [{| id := "g"; groupScope := Extension; scopeValue := ".txt";
                   exclude := false; rules := [Lowercase] |}]))
       = ["a.txt"]).
Proof. intros H. specialize (H noRegex). vm_compute in H. discriminate H. Qed.

(** ** The archive analyzer *)

Lemma mapGet_mapUpdate {V} k k' (f : option V -> V) m :
  Analyzer.mapGet k (Analyzer.mapUpdate k' f m)
  = if String.eqb k' k then Some (f (Analyzer.mapGet k' m))
    else Analyzer.mapGet k m.
Proof.
  induction m as [|[k0 v] m IH]; simpl.
  - by destruct (String.eqb k' k).
  - destruct (String.eqb_spec k0 k') as [->|Hne]; simpl.
    + by destruct (String.eqb k' k).
    + rewrite IH. destruct (String.eqb_spec k0 k) as [->|]; [|done].
      apply String.eqb_neq in Hne. rewrite String.eqb_sym in Hne.
      by rewrite Hne.
Qed.

Lemma mapUpdate_keys {V} k (f : option V -> V) m :
  List.map fst (Analyzer.mapUpdate k f m)
  = if existsb (String.eqb k) (List.map fst m) then List.map fst m
    else List.map fst m ++ [k].
Proof.
  induction m as [|[k0 v] m IH]; simpl; [done|].
  rewrite (String.eqb_sym k k0).
  destruct (String.eqb k0 k); simpl; [done|].
  rewrite IH. by destruct (existsb _ _).
Qed.

Lemma mapUpdate_NoDup {V} k (f : option V -> V) m :
  List.NoDup (List.map fst m) ->
  List.NoDup (List.map fst (Analyzer.mapUpdate k f m)).
Proof.
  intros Hm. rewrite mapUpdate_keys.
  destruct (existsb _ _) eqn:Hex; [done|].
  apply List.NoDup_app;
    [done|apply List.NoDup_cons; [intros []|constructor]|].
  intros x Hx [<-|[]].
  assert (existsb (String.eqb k) (List.map fst m) = true) as Hex'; [|congruence].
  apply List.existsb_exists. exists k. split; [done|apply String.eqb_refl].
Qed.

Lemma mapGet_In {V} k (v : V) m :
  List.NoDup (List.map fst m) ->
  (In (k, v) m <-> Analyzer.mapGet k m = Some v).
Proof.
  induction m as [|[k0 v0] m IH]; simpl; [by intuition|].
  intros Hnd. apply List.NoDup_cons_iff in Hnd as [Hk0 Hnd].
  destruct (String.eqb_spec k0 k) as [->|Hne].
  - split.
    + intros [[= ->]|Hin]; [done|].
      destruct Hk0. apply List.in_map_iff. by exists (k, v).
    + intros [= ->]. by left.
  - rewrite <- (IH Hnd). split; [|by right].
    intros [[= ? ?]|?]; [done|done].
Qed.

Lemma duplicateGroups_NoDup fs m :
  List.NoDup (List.map fst m) ->
  List.NoDup (List.map fst (fold_left duplicateStep fs m)).
Proof.
  revert m. induction fs as [|f fs IH]; intros m Hm; simpl; [done|].
  apply IH. unfold duplicateStep. destruct (Analyzer.isDirectory f); [done|].
  by apply mapUpdate_NoDup.
Qed.

Lemma duplicateGroups_get fs m k :
  Analyzer.mapGet k (fold_left duplicateStep fs m)
  = match Analyzer.mapGet k m, filesWithKey k fs with
    | None, [] => None
    | o, paths => Some (default [] o ++ paths)
    end.
Proof.
  revert m. induction fs as [|f fs IH]; intros m; simpl.
  - destruct (Analyzer.mapGet k m); simpl; [by rewrite List.app_nil_r|done].
  - rewrite IH. unfold duplicateStep, filesWithKey. simpl.
    destruct (Analyzer.isDirectory f); simpl; [done|].
    unfold Analyzer.mapPush. rewrite mapGet_mapUpdate.
    destruct (String.eqb_spec
                (Analyzer.duplicateKey (Analyzer.originalName f)) k)
      as [->|Hne]; [|done].
    simpl. rewrite <- List.app_assoc. simpl.
    by destruct (Analyzer.mapGet k m).
Qed.

(** The groups of [detectDuplicates] are the non-empty classes of file
    entries with the same key. *)
Lemma duplicateGroups_spec fs k paths :
  In (k, paths) (Analyzer.duplicateGroups fs)
  <-> paths = filesWithKey k fs /\ paths <> [].
Proof.
  unfold Analyzer.duplicateGroups.
  change (fold_left _ fs []) with (fold_left duplicateStep fs []).
  rewrite mapGet_In by (apply duplicateGroups_NoDup; constructor).
  rewrite duplicateGroups_get. simpl.
  destruct (filesWithKey k fs) as [|p ps]; split.
  - done.
  - by intros [-> ?].
  - by intros [= <-].
  - by intros [-> _].
Qed.

(** C7, as amended.  The duplicate detector files every file entry under
    the key made of its parent directory, [::] and its lower-cased base
    name, and reports a group if and only if more than one entry was filed
    under its key, whether or not their spellings differ; the warning
    counts all of them and carries the first ten original paths at
    most. *)
Theorem detectDuplicates_reports_repeated_keys fs :
  (forall k paths,
     In (k, paths) (Analyzer.duplicateGroups fs)
     <-> paths = filesWithKey k fs /\ paths <> [])
  /\ (forall w,
        In w (Analyzer.detectDuplicates fs)
        <-> exists k,
              (1 < List.length (filesWithKey k fs))%nat
              /\ Analyzer.duplicateOf (k, filesWithKey k fs) = [w])
  /\ Forall
       (fun w =>
          (List.length (Analyzer.dwPaths w) <= 10)%nat
          /\ exists k,
               Analyzer.dwCount w = List.length (filesWithKey k fs)
               /\ Analyzer.dwPaths w = List.firstn 10 (filesWithKey k fs))
       (Analyzer.detectDuplicates fs).
Proof.
  assert (forall w,
            In w (Analyzer.detectDuplicates fs)
            <-> exists k,
                  (1 < List.length (filesWithKey k fs))%nat
                  /\ Analyzer.duplicateOf (k, filesWithKey k fs) = [w]) as Hw.
  { intros w. unfold Analyzer.detectDuplicates. rewrite List.in_flat_map. split.
    - intros ([k paths] & Hin & Hdup).
      apply duplicateGroups_spec in Hin as [-> _]. exists k.
      unfold Analyzer.duplicateOf in *.
      destruct (Nat.ltb_spec 1 (List.length (filesWithKey k fs)));
        [|done].
      split; [done|]. by destruct Hdup as [<-|[]].
    - intros (k & Hlen & Hdup). exists (k, filesWithKey k fs). split.
      + apply duplicateGroups_spec. split; [done|].
        intros Heq. rewrite Heq in Hlen. simpl in Hlen. lia.
      + rewrite Hdup. by left. }
  split; [apply duplicateGroups_spec|]. split; [exact Hw|].
  apply List.Forall_forall. intros w (k & Hlen & Hdup)%Hw.
  unfold Analyzer.duplicateOf in Hdup.
  destruct (1 <? List.length (filesWithKey k fs))%nat; [|done].
  injection Hdup as <-. simpl. split; [|by exists k].
  rewrite List.length_firstn. lia.
Qed.

(** C7, as stated, fails: two entries with the same spelling are
    reported, although the group has one spelling only. *)
Lemma same_spelling_twice_is_reported :
  Analyzer.duplicateGroups [archiveFile "a.txt"; archiveFile "a.txt"]
  = [(".::a.txt", ["a.txt"; "a.txt"])]
  /\ severalSpellings ["a.txt"; "a.txt"] = false
  /\ Analyzer.detectDuplicates [archiveFile "a.txt"; archiveFile "a.txt"]
     = [{| Analyzer.dwDirectory := "."; Analyzer.dwFilename := "a.txt";
           Analyzer.dwCount := 2; Analyzer.dwPaths := ["a.txt"; "a.txt"] |}].
Proof. repeat split. Qed.

(** C9. The severity is the first of these that applies: [critical] when
    there is a rename conflict; [high] when more than five path-length or
    more than five invalid-character warnings exist; [medium] when there
    is a duplicate or a unicode warning; [low] when there is a system
    file; [none] otherwise.  The two files [File.txt] and [file.txt] give
    one conflict, with these two names and the result name [file.txt],
    and the severity [critical]. *)
Theorem severity_priority :
  (forall w,
     Analyzer.calculateSeverity w = Analyzer.Critical
     <-> Analyzer.renameConflicts w <> [])
  /\ (forall w,
        Analyzer.calculateSeverity w = Analyzer.High
        <-> Analyzer.renameConflicts w = []
            /\ ((5 < List.length (Analyzer.pathTooLong w))%nat
                \/ (5 < List.length (Analyzer.invalidChars w))%nat))
  /\ (forall w,
        Analyzer.calculateSeverity w = Analyzer.Medium
        <-> Analyzer.renameConflicts w = []
            /\ (List.length (Analyzer.pathTooLong w) <= 5)%nat
            /\ (List.length (Analyzer.invalidChars w) <= 5)%nat
            /\ (Analyzer.duplicateNames w <> []
                \/ Analyzer.unicodeIssues w <> []))
  /\ (forall w,
        Analyzer.calculateSeverity w = Analyzer.Low
        <-> Analyzer.renameConflicts w = []
            /\ (List.length (Analyzer.pathTooLong w) <= 5)%nat
            /\ (List.length (Analyzer.invalidChars w) <= 5)%nat
            /\ Analyzer.duplicateNames w = []
            /\ Analyzer.unicodeIssues w = []
            /\ Analyzer.systemFiles w <> [])
  /\ (forall w,
        Analyzer.calculateSeverity w = Analyzer.None_
        <-> Analyzer.renameConflicts w = []
            /\ (List.length (Analyzer.pathTooLong w) <= 5)%nat
            /\ (List.length (Analyzer.invalidChars w) <= 5)%nat
            /\ Analyzer.duplicateNames w = []
            /\ Analyzer.unicodeIssues w = []
            /\ Analyzer.systemFiles w = [])
  /\ (forall normalizeNFC normalizeNFD,
        let r :=
          Analyzer.analyzeArchive normalizeNFC normalizeNFD
            [archiveFile "File.txt"; archiveFile "file.txt"] in
        Analyzer.renameConflicts (Analyzer.reportWarnings r)
        = [{| Analyzer.cwDirectory := ".";
              Analyzer.cwConflictingFiles := ["File.txt"; "file.txt"];
              Analyzer.cwResultName := "file.txt";
              Analyzer.cwCount := 2 |}]
        /\ Analyzer.reportSeverity r = Analyzer.Critical).
Proof.
  repeat match goal with |- _ /\ _ => split end;
    try (intros w; unfold Analyzer.calculateSeverity;
         destruct (Analyzer.renameConflicts w);
         destruct (Nat.ltb_spec 5 (List.length (Analyzer.pathTooLong w)));
         destruct (Nat.ltb_spec 5 (List.length (Analyzer.invalidChars w)));
         destruct (Analyzer.duplicateNames w);
         destruct (Analyzer.unicodeIssues w);
         destruct (Analyzer.systemFiles w);
         simpl; intuition (congruence || lia)).
  intros normalizeNFC normalizeNFD r. split; reflexivity.
Qed.


(** * Further properties *)

(** ** The rename engine: what every run writes *)

Lemma filter_partition_length {A} (f : A -> bool) l :
  (List.length (List.filter f l)
   + List.length (List.filter (fun x => negb (f x)) l))%nat
  = List.length l.
Proof.
  induction l as [|a l IH]; simpl; [done|].
  destruct (f a); simpl; lia.
Qed.

Lemma lastNonEmpty_Forall (P : string -> Prop) l :
  P EmptyString -> Forall P l -> P (Path.lastNonEmpty l).
Proof.
  intros H0. induction 1 as [|s l Hs _ IH]; simpl; [done|].
  by destruct (Path.lastNonEmpty l).
Qed.

Lemma basename_noSlash p : noChar "/" (Path.basename p) = true.
Proof.
  unfold Path.basename.
  apply (lastNonEmpty_Forall (fun s => noChar "/" s = true)); [done|].
  apply split_noSlash.
Qed.

Lemma str_take_all s : JS.take (String.length s) s = s.
Proof. induction s as [|c s IH]; simpl; [done|]. by rewrite IH. Qed.

(** [path.parse]: the name and the extension make up the base name. *)
Lemma parse_basename x :
  Path.name (Path.parse x) +:+ Path.ext (Path.parse x) = Path.basename x.
Proof.
  unfold Path.parse, Path.extname. cbn [Path.name Path.ext].
  set (c := Path.basename x).
  destruct (JS.lastIndexOf "." c) as [[|i]|] eqn:Hdot;
    try (unfold JS.dropEnd; cbn [String.length]; rewrite Nat.sub_0_r,
           str_take_all; apply str_app_nil_r).
  destruct (String.eqb c "..");
    [unfold JS.dropEnd; cbn [String.length]; rewrite Nat.sub_0_r,
       str_take_all; apply str_app_nil_r|].
  apply lastIndexOf_lt in Hdot. unfold JS.dropEnd.
  rewrite str_length_drop.
  replace (String.length c - (String.length c - S i))%nat with (S i) by lia.
  apply str_take_drop.
Qed.

Lemma join_kept_proper segs :
  segs <> [] -> Forall (fun s => keepSegment s = true) segs ->
  String.eqb (JS.join "/" segs) "." = false
  /\ String.eqb (JS.join "/" segs) EmptyString = false.
Proof.
  destruct segs as [|a t]; [done|]. intros _ Hk.
  inversion Hk as [|? ? Ha _]; subst. unfold keepSegment in Ha.
  apply andb_prop in Ha as [[Ha1 Ha2]%andb_prop Ha3].
  apply negb_true_iff, String.eqb_neq in Ha1, Ha3.
  destruct a as [|c a]; [done|].
  destruct t as [|b t]; cbn [JS.join].
  - split; by apply String.eqb_neq.
  - split; apply String.eqb_neq; intros Heq; simpl in Heq; [|done].
    injection Heq as _ Heq. by destruct a.
Qed.

(** The directory part of a rebuilt path is made of kept segments. *)
Lemma rebuildPath_safe dir w :
  rebuildPath dir w
  = JS.normalizeSlashes
      (JS.join "/" (List.filter keepSegment (JS.split "/" dir) ++ [w])).
Proof.
  unfold rebuildPath.
  pose proof (filter_Forall keepSegment (JS.split "/" dir)) as Hk.
  destruct (List.filter keepSegment (JS.split "/" dir)) as [|a t] eqn:Hsegs;
    [done|].
  destruct (join_kept_proper (a :: t)) as [-> ->]; [done|done|].
  by rewrite join_snoc.
Qed.

Section EngineOutputs.

Variable regexReplace : string -> string -> string -> string -> option string.

(** What holds of each step's output holds of the outputs of a run,
    entry by entry. *)
Lemma archive_outputs (Q : entry -> renamed -> Prop) allEntries groups :
  (forall st e, isDirectory e = true ->
     exists r, newZip (processDirectory regexReplace groups st e)
               = newZip st ++ [r] /\ Q e r) ->
  (forall st e, isDirectory e = false ->
     exists r, newZip (processFile regexReplace groups st e)
               = newZip st ++ [r] /\ Q e r) ->
  Forall2 Q (directories allEntries ++ files allEntries)
    (newZip (processArchive regexReplace allEntries groups)).
Proof.
  intros Hd Hf.
  destruct (directories_outputs regexReplace groups Q
              (directories allEntries) (initialState groups))
    as (rs1 & Hrs1 & HQ1); [done|apply directories_are_directories|].
  destruct (files_outputs regexReplace groups (fun _ => True) Q
              (files allEntries) (phase1 regexReplace allEntries groups))
    as (rs2 & Hrs2 & HQ2); [by intros; apply Hf|done|apply files_are_files|done|].
  unfold processArchive. rewrite Hrs2. unfold phase1. rewrite Hrs1. simpl.
  by apply Forall2_app.
Qed.

Lemma processDirectory_shape groups st e :
  exists w,
    newZip (processDirectory regexReplace groups st e)
    = newZip st ++
      [{| originalPath := entryName e;
          finalPath := parentPathOf (entryName e) +:+ w +:+ "/" |}]
    /\ (Forall
          (fun g =>
             active true (JS.normalizeSlashes (entryName e)) g = false)
          groups ->
        w = folderNameOf (entryName e)).
Proof.
  unfold processDirectory, parentPathOf, folderNameOf, dirPathOf.
  destruct (JS.lastIndexOf "/" _) as [lastSlash|]; [|by eexists].
  destruct (fold_left _ groups _) as [[c l] w] eqn:Hloop.
  exists w. split; [done|]. intros Hg.
  rewrite groupLoop_inactive in Hloop by done. by injection Hloop as _ _ <-.
Qed.

Lemma groupStep_file_noSlash isDir n o acc g :
  noChar "/" acc.2 = true ->
  noChar "/" (groupStep regexReplace isDir true n o acc g).2 = true.
Proof.
  destruct acc as [[c l] w]. unfold groupStep. intros Hw.
  destruct (rules g); [done|].
  destruct (matchScope _ _ _ _ _); [|done].
  cbn [snd]. rewrite parse_basename. apply basename_noSlash.
Qed.

Lemma groupLoop_file_noSlash isDir n o groups acc :
  noChar "/" acc.2 = true ->
  noChar "/"
    (fold_left (groupStep regexReplace isDir true n o) groups acc).2 = true.
Proof.
  revert acc. induction groups as [|g groups IH]; intros acc Hw; simpl; [done|].
  by apply IH, groupStep_file_noSlash.
Qed.

Lemma processFile_shape groups st e :
  exists segs w,
    newZip (processFile regexReplace groups st e)
    = newZip st ++
      [{| originalPath := entryName e;
          finalPath := JS.normalizeSlashes (JS.join "/" (segs ++ [w])) |}]
    /\ Forall (fun s => keepSegment s = true) segs
    /\ Forall (fun s => noChar "/" s = true) (segs ++ [w]).
Proof.
  pose proof (processFile_output regexReplace groups st e) as Hout.
  cbv zeta in Hout. rewrite rebuildPath_safe in Hout.
  eexists _, _. split; [exact Hout|]. split; [apply filter_Forall|].
  apply Forall_app. split.
  - apply List.Forall_forall. intros s [Hs _]%List.filter_In.
    pose proof (split_noSlash
      (Path.dirname
         (rewriteFolder (folderRenameMap st)
            (JS.normalizeSlashes (entryName e))))) as Hns.
    by apply (proj1 (List.Forall_forall _ _) Hns).
  - constructor; [|constructor].
    apply groupLoop_file_noSlash. apply basename_noSlash.
Qed.


(** X2. A directory below the top level is written under its own
    original parent path followed by its renamed last segment and a
    slash: the renames of its ancestors are not applied to it, and when no
    group is active on it the path is the original one with forward
    slashes. *)
Theorem directory_keeps_its_parent_path allEntries groups :
  Forall2
    (fun e r =>
       isDirectory e = true ->
       JS.startsWith (finalPath r) (parentPathOf (entryName e)) = true
       /\ (Forall
             (fun g =>
                active true (JS.normalizeSlashes (entryName e)) g = false)
             groups ->
           finalPath r = dirPathOf (entryName e) +:+ "/"))
    (directories allEntries ++ files allEntries)
    (newZip (processArchive regexReplace allEntries groups)).
Proof.
  apply archive_outputs.
  - intros st e _. destruct (processDirectory_shape groups st e) as (w & Hw & Hg).
    eexists. split; [exact Hw|]. intros _. simpl. split.
    + apply startsWith_app.
    + intros Hin. rewrite (Hg Hin), <- str_app_assoc. f_equal.
      unfold parentPathOf, folderNameOf.
      destruct (JS.lastIndexOf "/" _); [apply str_take_drop|done].
  - intros st e He. destruct (processFile_shape groups st e)
      as (segs & w & Hw & _).
    eexists. split; [exact Hw|]. by rewrite He.
Qed.

(** X3. The directory part of every file's output is rebuilt from
    segments that are neither empty nor [.] nor [..], and the base name
    holds no slash; unless a backslash is left (which the last step turns
    into a slash), these are exactly the segments of the output path. *)
Theorem file_output_has_kept_segments allEntries groups :
  Forall2
    (fun e r =>
       isDirectory e = false ->
       exists segs w,
         Forall (fun s => keepSegment s = true) segs
         /\ noChar "/" w = true
         /\ finalPath r = JS.normalizeSlashes (JS.join "/" (segs ++ [w]))
         /\ (noChar JS.backslash (JS.join "/" (segs ++ [w])) = true ->
             JS.split "/" (finalPath r) = segs ++ [w]))
    (directories allEntries ++ files allEntries)
    (newZip (processArchive regexReplace allEntries groups)).
Proof.
  apply archive_outputs.
  - intros st e He. destruct (processDirectory_shape groups st e) as (w & Hw & _).
    eexists. split; [exact Hw|]. by rewrite He.
  - intros st e _. destruct (processFile_shape groups st e)
      as (segs & w & Hw & Hk & Hns).
    eexists. split; [exact Hw|]. intros _. exists segs, w. simpl.
    split; [done|]. split.
    { apply Forall_app in Hns as [_ Hw']. by inversion Hw'. }
    split; [done|]. intros Hbs.
    unfold JS.normalizeSlashes. rewrite replaceChar_noChar by done.
    apply split_join; [by destruct segs|done].
Qed.

End EngineOutputs.

(** The limit of X3: the base name is not filtered, and a backslash that
    a rule brings in becomes a slash at the very end. *)
Example backslash_in_rule_text_becomes_slash :
  List.map finalPath
    (newZip
       (processArchive noRegex [fileEntry "docs/a.txt"]
          [{| id := "g"; groupScope := Global; scopeValue := "";
              exclude := false;
              rules := [Prefix (Some (String "." (String "."
                          (String JS.backslash EmptyString))))] |}]))
  = ["docs/../a.txt"].
Proof. reflexivity. Qed.

(** ** The scope matcher and the rules *)

Local Ltac by_cases_on_char c :=
  destruct c as [[|] [|] [|] [|] [|] [|] [|] [|]]; reflexivity.

Lemma lowerChar_upperChar c : JS.lowerChar (JS.upperChar c) = JS.lowerChar c.
Proof. by_cases_on_char c. Qed.

Lemma upperChar_dot c : Ascii.eqb (JS.upperChar c) "." = Ascii.eqb c ".".
Proof. by_cases_on_char c. Qed.

Lemma lowerChar_class c :
  JS.isUpper (JS.lowerChar c) || JS.isSpace (JS.lowerChar c)
  || Ascii.eqb (JS.lowerChar c) "_"
  = JS.isSpace c || Ascii.eqb c "_".
Proof. by_cases_on_char c. Qed.

Lemma ascii_not_sharp_s c :
  (N_of_ascii c <? 128)%N = true -> (N_of_ascii c =? 223)%N = false.
Proof.
  intros Hc. apply N.ltb_lt in Hc. apply N.eqb_neq. lia.
Qed.

Lemma toUpperCase_ascii s :
  JS.isAscii s = true -> JS.toUpperCase s = JS.mapChars JS.upperChar s.
Proof.
  induction s as [|c s IH]; [done|]. cbn [JS.isAscii JS.toUpperCase JS.mapChars].
  intros [Hc Hs]%andb_prop. by rewrite (ascii_not_sharp_s c Hc), IH.
Qed.

Lemma toLowerCase_upperChars s :
  JS.toLowerCase (JS.mapChars JS.upperChar s) = JS.toLowerCase s.
Proof.
  induction s as [|c s IH]; [done|].
  unfold JS.toLowerCase in *. simpl.
  by rewrite lowerChar_upperChar, IH.
Qed.

Lemma toLowerCase_app s t :
  JS.toLowerCase (s +:+ t) = JS.toLowerCase s +:+ JS.toLowerCase t.
Proof.
  induction s as [|c s IH]; [done|].
  unfold JS.toLowerCase in *. simpl. by rewrite IH.
Qed.

(** X4. The extension scope never matches a directory, excluded or not,
    as the global scope never does, and the folders scope never matches a
    file.  For a file, [exclude] turns the answer of the extension scope
    round; the answer does not change when the scope value is written in
    upper case, for a value of ASCII characters, nor when a value without
    a leading dot is given one. *)
Theorem extension_scope_laws name value exclude_ :
  matchScope name Extension value true exclude_ = false
  /\ matchScope name Global value true exclude_ = false
  /\ matchScope name Folders value false exclude_ = false
  /\ matchScope name Extension value false exclude_
     = xorb exclude_ (matchScope name Extension value false false)
  /\ (JS.isAscii value = true ->
      matchScope name Extension (JS.toUpperCase value) false exclude_
      = matchScope name Extension value false exclude_)
  /\ (value <> EmptyString -> JS.startsWith value "." = false ->
      matchScope name Extension ("." +:+ value) false exclude_
      = matchScope name Extension value false exclude_).
Proof.
  repeat split.
  - intros Hascii. rewrite (toUpperCase_ascii value Hascii).
    unfold matchScope. cbv zeta.
    assert (JS.startsWith (JS.mapChars JS.upperChar value) "."
            = JS.startsWith value ".") as ->.
    { destruct value as [|c v]; [done|].
      cbn [JS.startsWith JS.mapChars].
      assert (forall t, JS.startsWith t EmptyString = true) as Hnil
        by (by intros []).
      rewrite !Hnil, !andb_true_r.
      rewrite (Ascii.eqb_sym "." (JS.upperChar c)), upperChar_dot.
      apply Ascii.eqb_sym. }
    assert (String.eqb (JS.mapChars JS.upperChar value) EmptyString
            = String.eqb value EmptyString) as -> by (by destruct value).
    destruct (JS.startsWith value ".").
    + assert (String.eqb (JS.mapChars JS.upperChar value) EmptyString
              = String.eqb value EmptyString) as -> by (by destruct value).
      by rewrite toLowerCase_upperChars.
    + destruct (String.eqb value EmptyString); [done|].
      replace (JS.toLowerCase ("." +:+ JS.mapChars JS.upperChar value))
        with (JS.toLowerCase ("." +:+ value)); [done|].
      by rewrite !toLowerCase_app, toLowerCase_upperChars.
  - intros Hne Hdot. unfold matchScope. cbv zeta. rewrite Hdot.
    apply String.eqb_neq in Hne. rewrite Hne.
    by rewrite (startsWith_app "." value).
Qed.

(** With a sharp s in the value the two answers differ: its upper case
    is [SS]. *)
Example upper_case_value_with_sharp_s :
  let value := String (ascii_of_N 223) EmptyString in
  JS.toUpperCase value = "SS"
  /\ matchScope "a.ss" Extension value false false = false
  /\ matchScope "a.ss" Extension (JS.toUpperCase value) false false = true.
Proof. repeat split. Qed.


Lemma filterChars_id keep s :
  JS.existsChar (fun c => negb (keep c)) s = false -> JS.filterChars keep s = s.
Proof.
  induction s as [|c s IH]; [done|]. simpl.
  intros [Hc Hs]%orb_false_elim. apply negb_false_iff in Hc.
  by rewrite Hc, IH.
Qed.

Lemma filterChars_length keep s :
  (String.length (JS.filterChars keep s) <= String.length s)%nat.
Proof.
  induction s as [|c s IH]; [done|]. simpl.
  destruct (keep c); simpl; lia.
Qed.

Lemma collapseRuns_class cls by_ inRun s :
  cls by_ = false ->
  JS.existsChar cls (JS.collapseRuns cls by_ inRun s) = false.
Proof.
  intros Hby. revert inRun. induction s as [|c s IH]; intros inRun; [done|].
  simpl. destruct (cls c) eqn:Hc.
  - destruct inRun; [apply IH|]. simpl. by rewrite Hby, IH.
  - simpl. by rewrite Hc, IH.
Qed.

Lemma existsChar_ext p q s :
  (forall c, p c = q c) -> JS.existsChar p s = JS.existsChar q s.
Proof.
  intros H. induction s as [|c s IH]; [done|]. simpl. by rewrite H, IH.
Qed.


Lemma existsChar_mapChars p f s :
  JS.existsChar p (JS.mapChars f s) = JS.existsChar (fun c => p (f c)) s.
Proof. induction s as [|c s IH]; [done|]. simpl. by rewrite IH. Qed.

Lemma str_app_inj_r s t e : s +:+ e = t +:+ e -> s = t.
Proof.
  revert t. induction s as [|c s IH]; intros [|d t] H; simpl in H.
  - done.
  - apply (f_equal String.length) in H. simpl in H.
    rewrite str_length_app in H. lia.
  - apply (f_equal String.length) in H. simpl in H.
    rewrite str_length_app in H. lia.
  - injection H as -> H. by rewrite (IH t H).
Qed.

Lemma basename_plain s :
  noChar "/" s = true -> Path.basename s = s.
Proof.
  intros Hs. unfold Path.basename. rewrite split_plain by done.
  simpl. by destruct s.
Qed.

Section RuleLaws.

Variable regexReplace : string -> string -> string -> string -> option string.

(** X5. Two rule lists applied one after the other continue from the
    same stem and keep the original extension, provided the first result
    has no slash, is not empty and still has the extension of the original
    name: the second application then yields the second list folded over
    the first list's stem, followed by that extension (with one and the
    same index, the result of the concatenated list). *)
Theorem rules_compose name index1 index2 rs1 rs2 :
  let mid := applyRenamingRules regexReplace name index1 rs1 in
  let ext := Path.extname name in
  noChar "/" mid = true -> mid <> EmptyString -> Path.extname mid = ext ->
  applyRenamingRules regexReplace mid index2 rs2
  = fold_left (fun acc r => applyRule regexReplace index2 r acc) rs2
      (fold_left (fun acc r => applyRule regexReplace index1 r acc) rs1
         (Path.basenameSuffix name ext))
    +:+ ext
  /\ (index1 = index2 ->
      applyRenamingRules regexReplace mid index2 rs2
      = applyRenamingRules regexReplace name index1 (rs1 ++ rs2)).
Proof.
  intros mid ext Hslash Hne Hext.
  assert (Path.basenameSuffix mid ext
          = fold_left (fun acc r => applyRule regexReplace index1 r acc) rs1
              (Path.basenameSuffix name ext)) as Hstem.
  { apply (str_app_inj_r _ _ ext).
    rewrite <- Hext at 1 2. rewrite stem_ext_basename.
    by rewrite basename_plain. }
  assert (applyRenamingRules regexReplace mid index2 rs2
          = fold_left (fun acc r => applyRule regexReplace index2 r acc) rs2
              (fold_left (fun acc r => applyRule regexReplace index1 r acc)
                 rs1 (Path.basenameSuffix name ext))
            +:+ ext) as H.
  { unfold applyRenamingRules at 1. cbv zeta. by rewrite Hext, Hstem. }
  split; [exact H|]. intros <-. rewrite H.
  unfold applyRenamingRules. cbv zeta. by rewrite List.fold_left_app.
Qed.


(** X7. After [kebab_case] the stem holds no upper-case ASCII letter, no
    white space and no underscore. *)
Theorem kebab_case_alphabet index stem :
  JS.existsChar
    (fun c => JS.isUpper c || JS.isSpace c || Ascii.eqb c "_")
    (applyRule regexReplace index KebabCase stem)
  = false.
Proof.
  unfold applyRule, JS.toLowerCase. rewrite existsChar_mapChars.
  rewrite (existsChar_ext _ (fun c => JS.isSpace c || Ascii.eqb c "_"))
    by apply lowerChar_class.
  by apply collapseRuns_class.
Qed.

End RuleLaws.

(** A path put in front of the stem does not survive [remove_special];
    and a stem of special characters only leaves the extension alone, which
    a second run then takes for a stem. *)
Example remove_special_examples :
  applyRenamingRules noRegex "a.txt" (Number.ofZ 0)
    [Prefix (Some "../"); RemoveSpecial]
  = "a.txt"
  /\ applyRenamingRules noRegex "!!.txt" (Number.ofZ 0) [RemoveSpecial]
     = ".txt"
  /\ applyRenamingRules noRegex ".txt" (Number.ofZ 0) [RemoveSpecial] = "txt".
Proof. repeat split. Qed.

(** The theorem on [Report.txt] with a prefix, then upper case. *)
Lemma rules_compose_example :
  applyRenamingRules noRegex "x_Report.txt" (Number.ofZ 0) [Uppercase]
  = "X_REPORT.txt"
  /\ (Number.ofZ 0 = Number.ofZ 0 ->
      applyRenamingRules noRegex "x_Report.txt" (Number.ofZ 0) [Uppercase]
      = applyRenamingRules noRegex "Report.txt" (Number.ofZ 0)
          ([Prefix (Some "x_")] ++ [Uppercase])).
Proof.
  apply (rules_compose noRegex "Report.txt" (Number.ofZ 0) (Number.ofZ 0)
           [Prefix (Some "x_")] [Uppercase]).
  - reflexivity.
  - discriminate.
  - reflexivity.
Defined.

(** Where the third condition of X5 fails: a suffix with a dot in it on
    a name without extension is taken for the extension by the next
    group. *)
Example suffix_with_dot_becomes_extension :
  applyRenamingRules noRegex
    (applyRenamingRules noRegex "README" (Number.ofZ 0)
       [Suffix (Some "_v1.b")])
    (Number.ofZ 0) [Uppercase]
  = "README_V1.b"
  /\ applyRenamingRules noRegex "README" (Number.ofZ 0)
       [Suffix (Some "_v1.b"); Uppercase]
     = "README_V1.B".
Proof. split; reflexivity. Qed.

(** ** A request with the legacy rule list *)

Section DefaultGroup.

Variable regexReplace : string -> string -> string -> string -> option string.

Lemma processFile_state groups st e :
  let n := rewriteFolder (folderRenameMap st)
             (JS.normalizeSlashes (entryName e)) in
  let acc :=
    fold_left (groupStep regexReplace false true n (entryName e)) groups
      (groupCounters st, calls st, Path.basename n) in
  groupCounters (processFile regexReplace groups st e) = acc.1.1
  /\ calls (processFile regexReplace groups st e) = acc.1.2.
Proof.
  intros n acc. unfold processFile. fold n. fold acc.
  by destruct acc as [[c l] w].
Qed.

Lemma processDirectory_inactive groups st e :
  Forall
    (fun g => active true (JS.normalizeSlashes (entryName e)) g = false)
    groups ->
  groupCounters (processDirectory regexReplace groups st e) = groupCounters st
  /\ calls (processDirectory regexReplace groups st e) = calls st.
Proof.
  intros Hg. unfold processDirectory.
  destruct (JS.lastIndexOf "/" _); [|done].
  by rewrite groupLoop_inactive.
Qed.

Lemma directories_inactive groups es st :
  (forall n, Forall (fun g => active true n g = false) groups) ->
  groupCounters (fold_left (processDirectory regexReplace groups) es st)
  = groupCounters st
  /\ calls (fold_left (processDirectory regexReplace groups) es st) = calls st.
Proof.
  intros Hg. revert st. induction es as [|e es IH]; intros st; simpl; [done|].
  destruct (IH (processDirectory regexReplace groups st e)) as [-> ->].
  by apply processDirectory_inactive.
Qed.




Lemma files_one_global_group g es st n :
  groupScope g = Global -> rules g <> [] -> id g <> "__proto__"%string ->
  groupCounters st !! id g = Some n ->
  calls (fold_left (processFile regexReplace [g]) es st)
  = calls st ++ callsFrom (id g) n es
  /\ groupCounters (fold_left (processFile regexReplace [g]) es st) !! id g
     = Some (n + List.length es)%nat
  /\ List.map finalPath (newZip (fold_left (processFile regexReplace [g]) es st))
     = List.map finalPath (newZip st)
       ++ numberedFiles regexReplace (rules g) (folderRenameMap st) n es.
Proof.
  intros Hscope Hrules Hid. apply String.eqb_neq in Hid. revert st n.
  induction es as [|e es IH]; intros st n Hn; simpl.
  - by rewrite !List.app_nil_r, Nat.add_0_r.
  - destruct (processFile_state [g] st e) as [Hc Hl].
    pose proof (processFile_output regexReplace [g] st e) as Hz.
    cbn [fold_left] in Hc, Hl, Hz.
    rewrite groupStep_counters in Hc. rewrite groupStep_calls in Hl.
    rewrite groupStep_name in Hz.
    assert (forall m, active false m g = true) as Hact.
    { intros m. unfold active. rewrite Hscope.
      by destruct (rules g). }
    rewrite Hact in Hc, Hl, Hz. cbn [fst snd] in Hc, Hl, Hz.
    unfold counterBump, counterIndex in Hc, Hl, Hz.
    rewrite Hid, Hn in Hc, Hl, Hz.
    cbn [from_option] in Hc, Hl, Hz. unfold Datatypes.id in Hc, Hl, Hz.
    destruct (IH (processFile regexReplace [g] st e) (S n)) as (-> & -> & ->).
    { rewrite Hc. apply lookup_insert_eq. }
    rewrite Hl, Hz, processFile_map, List.map_app, <- !List.app_assoc.
    split; [done|]. split; [f_equal; lia|done].
Qed.


End DefaultGroup.


(** The paths of that run. *)
Example legacy_rules_paths :
  List.map finalPath
    (newZip
       (processArchive noRegex
          [fileEntry "a.jpg"; directoryEntry "x/y/"; fileEntry "x/y/b.jpg"]
          (requestGroups []
             [Numbering Number.Undefined (integerField (Some 3%Z)) (Some "_")
                None])))
  = ["x/y/"; "a_001.jpg"; "x/y/b_002.jpg"].
Proof. reflexivity. Qed.

(** ** The preview and the server *)

Lemma lastIndexOf_noChar c s : noChar c s = true -> JS.lastIndexOf c s = None.
Proof.
  induction s as [|x s IH]; [done|].
  intros [Hx Hs]%noChar_cons. simpl. rewrite (IH Hs).
  by apply Ascii.eqb_neq in Hx as ->.
Qed.

(** For a name without a slash the server's stem and extension are the
    two parts at the last dot, when there is one beyond the first
    character, and the whole name and nothing otherwise. *)
Lemma stem_and_extension_plain name :
  noChar "/" name = true -> name <> ".." ->
  (Path.basenameSuffix name (Path.extname name), Path.extname name)
  = match JS.lastIndexOf "." name with
    | Some (S lastDot) =>
        (JS.take (S lastDot) name, JS.drop (S lastDot) name)
    | _ => (name, EmptyString)
    end.
Proof.
  intros Hslash Hdd.
  pose proof (stem_ext_basename name) as Hsplit.
  rewrite basename_plain in Hsplit by done.
  assert (Path.extname name
          = match JS.lastIndexOf "." name with
            | Some (S lastDot) => JS.drop (S lastDot) name
            | _ => EmptyString
            end) as Hext.
  { unfold Path.extname. rewrite basename_plain by done.
    destruct (JS.lastIndexOf "." name) as [[|i]|]; [done| |done].
    by apply String.eqb_neq in Hdd as ->. }
  rewrite Hext in Hsplit |- *.
  destruct (JS.lastIndexOf "." name) as [[|i]|].
  - rewrite str_app_nil_r in Hsplit. by rewrite Hsplit.
  - f_equal. apply (str_app_inj_r _ _ (JS.drop (S i) name)).
    by rewrite Hsplit, str_take_drop.
  - rewrite str_app_nil_r in Hsplit. by rewrite Hsplit.
Qed.

Section Preview.

Variable regexReplace : string -> string -> string -> string -> option string.
Variable currentDate : string.

Lemma client_rule_step index pathPart r baseName ext :
  bothImplement r = true ->
  Client.applyRule currentDate index pathPart (Client.Other r) (baseName, ext)
  = (applyRule regexReplace index r baseName, ext).
Proof.
  destruct r as [| | | | | | | | | |start padding separator position|];
    try discriminate; intros Hr; unfold Client.applyRule, applyRule;
    try reflexivity;
    try (repeat match goal with
                | |- context [if ?b then _ else _] => destruct b
                end;
         reflexivity).
  assert (Number.text
            (Number.plus index (Number.orElse start (Number.Num Number.one)))
          = Number.toString
              (Number.add index
                 (if Number.isTruthy (Number.parseIntOf start)
                  then Number.parseIntOf start else Number.one))) as Hn.
  { destruct start as [|[| |m e]|]; try discriminate; [reflexivity|].
    cbn [bothImplement integerStart] in Hr.
    apply andb_prop in Hr as [->%Z.eqb_eq Hm].
    cbn [Number.parseIntOf]. rewrite (parseInt_safe m Hm).
    unfold Number.orElse. cbn [Number.truthy].
    by destruct (Number.isTruthy (Number.Finite m 0)). }
  cbv zeta. rewrite Hn.
  repeat match goal with
         | |- context [if ?b then _ else _] => destruct b
         end;
    reflexivity.
Qed.

Lemma client_rules_fold index pathPart rs baseName ext :
  forallb bothImplement rs = true ->
  fold_left (fun st r => Client.applyRule currentDate index pathPart r st)
    (List.map Client.Other rs) (baseName, ext)
  = (fold_left (fun acc r => applyRule regexReplace index r acc) rs baseName,
     ext).
Proof.
  revert baseName. induction rs as [|r rs IH]; intros baseName; [done|].
  cbn [forallb List.map fold_left]. intros [Hr Hrs]%andb_prop.
  by rewrite client_rule_step, IH.
Qed.

(** X9. For a file name without a slash or backslash, other than [..],
    and rules of the types that both sides implement, a numbering rule
    among them only with a [start] that is missing or an integer number
    below 2^53 in size, the preview of the browser shows the name that the
    server's rule evaluator produces (with forward slashes for any
    backslash a rule brings in). *)
Theorem preview_agrees_with_server name index rs :
  noChar "/" name = true -> noChar JS.backslash name = true ->
  name <> ".." -> forallb bothImplement rs = true ->
  Client.applyRules currentDate name index (List.map Client.Other rs) false
  = JS.normalizeSlashes (applyRenamingRules regexReplace name index rs).
Proof.
  intros Hslash Hbs Hdd Hrs. unfold Client.applyRules, applyRenamingRules.
  cbv zeta.
  assert (JS.normalizeSlashes name = name) as ->
    by (by apply replaceChar_noChar).
  cbn [andb]. rewrite lastIndexOf_noChar by done.
  pose proof (stem_and_extension_plain name Hslash Hdd) as Hparts.
  pose proof (f_equal fst Hparts) as Hstem.
  pose proof (f_equal snd Hparts) as Hext.
  cbn [fst snd] in Hstem, Hext. rewrite Hstem, Hext. clear Hparts Hstem Hext.
  destruct (JS.lastIndexOf "." name) as [[|lastDot]|]; cbn [fst snd];
    rewrite client_rules_fold by done;
    cbn [String.append]; by rewrite str_app_nil_r.
Qed.

End Preview.

(** The theorem on a photo name with three rules, the numbers starting
    at 10. *)
Lemma preview_agrees_example :
  Client.applyRules "2026-01-01" "IMG 001.JPG" (Number.ofZ 4)
    (List.map Client.Other
       [Lowercase; Replace (Some " ") (Some "_");
        Numbering (integerField (Some 10%Z)) (integerField (Some 3%Z)) None
          None])
    false
  = JS.normalizeSlashes
      (applyRenamingRules noRegex "IMG 001.JPG" (Number.ofZ 4)
         [Lowercase; Replace (Some " ") (Some "_");
          Numbering (integerField (Some 10%Z)) (integerField (Some 3%Z)) None
            None]).
Proof.
  apply (preview_agrees_with_server noRegex "2026-01-01" "IMG 001.JPG"
           (Number.ofZ 4)).
  - reflexivity.
  - reflexivity.
  - discriminate.
  - reflexivity.
Defined.

Example preview_numbers_from_start :
  Client.applyRules "2026-01-01" "IMG 001.JPG" (Number.ofZ 4)
    (List.map Client.Other
       [Lowercase; Replace (Some " ") (Some "_");
        Numbering (integerField (Some 10%Z)) (integerField (Some 3%Z)) None
          None])
    false
  = "img_001-014.JPG".
Proof. reflexivity. Qed.

(** Where they part on a numbering rule: the preview reads [start]
    through [parseInt], the server adds it to the index as it comes.  A
    [start] that is the string [5] is appended to the digits of the index
    by the server; of a [start] of 1.5 the preview keeps the 1. *)
Example preview_differs_on_start :
  let textStart :=
    [Numbering (Number.Str "5") Number.Undefined None None] in
  let halfStart :=
    [Numbering (Number.Num (Number.Finite 3 (-1))) Number.Undefined None
       None] in
  applyRenamingRules noRegex "a.txt" (Number.ofZ 0) textStart = "a-05.txt"
  /\ Client.applyRules "2026-01-01" "a.txt" (Number.ofZ 0)
       (List.map Client.Other textStart) false
     = "a-5.txt"
  /\ applyRenamingRules noRegex "a.txt" (Number.ofZ 0) halfStart = "a-1.5.txt"
  /\ Client.applyRules "2026-01-01" "a.txt" (Number.ofZ 0)
       (List.map Client.Other halfStart) false
     = "a-1.txt".
Proof. repeat split; vm_compute; reflexivity. Qed.

(** Where they part: the preview takes the whole name of a folder as the
    stem, the server sets an extension aside in a folder name as well. *)
Example preview_differs_on_dotted_folder :
  Client.applyRules "2026-01-01" "x/My.Folder/" (Number.ofZ 0)
    [Client.Other Uppercase] true
  = "x/MY.FOLDER/"
  /\ List.map finalPath
       (newZip
          (processArchive noRegex [directoryEntry "x/My.Folder/"]
             [{| id := "g"; groupScope := Folders; scopeValue := "";
                 exclude := false; rules := [Uppercase] |}]))
     = ["x/MY.Folder/"].
Proof. split; reflexivity. Qed.

(** ** The analyzer: statistics *)

Lemma split_length c s :
  List.length (JS.split c s) = S (countChar c s).
Proof.
  induction s as [|x s IH]; [done|]. simpl.
  destruct (Ascii.eqb x c); simpl; [by rewrite IH|].
  by destruct (JS.split c s).
Qed.

Lemma fileEntries_app l1 l2 :
  fileEntries (l1 ++ l2) = fileEntries l1 ++ fileEntries l2.
Proof. apply List.filter_app. Qed.

(** X10. The statistics count every entry once, as a file or as a
    directory; the total size is the sum of the sizes of the file entries,
    and the maximal depth is the largest number of slashes in a path of
    any entry, directories included (so a directory written with its
    trailing slash counts one level deeper than a file beside it). *)
Theorem stats_count_entries fs :
  Analyzer.totalFiles (Analyzer.calculateStats fs) = List.length (fileEntries fs)
  /\ (Analyzer.totalFiles (Analyzer.calculateStats fs)
      + Analyzer.totalDirectories (Analyzer.calculateStats fs))%nat
     = List.length fs
  /\ Analyzer.totalSize (Analyzer.calculateStats fs) = sizeSum (fileEntries fs)
  /\ Analyzer.maxDepth (Analyzer.calculateStats fs)
     = List.list_max (List.map depthOf fs)
  /\ Forall (fun f => (depthOf f <= Analyzer.maxDepth (Analyzer.calculateStats fs))%nat)
       fs.
Proof.
  unfold Analyzer.calculateStats.
  match goal with |- context [fold_left ?f fs _] => set (step := f) end.
  assert (forall l nf nd total depth largest,
            exists largest',
              fold_left step l (nf, nd, total, depth, largest)
              = ((nf + List.length (fileEntries l))%nat,
                 (nd + List.length (List.filter Analyzer.isDirectory l))%nat,
                 (total + sizeSum (fileEntries l))%Z,
                 Nat.max depth (List.list_max (List.map depthOf l)),
                 largest')) as Hfold.
  { induction l as [|f l IH]; intros nf nd total depth largest.
    - exists largest. cbn.
      repeat match goal with |- (_, _) = (_, _) => f_equal end; lia.
    - cbn [fold_left]. unfold step at 2. unfold depthOf, fileEntries, sizeSum.
      cbn [List.map List.filter List.list_max fold_right].
      rewrite split_length.
      replace (S (countChar "/" (Analyzer.originalName f)) - 1)%nat
        with (countChar "/" (Analyzer.originalName f)) by lia.
      destruct (Analyzer.isDirectory f); cbn [negb];
        match goal with
        | |- context [fold_left step l (?a, ?b, ?c, ?d, ?e)] =>
            destruct (IH a b c d e) as [largest' ->]
        end;
        exists largest'; unfold depthOf, fileEntries, sizeSum;
        cbn [List.map List.length fold_right];
        destruct (Nat.ltb_spec depth (countChar "/" (Analyzer.originalName f)));
        repeat match goal with |- (_, _) = (_, _) => f_equal end;
        unfold List.list_max; cbn [fold_right]; lia. }
  destruct (Hfold fs O O 0%Z O None) as [largest ->]. cbn [Nat.add Nat.max].
  cbn [Analyzer.totalFiles Analyzer.totalDirectories Analyzer.totalSize
       Analyzer.maxDepth].
  split; [done|]. split.
  { rewrite <- (filter_partition_length Analyzer.isDirectory fs).
    unfold fileEntries. lia. }
  split; [by rewrite Z.add_0_l|]. split; [done|].
  apply List.Forall_forall. intros f Hf.
  pose proof (proj1 (List.list_max_le (List.map depthOf fs) _) (le_n _)) as Hall.
  rewrite List.Forall_forall in Hall. apply Hall, List.in_map, Hf.
Qed.

(** X11. The largest file reported is the first file entry of maximal
    size: every file entry before it is strictly smaller and none after it
    is larger.  An archive without file entries reports the empty path
    with size 0. *)
Theorem largest_file_is_first_maximum fs :
  (fileEntries fs = [] ->
   Analyzer.largestFile (Analyzer.calculateStats fs) = (EmptyString, 0%Z))
  /\ (fileEntries fs <> [] ->
      exists before f after,
        fileEntries fs = before ++ f :: after
        /\ Analyzer.largestFile (Analyzer.calculateStats fs)
           = (Analyzer.originalName f, Analyzer.size f)
        /\ Forall (fun g => (Analyzer.size g < Analyzer.size f)%Z) before
        /\ Forall (fun g => (Analyzer.size g <= Analyzer.size f)%Z) after).
Proof.
  unfold Analyzer.calculateStats.
  match goal with |- context [fold_left ?f fs ?a] =>
    set (step := f); set (init := a) end.
  assert (forall l,
            match snd (fold_left step l init) with
            | None => fileEntries l = []
            | Some (p, z) =>
                exists before f after,
                  fileEntries l = before ++ f :: after
                  /\ p = Analyzer.originalName f /\ z = Analyzer.size f
                  /\ Forall (fun g => (Analyzer.size g < z)%Z) before
                  /\ Forall (fun g => (Analyzer.size g <= z)%Z) after
            end) as Hinv.
  { induction l as [|x l IH] using List.rev_ind; [done|].
    rewrite List.fold_left_app, fileEntries_app. cbn [fold_left].
    destruct (fold_left step l init) as [[[[nf nd] total] depth] largest].
    cbn [snd] in IH. unfold step, fileEntries at 2 4. cbn [List.filter].
    destruct (Analyzer.isDirectory x); cbn [negb snd].
    { rewrite List.app_nil_r. exact IH. }
    destruct largest as [[p z]|].
    - destruct IH as (before & f & after & -> & -> & -> & Hb & Ha).
      destruct (Z.ltb_spec (Analyzer.size f) (Analyzer.size x)).
      + exists (before ++ f :: after), x, [].
        split; [done|]. split; [done|]. split; [done|]. split; [|constructor].
        apply List.Forall_app. split; [|constructor].
        * eapply List.Forall_impl; [|exact Hb]. simpl. lia.
        * lia.
        * eapply List.Forall_impl; [|exact Ha]. simpl. lia.
      + exists before, f, (after ++ [x]).
        rewrite <- List.app_assoc. split; [done|]. split; [done|].
        split; [done|]. split; [done|].
        apply List.Forall_app. split; [done|]. by repeat constructor.
    - rewrite IH. exists [], x, []. by repeat split. }
  specialize (Hinv fs).
  destruct (fold_left step fs init) as [[[[nf nd] total] depth] largest].
  cbn [snd] in Hinv. cbn [Analyzer.largestFile]. split.
  - intros Hnone. destruct largest as [[p z]|]; [|done].
    destruct Hinv as (before & f & after & Heq & _).
    rewrite Hnone in Heq. by destruct before.
  - intros Hsome. destruct largest as [[p z]|]; [|done].
    destruct Hinv as (before & f & after & Heq & -> & -> & Hb & Ha).
    by exists before, f, after.
Qed.

(** ** The analyzer: warnings per file *)

Lemma checkPathLength_app f ws :
  Analyzer.checkPathLength f ws = ws ++ Analyzer.checkPathLength f [].
Proof.
  unfold Analyzer.checkPathLength, Analyzer.OS_LIMITS. cbn [fold_left].
  repeat match goal with |- context [(?a <? ?b)%nat] =>
    destruct (a <? b)%nat end;
    cbn [List.app]; rewrite <- ?List.app_assoc, ?List.app_nil_r; reflexivity.
Qed.

Lemma checkInvalidChars_app f ws :
  Analyzer.checkInvalidChars f ws = ws ++ Analyzer.checkInvalidChars f [].
Proof.
  unfold Analyzer.checkInvalidChars, Analyzer.INVALID_CHARS. cbn [fold_left].
  destruct (list_ascii_of_string
              (JS.filterChars Analyzer.windowsInvalid (Analyzer.originalName f)));
    destruct (list_ascii_of_string
                (JS.filterChars Analyzer.macosInvalid (Analyzer.originalName f)));
    destruct (list_ascii_of_string
                (JS.filterChars Analyzer.linuxInvalid (Analyzer.originalName f)));
    destruct (existsb _ Analyzer.RESERVED_NAMES_WINDOWS);
    cbn [List.app]; rewrite <- ?List.app_assoc, ?List.app_nil_r; reflexivity.
Qed.

Lemma fold_left_skip {A B} (step : A -> B -> A) (keep : B -> bool) l a :
  (forall a x, keep x = false -> step a x = a) ->
  fold_left step l a = fold_left step (List.filter keep l) a.
Proof.
  intros Hskip. revert a. induction l as [|x l IH]; intros a; [done|].
  cbn [fold_left List.filter]. destruct (keep x) eqn:Hx.
  - cbn [fold_left]. apply IH.
  - rewrite Hskip by done. apply IH.
Qed.

Lemma fileEntries_idem fs : fileEntries (fileEntries fs) = fileEntries fs.
Proof.
  unfold fileEntries. induction fs as [|f fs IH]; [done|].
  cbn [List.filter]. destruct (Analyzer.isDirectory f) eqn:Hf; [done|].
  cbn [negb List.filter]. rewrite Hf. cbn [negb]. by rewrite IH.
Qed.

Section AnalyzerFacts.

Variables normalizeNFC normalizeNFD : list N -> list N.

(** The three lists that the loop of [analyzeArchive] fills, file by
    file. *)
Lemma analyzeArchive_warnings fs :
  Analyzer.reportWarnings (Analyzer.analyzeArchive normalizeNFC normalizeNFD fs)
  = {| Analyzer.renameConflicts := Analyzer.simulateRenameConflicts fs;
       Analyzer.pathTooLong :=
         List.flat_map (fun f => Analyzer.checkPathLength f []) (fileEntries fs);
       Analyzer.duplicateNames := Analyzer.detectDuplicates fs;
       Analyzer.invalidChars :=
         List.flat_map (fun f => Analyzer.checkInvalidChars f []) (fileEntries fs);
       Analyzer.unicodeIssues :=
         List.flat_map
           (fun f => Analyzer.checkUnicode normalizeNFC normalizeNFD f [])
           (fileEntries fs);
       Analyzer.systemFiles := Analyzer.detectSystemFiles fs |}
  /\ Analyzer.reportSeverity (Analyzer.analyzeArchive normalizeNFC normalizeNFD fs)
     = Analyzer.calculateSeverity
         (Analyzer.reportWarnings
            (Analyzer.analyzeArchive normalizeNFC normalizeNFD fs)).
Proof.
  unfold Analyzer.analyzeArchive.
  match goal with |- context [fold_left ?f fs _] => set (step := f) end.
  assert (forall l pw iw uw,
            fold_left step l (pw, iw, uw)
            = (pw ++ List.flat_map (fun f => Analyzer.checkPathLength f [])
                       (fileEntries l),
               iw ++ List.flat_map (fun f => Analyzer.checkInvalidChars f [])
                       (fileEntries l),
               uw ++ List.flat_map
                       (fun f =>
                          Analyzer.checkUnicode normalizeNFC normalizeNFD f [])
                       (fileEntries l))) as Hfold.
  { induction l as [|f l IH]; intros pw iw uw.
    - cbn. by rewrite !List.app_nil_r.
    - cbn [fold_left]. unfold step at 2, fileEntries.
      cbn [List.filter]. destruct (Analyzer.isDirectory f); cbn [negb].
      + apply IH.
      + rewrite IH. cbn [List.flat_map]. unfold fileEntries.
        rewrite !List.app_assoc.
        rewrite <- (checkPathLength_app f pw),
                <- (checkInvalidChars_app f iw).
        reflexivity. }
  rewrite Hfold. by cbn.
Qed.

Lemma checkPathLength_In f w :
  In w (Analyzer.checkPathLength f [])
  <-> Analyzer.pwPath w = Analyzer.originalName f
      /\ Analyzer.pwLength w = Analyzer.byteLength (Analyzer.originalName f)
      /\ In (Analyzer.pwOs w, Analyzer.pwLimit w) Analyzer.OS_LIMITS
      /\ (Analyzer.pwLimit w < Analyzer.pwLength w)%nat.
Proof.
  unfold Analyzer.checkPathLength, Analyzer.OS_LIMITS. cbn [fold_left].
  set (len := Analyzer.byteLength (Analyzer.originalName f)).
  destruct w as [p n o limit]. cbn [Analyzer.pwPath Analyzer.pwLength
                                    Analyzer.pwOs Analyzer.pwLimit].
  destruct (Nat.ltb_spec 260 len), (Nat.ltb_spec 4096 len),
    (Nat.ltb_spec 1024 len); cbn [List.app In]; split;
    try (intros (-> & -> & [Heq|[Heq|[Heq|[]]]] & Hlt);
         injection Heq as <- <-; first [lia | tauto]);
    intros Hin;
    repeat match type of Hin with
           | _ \/ _ => destruct Hin as [Hin|Hin]
           | False => destruct Hin
           end;
    injection Hin as <- <- <- <-; repeat split; first [lia | tauto].
Qed.

(** X12. A path-length warning is raised for exactly the file entries
    and systems whose limit the path exceeds in UTF-8 bytes (Windows 260,
    macOS 1024, Linux 4096); a directory entry raises none.  Hence a path
    reported for Linux is reported for macOS and Windows, and one reported
    for macOS is reported for Windows. *)
Theorem path_warnings_follow_limits fs :
  (forall w,
     In w (Analyzer.pathTooLong
             (Analyzer.reportWarnings
                (Analyzer.analyzeArchive normalizeNFC normalizeNFD fs)))
     <-> exists f,
           In f fs /\ Analyzer.isDirectory f = false
           /\ Analyzer.pwPath w = Analyzer.originalName f
           /\ Analyzer.pwLength w = Analyzer.byteLength (Analyzer.originalName f)
           /\ In (Analyzer.pwOs w, Analyzer.pwLimit w) Analyzer.OS_LIMITS
           /\ (Analyzer.pwLimit w < Analyzer.pwLength w)%nat)
  /\ (forall w o limit,
        In w (Analyzer.pathTooLong
                (Analyzer.reportWarnings
                   (Analyzer.analyzeArchive normalizeNFC normalizeNFD fs))) ->
        In (o, limit) Analyzer.OS_LIMITS ->
        (limit <= Analyzer.pwLimit w)%nat ->
        In {| Analyzer.pwPath := Analyzer.pwPath w;
              Analyzer.pwLength := Analyzer.pwLength w;
              Analyzer.pwOs := o; Analyzer.pwLimit := limit |}
           (Analyzer.pathTooLong
              (Analyzer.reportWarnings
                 (Analyzer.analyzeArchive normalizeNFC normalizeNFD fs)))).
Proof.
  assert (forall w,
     In w (Analyzer.pathTooLong
             (Analyzer.reportWarnings
                (Analyzer.analyzeArchive normalizeNFC normalizeNFD fs)))
     <-> exists f,
           In f fs /\ Analyzer.isDirectory f = false
           /\ Analyzer.pwPath w = Analyzer.originalName f
           /\ Analyzer.pwLength w = Analyzer.byteLength (Analyzer.originalName f)
           /\ In (Analyzer.pwOs w, Analyzer.pwLimit w) Analyzer.OS_LIMITS
           /\ (Analyzer.pwLimit w < Analyzer.pwLength w)%nat) as Hiff.
  { intros w. rewrite (proj1 (analyzeArchive_warnings fs)).
    cbn [Analyzer.pathTooLong]. rewrite List.in_flat_map. unfold fileEntries.
    split.
    - intros (f & [Hf Hdir]%List.filter_In & Hw%checkPathLength_In).
      exists f. apply negb_true_iff in Hdir. tauto.
    - intros (f & Hf & Hdir & Hw). exists f. split.
      + apply List.filter_In. by rewrite Hdir.
      + apply checkPathLength_In. tauto. }
  split; [exact Hiff|].
  intros w o limit (f & Hf & Hdir & Hp & Hl & Hos & Hlt)%Hiff Hin Hle.
  apply Hiff. exists f. cbn. repeat split; try done. lia.
Qed.

Lemma unique_In x xs : In x (Analyzer.unique xs) <-> In x xs.
Proof.
  induction xs as [|y xs IH]; [done|]. cbn [Analyzer.unique In].
  rewrite List.filter_In, IH. destruct (String.eqb_spec x y) as [->|Hne].
  - tauto.
  - cbn [negb]. split; [tauto|]. intros [?|?]; [by left; symmetry|by right].
Qed.

Lemma filterChars_In keep c s :
  In c (list_ascii_of_string (JS.filterChars keep s))
  <-> In c (list_ascii_of_string s) /\ keep c = true.
Proof.
  induction s as [|x s IH]; [cbn; tauto|]. cbn [JS.filterChars].
  destruct (keep x) eqn:Hx; cbn [list_ascii_of_string In]; rewrite IH.
  - split; [intros [<-|[? ?]]; tauto|]. tauto.
  - split; [tauto|]. intros [[<-|?] ?]; [congruence|tauto].
Qed.

Lemma existsChar_In c s :
  JS.existsChar (Ascii.eqb c) s = true <-> In c (list_ascii_of_string s).
Proof.
  induction s as [|x s IH]; [done|]. cbn [JS.existsChar list_ascii_of_string In].
  rewrite orb_true_iff, IH. destruct (Ascii.eqb_spec c x) as [->|Hne].
  - tauto.
  - split; [intros [?|?]; [done|tauto]|]. intros [?|?]; [congruence|tauto].
Qed.

Lemma checkInvalidChars_slash f :
  noChar "/" (Analyzer.originalName f) = false ->
  exists w,
    In w (Analyzer.checkInvalidChars f [])
    /\ Analyzer.icPath w = Analyzer.originalName f
    /\ Analyzer.icOs w = Analyzer.Macos
    /\ In "/"%string (Analyzer.icInvalidChars w).
Proof.
  intros Hslash. apply negb_false_iff, existsChar_In in Hslash.
  assert (In "/"%char
            (list_ascii_of_string
               (JS.filterChars Analyzer.macosInvalid (Analyzer.originalName f))))
    as Hin by (by apply filterChars_In).
  rewrite (checkInvalidChars_app f).
  unfold Analyzer.checkInvalidChars, Analyzer.INVALID_CHARS. cbn [fold_left].
  destruct (list_ascii_of_string
              (JS.filterChars Analyzer.macosInvalid (Analyzer.originalName f)))
    as [|m ms] eqn:Hm; [done|].
  eexists {| Analyzer.icPath := Analyzer.originalName f;
             Analyzer.icInvalidChars :=
               Analyzer.unique (List.map Analyzer.showChar (m :: ms));
             Analyzer.icOs := Analyzer.Macos |}.
  split; [|split; [done|split; [done|]]].
  - destruct (list_ascii_of_string
                (JS.filterChars Analyzer.windowsInvalid _));
      destruct (list_ascii_of_string
                  (JS.filterChars Analyzer.linuxInvalid _));
      destruct (existsb _ Analyzer.RESERVED_NAMES_WINDOWS);
      cbn [List.app In]; tauto.
  - cbn [Analyzer.icInvalidChars]. apply unique_In.
    change "/"%string with (Analyzer.showChar "/"). by apply List.in_map.
Qed.

Lemma flat_map_length_ge {A B} (g : A -> list B) (P : A -> bool) l :
  (forall x, P x = true -> (1 <= List.length (g x))%nat) ->
  (List.length (List.filter P l) <= List.length (List.flat_map g l))%nat.
Proof.
  intros Hg. induction l as [|x l IH]; [done|].
  cbn [List.filter List.flat_map]. rewrite List.length_app.
  destruct (P x) eqn:Hx; cbn [List.length]; [|lia].
  specialize (Hg x Hx). lia.
Qed.

(** X13. The analyzer tests the whole path of a file entry against the
    characters that macOS forbids, the slash among them: every file entry
    inside a folder therefore gets an invalid-character warning for macOS
    that lists the slash, and an archive with more than five such files is
    rated critical or high. *)
Theorem nested_files_are_flagged_for_macos fs :
  (forall f,
     In f fs -> nestedFile f = true ->
     exists w,
       In w (Analyzer.invalidChars
               (Analyzer.reportWarnings
                  (Analyzer.analyzeArchive normalizeNFC normalizeNFD fs)))
       /\ Analyzer.icPath w = Analyzer.originalName f
       /\ Analyzer.icOs w = Analyzer.Macos
       /\ In "/"%string (Analyzer.icInvalidChars w))
  /\ ((5 < List.length (List.filter nestedFile fs))%nat ->
      Analyzer.reportSeverity
        (Analyzer.analyzeArchive normalizeNFC normalizeNFD fs)
      = Analyzer.Critical
      \/ Analyzer.reportSeverity
           (Analyzer.analyzeArchive normalizeNFC normalizeNFD fs)
         = Analyzer.High).
Proof.
  destruct (analyzeArchive_warnings fs) as [Hw Hs]. rewrite Hs, Hw. split.
  - intros f Hf [Hdir Hslash]%andb_prop.
    apply negb_true_iff in Hslash.
    destruct (checkInvalidChars_slash f Hslash) as (w & Hin & Hrest).
    exists w. split; [|done]. cbn [Analyzer.invalidChars].
    apply List.in_flat_map. exists f. split; [|done].
    apply List.filter_In. by split.
  - intros Hmany. unfold Analyzer.calculateSeverity.
    cbn [Analyzer.renameConflicts Analyzer.pathTooLong Analyzer.invalidChars].
    destruct (0 <? _)%nat; [by left|]. right.
    assert (5 < List.length
                  (List.flat_map (fun f => Analyzer.checkInvalidChars f [])
                     (fileEntries fs)))%nat as Hlen.
    { eapply Nat.lt_le_trans; [exact Hmany|].
      etransitivity;
        [|apply (flat_map_length_ge _
                   (fun f => negb (noChar "/" (Analyzer.originalName f))))].
      - unfold fileEntries, nestedFile.
        clear. induction fs as [|f l IH]; [done|]. cbn [List.filter].
        destruct (Analyzer.isDirectory f); cbn [negb andb List.filter]; [done|].
        destruct (negb (noChar "/" (Analyzer.originalName f)));
          cbn [List.length]; lia.
      - intros f Hslash. apply negb_true_iff in Hslash.
        destruct (checkInvalidChars_slash f Hslash) as (w & Hin & _).
        destruct (Analyzer.checkInvalidChars f []); [done|cbn; lia]. }
    apply Nat.ltb_lt in Hlen. rewrite Hlen. by rewrite orb_true_r.
Qed.

(** ** The analyzer: case conflicts *)

Lemma mapUpdate_values {V} (P : V -> Prop) k (f : option V -> V) m :
  P (f None) -> (forall v, P v -> P (f (Some v))) ->
  Forall (fun kv => P (snd kv)) m ->
  Forall (fun kv => P (snd kv)) (Analyzer.mapUpdate k f m).
Proof.
  intros Hnone Hsome. induction m as [|[k0 v] m IH]; intros Hm.
  - by repeat constructor.
  - apply List.Forall_cons_iff in Hm as [Hv Hm]. cbn [Analyzer.mapUpdate].
    cbn [snd] in Hv. destruct (String.eqb k0 k); constructor; cbn [snd]; auto.
Qed.

Lemma conflictGroups_NoDup fs m :
  List.NoDup (List.map fst m) ->
  List.NoDup (List.map fst (fold_left conflictStep fs m)).
Proof.
  revert m. induction fs as [|f fs IH]; intros m Hm; [done|].
  cbn [fold_left]. apply IH. unfold conflictStep.
  destruct (Analyzer.isDirectory f); [done|]. by apply mapUpdate_NoDup.
Qed.

Lemma conflictGroups_inner_NoDup fs m :
  Forall (fun kv => List.NoDup (List.map fst (snd kv))) m ->
  Forall (fun kv => List.NoDup (List.map fst (snd kv)))
    (fold_left conflictStep fs m).
Proof.
  revert m. induction fs as [|f fs IH]; intros m Hm; [done|].
  cbn [fold_left]. apply IH. unfold conflictStep.
  destruct (Analyzer.isDirectory f); [done|].
  apply (mapUpdate_values (fun v => List.NoDup (List.map fst v))); [| |done].
  - apply mapUpdate_NoDup. constructor.
  - intros v Hv. by apply mapUpdate_NoDup.
Qed.

Lemma conflictGroups_get fs m dir lower :
  Analyzer.mapGet lower
    (default [] (Analyzer.mapGet dir (fold_left conflictStep fs m)))
  = match Analyzer.mapGet lower (default [] (Analyzer.mapGet dir m)),
          namesIn dir lower fs with
    | None, [] => None
    | o, names => Some (default [] o ++ names)
    end.
Proof.
  revert m. induction fs as [|f fs IH]; intros m.
  - cbn [fold_left namesIn List.filter List.map].
    destruct (Analyzer.mapGet lower _); [|done].
    cbn [from_option]. unfold Datatypes.id. by rewrite List.app_nil_r.
  - cbn [fold_left]. rewrite IH. unfold conflictStep, namesIn.
    cbn [List.filter]. destruct (Analyzer.isDirectory f); [done|].
    cbn [negb andb]. rewrite mapGet_mapUpdate.
    destruct (String.eqb_spec (Path.dirname (Analyzer.originalName f)) dir)
      as [->|Hne]; [|done].
    cbn [from_option]. unfold Datatypes.id, Analyzer.mapPush.
    rewrite mapGet_mapUpdate.
    destruct (String.eqb_spec
                (JS.toLowerCase (Path.basename (Analyzer.originalName f)))
                lower) as [->|Hne]; [|done].
    cbn [List.map from_option]. unfold Datatypes.id.
    rewrite <- List.app_assoc. cbn [List.app andb List.map].
    by destruct (Analyzer.mapGet lower _).
Qed.

(** The name lists of [simulateRenameConflicts] are the non-empty
    classes of base names with the same directory and lower-cased name. *)
Lemma conflictGroups_spec fs dir lower originals :
  (exists nameMap,
     In (dir, nameMap) (Analyzer.conflictGroups fs)
     /\ In (lower, originals) nameMap)
  <-> originals = namesIn dir lower fs /\ originals <> [].
Proof.
  unfold Analyzer.conflictGroups.
  change (fold_left _ fs []) with (fold_left conflictStep fs []).
  pose proof (conflictGroups_NoDup fs [] (List.NoDup_nil _)) as Houter.
  pose proof (conflictGroups_inner_NoDup fs [] (List.Forall_nil _)) as Hinner.
  pose proof (conflictGroups_get fs [] dir lower) as Hget.
  cbn [Analyzer.mapGet from_option] in Hget. unfold Datatypes.id in Hget.
  cbn [Analyzer.mapGet List.app] in Hget.
  rewrite List.Forall_forall in Hinner. split.
  - intros (nameMap & Hdir & Hlower).
    specialize (Hinner _ Hdir). cbn [snd] in Hinner.
    apply mapGet_In in Hdir; [|done]. apply mapGet_In in Hlower; [|done].
    rewrite Hdir in Hget. cbn [from_option] in Hget. unfold Datatypes.id in Hget.
    rewrite Hlower in Hget.
    destruct (namesIn dir lower fs); [done|]. by injection Hget as ->.
  - intros [-> Hne].
    destruct (namesIn dir lower fs) as [|n ns] eqn:Hnames; [done|].
    destruct (Analyzer.mapGet dir (fold_left conflictStep fs []))
      as [nameMap|] eqn:Hdir; [|done].
    cbn [from_option] in Hget. unfold Datatypes.id in Hget.
    exists nameMap. apply mapGet_In in Hdir; [|done]. split; [done|].
    specialize (Hinner _ Hdir). by apply mapGet_In.
Qed.

Lemma unique_length_le xs :
  (List.length (Analyzer.unique xs) <= List.length xs)%nat.
Proof.
  induction xs as [|x xs IH]; [done|]. cbn [Analyzer.unique List.length].
  pose proof (List.filter_length_le
                (fun y => negb (String.eqb y x)) (Analyzer.unique xs)). lia.
Qed.

Lemma unique_two xs :
  (1 < List.length (Analyzer.unique xs))%nat ->
  exists x y, In x xs /\ In y xs /\ x <> y.
Proof.
  destruct xs as [|x xs]; [cbn; intros; lia|].
  cbn [Analyzer.unique List.length].
  destruct (List.filter (fun y => negb (String.eqb y x)) (Analyzer.unique xs))
    as [|y ys] eqn:Hfilter; [cbn; intros; lia|].
  intros _.
  assert (In y (List.filter (fun y => negb (String.eqb y x))
                  (Analyzer.unique xs))) as Hy by (rewrite Hfilter; by left).
  apply List.filter_In in Hy as [Hy Hne].
  apply (proj1 (unique_In _ _)) in Hy.
  exists x, y. split; [by left|]. split; [by right|].
  apply negb_true_iff, String.eqb_neq in Hne. congruence.
Qed.

Lemma namesIn_lower dir lower fs :
  Forall (fun n => JS.toLowerCase n = lower) (namesIn dir lower fs).
Proof.
  unfold namesIn. apply List.Forall_map, List.Forall_forall.
  intros f [_ Hf]%List.filter_In.
  apply andb_prop in Hf as [_ Hf]. by apply String.eqb_eq.
Qed.

Lemma firstn_In {A} n (x : A) l : In x (List.firstn n l) -> In x l.
Proof.
  revert l. induction n as [|n IH]; intros [|y l]; cbn; try tauto.
  intros [?|?]; [by left|right; by apply IH].
Qed.

Lemma conflictsOf_In fs c :
  In c (List.flat_map Analyzer.conflictsOf (Analyzer.conflictGroups fs))
  <-> c = conflictFor (Analyzer.cwDirectory c) (Analyzer.cwResultName c) fs
      /\ (1 < List.length (Analyzer.unique (Analyzer.cwConflictingFiles c)))%nat.
Proof.
  rewrite List.in_flat_map. split.
  - intros ([dir nameMap] & Hdir & Hc). unfold Analyzer.conflictsOf in Hc.
    apply List.in_flat_map in Hc as ([lower originals] & Hlower & Hc).
    destruct (conflictGroups_spec fs dir lower originals) as [Hspec _].
    destruct Hspec as [-> Hne]; [by exists nameMap|].
    destruct (Nat.ltb_spec 1 (List.length (namesIn dir lower fs)));
      [|done].
    destruct (Nat.ltb_spec 1
                (List.length (Analyzer.unique (namesIn dir lower fs))));
      [|done].
    by destruct Hc as [<-|[]].
  - intros [Hc Hunique]. rewrite Hc in Hunique |- *.
    cbn [conflictFor Analyzer.cwConflictingFiles] in Hunique.
    set (dir := Analyzer.cwDirectory c) in *.
    set (lower := Analyzer.cwResultName c) in *.
    destruct (conflictGroups_spec fs dir lower (namesIn dir lower fs))
      as [_ Hspec].
    destruct Hspec as (nameMap & Hdir & Hlower).
    { split; [done|]. intros Hnil. rewrite Hnil in Hunique. cbn in Hunique. lia. }
    exists (dir, nameMap). split; [done|]. unfold Analyzer.conflictsOf.
    apply List.in_flat_map. exists (lower, namesIn dir lower fs).
    split; [done|].
    pose proof (unique_length_le (namesIn dir lower fs)).
    destruct (Nat.ltb_spec 1 (List.length (namesIn dir lower fs))); [|lia].
    destruct (Nat.ltb_spec 1
                (List.length (Analyzer.unique (namesIn dir lower fs))));
      [|lia].
    by left.
Qed.

(** X14. A reported conflict stands for one directory and one lower-cased
    name: it lists the base names of all file entries of that directory
    that lower-case to that name, in listing order, counts them, and among
    them are two different spellings.  At most ten conflicts are reported,
    and when fewer than ten are, every such directory and name with two
    spellings is among them.  (Names are strings of code units below 256;
    lower-casing folds the accented capitals 192 to 222 as well as A to
    Z.) *)
Theorem conflicts_are_case_variants fs :
  (List.length (Analyzer.simulateRenameConflicts fs) <= 10)%nat
  /\ Forall
       (fun c =>
          c = conflictFor (Analyzer.cwDirectory c) (Analyzer.cwResultName c) fs
          /\ (2 <= Analyzer.cwCount c)%nat
          /\ Forall (fun n => JS.toLowerCase n = Analyzer.cwResultName c)
               (Analyzer.cwConflictingFiles c)
          /\ exists n1 n2,
               In n1 (Analyzer.cwConflictingFiles c)
               /\ In n2 (Analyzer.cwConflictingFiles c) /\ n1 <> n2)
       (Analyzer.simulateRenameConflicts fs)
  /\ ((List.length (Analyzer.simulateRenameConflicts fs) < 10)%nat ->
      forall dir lower,
        (1 < List.length (Analyzer.unique (namesIn dir lower fs)))%nat ->
        In (conflictFor dir lower fs) (Analyzer.simulateRenameConflicts fs)).
Proof.
  unfold Analyzer.simulateRenameConflicts.
  set (all := List.flat_map Analyzer.conflictsOf (Analyzer.conflictGroups fs)).
  split; [rewrite List.length_firstn; lia|]. split.
  - apply List.Forall_forall. intros c Hc%firstn_In.
    apply conflictsOf_In in Hc as [Hc Hunique]. split; [done|].
    pose proof (unique_length_le (Analyzer.cwConflictingFiles c)) as Hle.
    rewrite Hc in Hle |- *.
    cbn [conflictFor Analyzer.cwCount Analyzer.cwConflictingFiles
         Analyzer.cwResultName Analyzer.cwDirectory] in *.
    rewrite Hc in Hunique.
    cbn [conflictFor Analyzer.cwConflictingFiles] in Hunique.
    split; [lia|]. split; [apply namesIn_lower|]. by apply unique_two.
  - rewrite List.length_firstn. intros Hfew dir lower Hunique.
    rewrite List.firstn_all2 by lia. apply conflictsOf_In. by split.
Qed.

(** Two names that differ in an accented capital: E with acute accent
    (code unit 201) against its small letter (233). *)
Example accented_case_variants_conflict :
  let capital :=
    String (ascii_of_N 201) (String "t" (String (ascii_of_N 233) ".txt")) in
  let small :=
    String (ascii_of_N 233) (String "t" (String (ascii_of_N 233) ".txt")) in
  Analyzer.simulateRenameConflicts [archiveFile capital; archiveFile small]
  = [{| Analyzer.cwDirectory := ".";
        Analyzer.cwConflictingFiles := [capital; small];
        Analyzer.cwResultName := small;
        Analyzer.cwCount := 2 |}].
Proof. reflexivity. Qed.

Lemma filter_length_impl {A} (p q : A -> bool) l :
  (forall x, p x = true -> q x = true) ->
  (List.length (List.filter p l) <= List.length (List.filter q l))%nat.
Proof.
  intros Hpq. induction l as [|x l IH]; [done|]. cbn [List.filter].
  destruct (p x) eqn:Hp.
  - rewrite (Hpq x Hp). cbn [List.length]. lia.
  - destruct (q x); cbn [List.length]; lia.
Qed.

Lemma namesIn_filesWithKey dir lower fs :
  (List.length (namesIn dir lower fs)
   <= List.length (filesWithKey (dir +:+ "::" +:+ lower) fs))%nat.
Proof.
  unfold namesIn, filesWithKey. rewrite !List.length_map.
  apply filter_length_impl. intros f [[Hdir Hd]%andb_prop Hl]%andb_prop.
  rewrite Hdir. cbn [andb]. apply String.eqb_eq in Hd, Hl.
  apply String.eqb_eq. unfold Analyzer.duplicateKey. by rewrite Hd, Hl.
Qed.

(** X15. Every case conflict is also a duplicate: for a reported
    conflict the duplicate detector reports the group filed under the key
    of the conflict's directory and lower-cased name, with at least as
    many entries.  So a report rated critical always lists a duplicate. *)
Theorem conflict_implies_duplicate fs :
  Forall
    (fun c =>
       exists d,
         In d (Analyzer.detectDuplicates fs)
         /\ Analyzer.dwCount d
            = List.length
                (filesWithKey
                   (Analyzer.cwDirectory c +:+ "::" +:+ Analyzer.cwResultName c)
                   fs)
         /\ (Analyzer.cwCount c <= Analyzer.dwCount d)%nat)
    (Analyzer.simulateRenameConflicts fs)
  /\ (Analyzer.reportSeverity
        (Analyzer.analyzeArchive normalizeNFC normalizeNFD fs)
      = Analyzer.Critical ->
      Analyzer.duplicateNames
        (Analyzer.reportWarnings
           (Analyzer.analyzeArchive normalizeNFC normalizeNFD fs)) <> []).
Proof.
  assert (Forall
    (fun c =>
       exists d,
         In d (Analyzer.detectDuplicates fs)
         /\ Analyzer.dwCount d
            = List.length
                (filesWithKey
                   (Analyzer.cwDirectory c +:+ "::" +:+ Analyzer.cwResultName c)
                   fs)
         /\ (Analyzer.cwCount c <= Analyzer.dwCount d)%nat)
    (Analyzer.simulateRenameConflicts fs)) as Hall.
  { apply List.Forall_forall. intros c Hc.
    unfold Analyzer.simulateRenameConflicts in Hc.
    apply firstn_In, conflictsOf_In in Hc as [Hc Hunique].
    set (dir := Analyzer.cwDirectory c) in *.
    set (lower := Analyzer.cwResultName c) in *.
    set (k := dir +:+ "::" +:+ lower).
    pose proof (namesIn_filesWithKey dir lower fs) as Hle. fold k in Hle.
    pose proof (unique_length_le (Analyzer.cwConflictingFiles c)) as Hlen.
    assert (Analyzer.cwCount c = List.length (namesIn dir lower fs)) as Hcount
      by (by rewrite Hc).
    assert (Analyzer.cwConflictingFiles c = namesIn dir lower fs) as Hfiles
      by (by rewrite Hc).
    rewrite Hfiles in Hlen, Hunique.
    assert (1 < List.length (filesWithKey k fs))%nat as Hmany by lia.
    eexists {| Analyzer.dwCount := List.length (filesWithKey k fs) |}.
    split; [|split; [reflexivity|cbn [Analyzer.dwCount]; lia]].
    unfold Analyzer.detectDuplicates. apply List.in_flat_map.
    exists (k, filesWithKey k fs). split.
    - apply duplicateGroups_spec. split; [done|].
      intros Hnil. rewrite Hnil in Hmany. cbn in Hmany. lia.
    - unfold Analyzer.duplicateOf.
      apply Nat.ltb_lt in Hmany. rewrite Hmany. left. reflexivity. }
  split; [exact Hall|].
  destruct (analyzeArchive_warnings fs) as [Hw Hs]. rewrite Hs, Hw.
  unfold Analyzer.calculateSeverity.
  cbn [Analyzer.renameConflicts Analyzer.duplicateNames].
  destruct (Analyzer.simulateRenameConflicts fs) as [|c cs].
  - cbn [List.length Nat.ltb Nat.leb].
    by repeat match goal with |- context [if ?b then _ else _] =>
                destruct b end.
  - intros _ Hnil. apply List.Forall_cons_iff in Hall as [(d & Hd & _) _].
    by rewrite Hnil in Hd.
Qed.

(** X16. Directory entries raise no warning other than for system
    files: the conflicts, the path-length, duplicate, invalid-character
    and Unicode warnings of a listing are those of its file entries alone,
    and a listing without file entries is rated low or none. *)
Theorem only_files_raise_warnings fs :
  let w := Analyzer.reportWarnings
             (Analyzer.analyzeArchive normalizeNFC normalizeNFD fs) in
  let w' := Analyzer.reportWarnings
              (Analyzer.analyzeArchive normalizeNFC normalizeNFD
                 (fileEntries fs)) in
  Analyzer.renameConflicts w = Analyzer.renameConflicts w'
  /\ Analyzer.pathTooLong w = Analyzer.pathTooLong w'
  /\ Analyzer.duplicateNames w = Analyzer.duplicateNames w'
  /\ Analyzer.invalidChars w = Analyzer.invalidChars w'
  /\ Analyzer.unicodeIssues w = Analyzer.unicodeIssues w'
  /\ (fileEntries fs = [] ->
      Analyzer.reportSeverity
        (Analyzer.analyzeArchive normalizeNFC normalizeNFD fs)
      = if (0 <? List.length (Analyzer.detectSystemFiles fs))%nat
        then Analyzer.Low else Analyzer.None_).
Proof.
  cbv zeta.
  destruct (analyzeArchive_warnings fs) as [Hw Hs].
  destruct (analyzeArchive_warnings (fileEntries fs)) as [Hw' _].
  rewrite Hs, Hw, Hw'.
  cbn [Analyzer.renameConflicts Analyzer.pathTooLong Analyzer.duplicateNames
       Analyzer.invalidChars Analyzer.unicodeIssues].
  rewrite fileEntries_idem.
  assert (Analyzer.conflictGroups fs = Analyzer.conflictGroups (fileEntries fs))
    as Hconflicts.
  { unfold Analyzer.conflictGroups, fileEntries.
    apply (fold_left_skip _ (fun f => negb (Analyzer.isDirectory f))).
    intros a f Hf. apply negb_false_iff in Hf. by rewrite Hf. }
  assert (Analyzer.duplicateGroups fs = Analyzer.duplicateGroups (fileEntries fs))
    as Hduplicates.
  { unfold Analyzer.duplicateGroups, fileEntries.
    apply (fold_left_skip _ (fun f => negb (Analyzer.isDirectory f))).
    intros a f Hf. apply negb_false_iff in Hf. by rewrite Hf. }
  unfold Analyzer.simulateRenameConflicts, Analyzer.detectDuplicates.
  rewrite <- Hconflicts, <- Hduplicates. repeat (split; [done|]).
  intros Hnone. rewrite Hconflicts, Hduplicates, Hnone. reflexivity.
Qed.

End AnalyzerFacts.

(** Six files in one folder, with harmless names: each is reported for
    macOS because of the slash of its path, and the archive is rated
    high. *)
Example six_nested_files_rate_high :
  let fs :=
    List.map archiveFile
      ["d/a.txt"; "d/b.txt"; "d/c.txt"; "d/e.txt"; "d/f.txt"; "d/g.txt"] in
  forall normalizeNFC normalizeNFD,
    List.map (fun w => (Analyzer.icPath w, Analyzer.icInvalidChars w))
      (Analyzer.invalidChars
         (Analyzer.reportWarnings
            (Analyzer.analyzeArchive normalizeNFC normalizeNFD fs)))
    = List.map (fun f => (Analyzer.originalName f, ["/"])) fs
    /\ Analyzer.reportSeverity
         (Analyzer.analyzeArchive normalizeNFC normalizeNFD fs)
       = Analyzer.High.
Proof.
  intros fs normalizeNFC normalizeNFD.
  destruct (analyzeArchive_warnings normalizeNFC normalizeNFD fs) as [Hw Hs].
  rewrite Hs, Hw. split; reflexivity.
Qed.

(** ** The two [/api/process] handlers *)

(** The directory part of a plain file path, as both handlers split and
    filter it. *)
Lemma dirname_segments p :
  forallb keepSegment (removelast (JS.split "/" p)) = true ->
  List.last (JS.split "/" p) EmptyString <> EmptyString ->
  List.filter keepSegment (JS.split "/" (Path.dirname p))
  = removelast (JS.split "/" p)
  /\ List.filter legacyKeeps (JS.split "/" (Path.dirname p))
     = removelast (JS.split "/" p)
  /\ p = JS.join "/"
           (removelast (JS.split "/" p)
            ++ [List.last (JS.split "/" p) EmptyString]).
Proof.
  intros Hinit Hlast.
  pose proof (join_split p) as Hjoin.
  pose proof (split_noSlash p) as Hns.
  pose proof (split_nonempty "/" p) as Hne.
  rewrite (app_removelast_last EmptyString Hne) in Hjoin, Hns.
  remember (removelast (JS.split "/" p)) as init eqn:Ei.
  remember (List.last (JS.split "/" p) EmptyString) as b eqn:Eb.
  clear Ei Eb Hne. subst p.
  apply Forall_app in Hns as [Hinit_ns Hb]. inversion Hb as [|? ? Hb' _]; subst.
  destruct init as [|a init'].
  - cbn [List.app JS.join]. rewrite dirname_plain by done. by cbn.
  - assert (exists c d, JS.join "/" (a :: init') = String c d /\ c <> "/"%char)
      as (c & d & Hd & Hc).
    { simpl in Hinit. apply andb_prop in Hinit as [Ha _].
      inversion Hinit_ns as [|? ? Hans _]; subst.
      destruct a as [|c a]; [done|]. apply noChar_cons in Hans as [Hc _].
      destruct init'; simpl; eauto. }
    remember (a :: init') as init eqn:Hinit_eq.
    assert (init <> []) as Hinit_ne by (by rewrite Hinit_eq).
    rewrite join_snoc by done. rewrite Hd at 1 2.
    rewrite dirname_app by done. rewrite <- Hd.
    rewrite split_join by done. split; [by apply filter_all|].
    split; [|done]. apply filter_all.
    apply List.forallb_forall. intros seg Hseg.
    rewrite List.forallb_forall in Hinit. specialize (Hinit seg Hseg).
    unfold keepSegment in Hinit. unfold legacyKeeps.
    apply andb_prop in Hinit as [[_ H1]%andb_prop H2]. by rewrite H1, H2.
Qed.

(** For a plain file path and a new name without a backslash, the path
    that the current handler rebuilds is the one the first handler put
    together. *)
Lemma rebuildPath_legacy p w :
  noChar JS.backslash p = true ->
  forallb keepSegment (removelast (JS.split "/" p)) = true ->
  List.last (JS.split "/" p) EmptyString <> EmptyString ->
  noChar JS.backslash w = true ->
  rebuildPath (Path.dirname p) w = legacyRebuild (Path.dirname p) w.
Proof.
  intros Hbs Hinit Hlast Hw.
  destruct (dirname_segments p Hinit Hlast) as (Hkeep & Hlegacy & Hp).
  rewrite rebuildPath_safe, Hkeep. unfold legacyRebuild. rewrite Hlegacy.
  set (init := removelast (JS.split "/" p)) in *.
  set (b := List.last (JS.split "/" p) EmptyString) in *.
  destruct init as [|a init'] eqn:Hinit_eq.
  - cbn. by apply replaceChar_noChar.
  - rewrite <- Hinit_eq in *.
    assert (init <> []) as Hne by (by rewrite Hinit_eq).
    destruct (join_kept_proper init Hne) as [-> ->].
    { apply List.Forall_forall. by apply List.forallb_forall. }
    rewrite join_snoc by done. apply replaceChar_noChar.
    rewrite Hp, join_snoc in Hbs by done.
    apply noChar_app in Hbs as [Hdir [Hslash _]%noChar_app].
    apply noChar_app. split; [done|]. by apply noChar_app.
Qed.

Section Handlers.

Variable regexReplace : string -> string -> string -> string -> option string.

(** The rule evaluator reads the last component of its argument only. *)
Lemma applyRenamingRules_basename name index rs :
  applyRenamingRules regexReplace (Path.basename name) index rs
  = applyRenamingRules regexReplace name index rs.
Proof.
  assert (Path.basename (Path.basename name) = Path.basename name) as Hbb
    by apply basename_plain, basename_noSlash.
  assert (Path.extname (Path.basename name) = Path.extname name) as Hext
    by (unfold Path.extname; by rewrite Hbb).
  unfold applyRenamingRules. rewrite Hext. do 2 f_equal.
  apply (str_app_inj_r _ _ (Path.extname name)).
  rewrite (stem_ext_basename name).
  pose proof (stem_ext_basename (Path.basename name)) as Hstem.
  by rewrite Hext, Hbb in Hstem.
Qed.

Lemma processDirectory_identity groups st e :
  Forall (fun g => active true (JS.normalizeSlashes (entryName e)) g = false)
    groups ->
  Forall (fun kv => kv.1 = kv.2) (folderRenameMap st) ->
  Forall (fun kv => kv.1 = kv.2)
    (folderRenameMap (processDirectory regexReplace groups st e)).
Proof.
  intros Hg Hm. unfold processDirectory.
  destruct (JS.lastIndexOf "/" _); [|done].
  rewrite groupLoop_inactive by done. cbn [folderRenameMap].
  apply mapSet_Forall; [done|]. cbn [fst snd].
  by rewrite <- !str_app_assoc, str_take_drop.
Qed.

Lemma directories_identity groups es st :
  (forall n, Forall (fun g => active true n g = false) groups) ->
  Forall (fun kv => kv.1 = kv.2) (folderRenameMap st) ->
  Forall (fun kv => kv.1 = kv.2)
    (folderRenameMap (fold_left (processDirectory regexReplace groups) es st)).
Proof.
  intros Hg. revert st. induction es as [|e es IH]; intros st Hm; [done|].
  cbn [fold_left]. apply IH. by apply processDirectory_identity.
Qed.

Lemma files_legacy g es st n :
  groupScope g = Global -> rules g <> [] -> id g <> "__proto__"%string ->
  groupCounters st !! id g = Some n ->
  Forall (fun kv => kv.1 = kv.2) (folderRenameMap st) ->
  Forall (fun e => plainFilePath (entryName e) = true) es ->
  Forall (fun w => slashFree w = true) (newNames regexReplace (rules g) n es) ->
  newZip (fold_left (processFile regexReplace [g]) es st)
  = newZip st ++ legacyEntries regexReplace (rules g) n es.
Proof.
  intros Hscope Hrules Hid. revert st n.
  induction es as [|e es IH]; intros st n Hn Hm Hplain Hfree.
  - cbn. by rewrite List.app_nil_r.
  - cbn [fold_left legacyEntries newNames] in *.
    apply List.Forall_cons_iff in Hplain as [Hp Hplain].
    apply List.Forall_cons_iff in Hfree as [Hw Hfree].
    destruct (files_one_global_group regexReplace g [e] st n Hscope Hrules
                Hid Hn)
      as (_ & Hcount & _).
    cbn [fold_left List.length] in Hcount.
    rewrite (IH (processFile regexReplace [g] st e) (S n)); try done.
    + rewrite processFile_output, <- List.app_assoc. cbn [List.app].
      do 3 f_equal.
      unfold plainFilePath in Hp.
      apply andb_prop in Hp as [[[Hbs Hdollar]%andb_prop Hinit]%andb_prop Hlast].
      apply negb_true_iff, String.eqb_neq in Hlast.
      assert (JS.normalizeSlashes (entryName e) = entryName e) as ->
        by (by apply replaceChar_noChar).
      rewrite rewriteFolder_identity by done.
      cbn [fold_left]. unfold groupStep.
      destruct (rules g) as [|r rs] eqn:Hrs; [done|].
      rewrite Hscope. cbn [matchScope negb snd].
      unfold counterIndex. rewrite (proj2 (String.eqb_neq _ _) Hid), Hn.
      cbn [from_option]. unfold Datatypes.id. fold (indexNumber n).
      rewrite parse_basename, applyRenamingRules_basename.
      apply andb_prop in Hw as [Hslash Hback].
      rewrite basename_plain by done.
      by apply rebuildPath_legacy.
    + replace (S n) with (n + 1)%nat by lia. exact Hcount.
    + by rewrite processFile_map.
Qed.

(** X17. The first handler, which took one flat rule list, is refined
    by the current one: on an archive whose file paths are plain (forward
    slashes only, no dollar sign, no empty segment, no parent segment [.]
    or [..]) and with rules that give every file a name without slash or
    backslash, the current handler, given the rules as legacy [rules],
    writes every file under the path the first handler wrote it under, in
    the same order, after the directory entries, which the first handler
    dropped. *)
Theorem legacy_handler_is_refined allEntries legacyRules :
  legacyRules <> [] ->
  Forall (fun e => plainFilePath (entryName e) = true) (files allEntries) ->
  Forall (fun w => slashFree w = true)
    (newNames regexReplace legacyRules 0 (files allEntries)) ->
  newZip (processArchive regexReplace allEntries (requestGroups [] legacyRules))
  = newZip (phase1 regexReplace allEntries (requestGroups [] legacyRules))
    ++ legacyProcess regexReplace allEntries legacyRules.
Proof.
  intros Hne Hplain Hfree.
  destruct legacyRules as [|r rs]; [done|]. cbn [requestGroups].
  set (g := {| id := "default"; groupScope := Global; scopeValue := EmptyString;
               exclude := false; rules := r :: rs |}).
  assert (forall n, Forall (fun g' => active true n g' = false) [g]) as Hdir.
  { intros n. by repeat constructor. }
  destruct (directories_inactive regexReplace [g] (directories allEntries)
              (initialState [g]) Hdir) as [Hc _].
  unfold processArchive, legacyProcess.
  apply (files_legacy g (files allEntries)
           (phase1 regexReplace allEntries [g]) 0); try done.
  - unfold phase1. rewrite Hc. simpl. apply lookup_insert_eq.
  - unfold phase1. apply directories_identity; [done|]. constructor.
Qed.

End Handlers.

(** The theorem on an archive with a directory between two files. *)
Lemma legacy_handler_example :
  let allEntries :=
    [fileEntry "a.jpg"; directoryEntry "x/y/"; fileEntry "x/y/b.jpg"] in
  let legacyRules :=
    [Lowercase;
     Numbering Number.Undefined (integerField (Some 3%Z)) (Some "_") None] in
  newZip (processArchive noRegex allEntries (requestGroups [] legacyRules))
  = newZip (phase1 noRegex allEntries (requestGroups [] legacyRules))
    ++ legacyProcess noRegex allEntries legacyRules.
Proof.
  intros allEntries legacyRules.
  apply (legacy_handler_is_refined noRegex allEntries legacyRules).
  - discriminate.
  - repeat (constructor; [reflexivity|]). constructor.
  - repeat (constructor; [reflexivity|]). constructor.
Defined.

(** Where the handlers part: a rule that brings a slash into the name
    made a folder under the first handler; the current one keeps the last
    component of the new name only. *)
Example handlers_differ_on_slash_in_name :
  List.map finalPath (legacyProcess noRegex [fileEntry "a.txt"] [Prefix (Some "x/")])
  = ["x/a.txt"]
  /\ List.map finalPath
       (newZip
          (processArchive noRegex [fileEntry "a.txt"]
             (requestGroups [] [Prefix (Some "x/")])))
     = ["a.txt"].
Proof. split; reflexivity. Qed.

(** ** The preview and the download *)

Lemma lastIndexOf_app_sep c a b :
  noChar c b = true ->
  JS.lastIndexOf c (a +:+ String c b) = Some (String.length a).
Proof.
  intros Hb. induction a as [|x a IH].
  - cbn [String.append JS.lastIndexOf String.length].
    rewrite lastIndexOf_noChar by done. by rewrite Ascii.eqb_refl.
  - cbn [String.append JS.lastIndexOf String.length]. by rewrite IH.
Qed.

(** A plain file path is a path part, empty or ending with a slash,
    followed by the base name; the first handler puts a new name behind
    the same path part. *)
Lemma plain_path_parts p :
  plainFilePath p = true ->
  exists pathPart b,
    p = pathPart +:+ b
    /\ (pathPart = EmptyString \/ exists a, pathPart = a +:+ "/")
    /\ noChar "/" b = true /\ Path.basename p = b
    /\ noChar JS.backslash pathPart = true
    /\ forall w, legacyRebuild (Path.dirname p) w = pathPart +:+ w.
Proof.
  unfold plainFilePath.
  intros [[[Hbs Hdollar]%andb_prop Hinit]%andb_prop Hlast]%andb_prop.
  apply negb_true_iff, String.eqb_neq in Hlast.
  destruct (dirname_segments p Hinit Hlast) as (_ & Hlegacy & Hp).
  pose proof (split_noSlash p) as Hns.
  pose proof (split_nonempty "/" p) as Hne.
  rewrite (app_removelast_last EmptyString Hne) in Hns.
  assert (Path.basename p = List.last (JS.split "/" p) EmptyString) as Hbase.
  { unfold Path.basename. rewrite (app_removelast_last EmptyString Hne) at 1.
    by apply lastNonEmpty_snoc. }
  unfold legacyRebuild. rewrite Hlegacy, Hbase.
  set (init := removelast (JS.split "/" p)) in *.
  set (b := List.last (JS.split "/" p) EmptyString) in *.
  clearbody init b.
  apply Forall_app in Hns as [_ Hb].
  apply List.Forall_cons_iff in Hb as [Hb' _].
  destruct init as [|a init'] eqn:Hinit_eq.
  - exists EmptyString, b. cbn in Hp. by repeat split; auto.
  - rewrite <- Hinit_eq in *.
    assert (init <> []) as Hnil by (by rewrite Hinit_eq).
    destruct (join_kept_proper init Hnil) as [Hdot Hempty].
    { apply List.Forall_forall. by apply List.forallb_forall. }
    rewrite join_snoc in Hp by done.
    exists (JS.join "/" init +:+ "/"), b.
    rewrite Hp in Hbs.
    apply noChar_app in Hbs as [Hdir [Hsep _]%noChar_app].
    repeat split.
    + by rewrite Hp, !str_app_assoc.
    + right. by eexists.
    + done.
    + apply noChar_app. by split.
    + intros w. rewrite Hdot, Hempty. by rewrite !str_app_assoc.
Qed.

Section PreviewAndDownload.

Variable regexReplace : string -> string -> string -> string -> option string.
Variable currentDate : string.

(** The preview of a file inside folders: the path part is kept and the
    rules are run on the base name, as on the server. *)
Lemma applyRules_file pathPart b index rs :
  pathPart = EmptyString \/ (exists a, pathPart = a +:+ "/") ->
  noChar "/" b = true -> noChar JS.backslash (pathPart +:+ b) = true ->
  b <> ".." -> forallb bothImplement rs = true ->
  Client.applyRules currentDate (pathPart +:+ b) index
    (List.map Client.Other rs) false
  = JS.normalizeSlashes
      (pathPart +:+ applyRenamingRules regexReplace b index rs).
Proof.
  intros Hpath Hslash Hbs Hdd Hrs.
  unfold Client.applyRules, applyRenamingRules. cbv zeta.
  assert (JS.normalizeSlashes (pathPart +:+ b) = pathPart +:+ b) as ->
    by (by apply replaceChar_noChar).
  cbn [andb].
  assert (match JS.lastIndexOf "/" (pathPart +:+ b) with
          | Some lastSlash =>
              (JS.take (S lastSlash) (pathPart +:+ b),
               JS.drop (S lastSlash) (pathPart +:+ b))
          | None => (EmptyString, pathPart +:+ b)
          end = (pathPart, b)) as ->.
  { destruct Hpath as [->|[a ->]].
    - cbn [String.append]. by rewrite lastIndexOf_noChar.
    - rewrite str_app_assoc. cbn [String.append].
      rewrite lastIndexOf_app_sep by done.
      change (a +:+ String "/" b) with (a +:+ "/" +:+ b).
      rewrite <- str_app_assoc.
      replace (S (String.length a)) with (String.length (a +:+ "/"))
        by (rewrite str_length_app; cbn; lia).
      by rewrite str_take_app, str_drop_app. }
  pose proof (stem_and_extension_plain b Hslash Hdd) as Hparts.
  pose proof (f_equal fst Hparts) as Hstem.
  pose proof (f_equal snd Hparts) as Hext.
  cbn [fst snd] in Hstem, Hext. rewrite Hstem, Hext. clear Hparts Hstem Hext.
  destruct (JS.lastIndexOf "." b) as [[|lastDot]|]; cbn [fst snd];
    rewrite (client_rules_fold regexReplace) by done;
    by rewrite !str_app_nil_r.
Qed.

(** On previewable paths the preview shows the path that the first
    handler wrote. *)
Lemma previewNames_legacy rs n es :
  forallb bothImplement rs = true ->
  Forall (fun e => previewablePath (entryName e) = true) es ->
  Forall (fun w => slashFree w = true) (newNames regexReplace rs n es) ->
  previewNames currentDate (List.map Client.Other rs) n es
  = List.map finalPath (legacyEntries regexReplace rs n es).
Proof.
  intros Hrs. revert n. induction es as [|e es IH]; intros n Hes Hw; [done|].
  cbn [previewNames legacyEntries newNames List.map finalPath] in *.
  apply List.Forall_cons_iff in Hes as [He Hes].
  apply List.Forall_cons_iff in Hw as [Hfree Hw].
  rewrite (IH (S n)) by done. f_equal.
  apply andb_prop in He as [Hplain Hdd].
  apply negb_true_iff, String.eqb_neq in Hdd.
  apply andb_prop in Hfree as [Hslash Hback].
  pose proof Hplain as Hbs. unfold plainFilePath in Hbs.
  apply andb_prop in Hbs as [[[Hbs _]%andb_prop _]%andb_prop _].
  destruct (plain_path_parts _ Hplain)
    as (pathPart & b & Hp & Hpath & Hb & Hbase & Hpp & Hrebuild).
  rewrite Hrebuild. rewrite <- (applyRenamingRules_basename regexReplace) in *.
  rewrite Hbase in *. rewrite Hp at 1.
  rewrite Hp in Hbs.
  rewrite applyRules_file by done.
  apply replaceChar_noChar. apply noChar_app. by split.
Qed.

(** The preview loop under one group of global scope. *)
Lemma previews_global cg es counters out n :
  Client.groupScope cg = Global -> Client.id cg <> "__proto__"%string ->
  counters !! Client.id cg = Some n ->
  exists news,
    snd (fold_left (Client.previewFile currentDate [cg]) es (counters, out))
    = out ++ news
    /\ Forall2 (fun e pv => isDirectory e = true -> Client.preview pv = entryName e)
         es news
    /\ filePreviews es news
       = previewNames currentDate (Client.rules cg) n (files es).
Proof.
  intros Hscope Hid. apply String.eqb_neq in Hid. revert counters out n.
  induction es as [|e es IH]; intros counters out n Hn.
  - exists []. cbn. by rewrite List.app_nil_r.
  - cbn [fold_left]. unfold Client.previewFile at 2.
    unfold Client.isTopLevelFolder, files. cbn [List.filter].
    destruct (isDirectory e) eqn:Hdir; cbn [andb negb].
    + assert (exists pv,
                Client.preview pv = entryName e
                /\ (if negb (JS.includes
                               (Client.stripTrailingSlashes
                                  (JS.normalizeSlashes (entryName e))) "/")
                    then (counters,
                          out ++ [{| Client.preview := entryName e;
                                     Client.hideFromPreview := true |}])
                    else
                      let '(groupCounters', currentName) :=
                        fold_left (Client.groupStep currentDate e) [cg]
                          (counters, entryName e) in
                      (groupCounters',
                       out ++ [{| Client.preview := currentName;
                                  Client.hideFromPreview := false |}]))
                   = (counters, out ++ [pv])) as (pv & Hpv & ->).
      { destruct (negb _);
          [eexists; split; [|reflexivity]; reflexivity|].
        cbn [fold_left]. unfold Client.groupStep, Client.matchGroup.
        rewrite Hscope, Hdir. cbn [negb].
        eexists; split; [|reflexivity]; reflexivity. }
      destruct (IH counters (out ++ [pv]) n Hn) as (news & -> & Hdirs & Hfiles).
      exists (pv :: news). rewrite <- List.app_assoc. split; [done|].
      split; [by constructor|].
      unfold filePreviews in *. cbn [combine List.filter fst].
      rewrite Hdir. exact Hfiles.
    + cbn [fold_left]. unfold Client.groupStep, Client.matchGroup.
      rewrite Hscope, Hdir. cbn [negb]. unfold counterIndex, counterBump.
      rewrite Hid, Hn. cbn [from_option]. unfold Datatypes.id.
      fold (indexNumber n).
      destruct (IH (<[Client.id cg := S n]> counters)
                  (out ++ [{| Client.preview :=
                                Client.applyRules currentDate (entryName e)
                                  (indexNumber n) (Client.rules cg) false;
                              Client.hideFromPreview := false |}]) (S n))
        as (news & -> & Hdirs & Hfiles); [apply lookup_insert_eq|].
      eexists (_ :: news). rewrite <- List.app_assoc. split; [done|].
      split; [constructor; [by rewrite Hdir|done]|].
      unfold filePreviews in *. cbn [combine List.filter fst snd].
      rewrite Hdir. cbn [negb List.map snd Client.preview previewNames].
      by rewrite Hfiles.
Qed.

(** X18. What the preview shows is what the download holds, for one
    group of global scope, under an id other than [__proto__], with rules
    of the types that both sides implement, a numbering rule among them
    only with a [start] that is missing or an integer number below 2^53 in
    size: on an archive whose file paths are plain with a base name other
    than [..], and with rules that give every file a name without slash
    or backslash, the browser shows for each file entry, in listing
    order, the path under which the server writes it, and shows every
    directory entry unchanged. *)
Theorem preview_shows_download allEntries g :
  groupScope g = Global -> rules g <> [] -> id g <> "__proto__"%string ->
  forallb bothImplement (rules g) = true ->
  Forall (fun e => previewablePath (entryName e) = true) (files allEntries) ->
  Forall (fun w => slashFree w = true)
    (newNames regexReplace (rules g) 0 (files allEntries)) ->
  Forall2 (fun e pv => isDirectory e = true -> Client.preview pv = entryName e)
    allEntries (Client.updatePreviews currentDate allEntries [clientGroup g])
  /\ List.map finalPath (newZip (processArchive regexReplace allEntries [g]))
     = List.map finalPath (newZip (phase1 regexReplace allEntries [g]))
       ++ filePreviews allEntries
            (Client.updatePreviews currentDate allEntries [clientGroup g]).
Proof.
  intros Hscope Hrules Hid Hboth Hplain Hfree.
  assert (initCounters [g] !! id g = Some 0%nat) as Hzero.
  { unfold initCounters. cbn [fold_left]. unfold counterReset.
    rewrite (proj2 (String.eqb_neq _ _) Hid). apply lookup_insert_eq. }
  destruct (previews_global (clientGroup g) allEntries
              (Client.initCounters [clientGroup g]) [] 0)
    as (news & Hnews & Hdirs & Hfiles); [done|done|exact Hzero|].
  unfold Client.updatePreviews. rewrite Hnews. cbn [List.app].
  split; [done|]. rewrite Hfiles. cbn [clientGroup Client.rules].
  rewrite (previewNames_legacy _ _ _ Hboth Hplain Hfree).
  assert (forall n, Forall (fun g' => active true n g' = false) [g]) as Hdir.
  { intros n. constructor; [|constructor]. unfold active.
    rewrite Hscope. by destruct (rules g). }
  destruct (directories_inactive regexReplace [g] (directories allEntries)
              (initialState [g]) Hdir) as [Hc _].
  unfold processArchive.
  rewrite (files_legacy regexReplace g (files allEntries)
             (phase1 regexReplace allEntries [g]) 0); try done.
  - by rewrite List.map_app.
  - unfold phase1. rewrite Hc. exact Hzero.
  - unfold phase1. apply directories_identity; [done|]. constructor.
  - eapply List.Forall_impl; [|exact Hplain]. intros e He.
    by apply andb_prop in He as [? _].
Qed.

End PreviewAndDownload.

(** The theorem on an archive with a directory between two files. *)
Lemma preview_shows_download_example :
  let allEntries :=
    [fileEntry "IMG 1.JPG"; directoryEntry "x/y/"; fileEntry "x/y/IMG 2.JPG"] in
  let g :=
    {| id := "g1"; groupScope := Global; scopeValue := EmptyString;
       exclude := false;
       rules := [Lowercase; Replace (Some " ") (Some "_");
                 Numbering (integerField (Some 10%Z))
                   (integerField (Some 3%Z)) None None] |} in
  Forall2 (fun e pv => isDirectory e = true -> Client.preview pv = entryName e)
    allEntries (Client.updatePreviews "2026-01-01" allEntries [clientGroup g])
  /\ List.map finalPath (newZip (processArchive noRegex allEntries [g]))
     = List.map finalPath (newZip (phase1 noRegex allEntries [g]))
       ++ filePreviews allEntries
            (Client.updatePreviews "2026-01-01" allEntries [clientGroup g]).
Proof.
  intros allEntries g.
  apply (preview_shows_download noRegex "2026-01-01" allEntries g).
  - reflexivity.
  - discriminate.
  - discriminate.
  - reflexivity.
  - repeat (constructor; [reflexivity|]). constructor.
  - repeat (constructor; [reflexivity|]). constructor.
Defined.

(** ** The scope check of the preview *)

Lemma lastIndexOf_app c a b i :
  JS.lastIndexOf c b = Some i ->
  JS.lastIndexOf c (a +:+ b) = Some (String.length a + i)%nat.
Proof.
  intros Hb. induction a as [|x a IH]; [done|].
  cbn [String.append JS.lastIndexOf String.length]. by rewrite IH.
Qed.

Lemma lastIndexOf_drop c s i :
  JS.lastIndexOf c s = Some i -> JS.drop i s = String c (JS.drop (S i) s).
Proof.
  revert i. induction s as [|x s IH]; intros i; [done|].
  cbn [JS.lastIndexOf]. destruct (JS.lastIndexOf c s) as [j|].
  - intros [= <-]. cbn [JS.drop]. by apply IH.
  - destruct (Ascii.eqb_spec x c) as [->|]; [|done]. by intros [= <-].
Qed.

Lemma str_drop_app_add a b k :
  JS.drop (String.length a + k) (a +:+ b) = JS.drop k b.
Proof. induction a as [|x a IH]; [done|]. exact IH. Qed.

Lemma split_none c s : JS.lastIndexOf c s = None -> JS.split c s = [s].
Proof.
  induction s as [|x s IH]; [done|]. cbn [JS.lastIndexOf JS.split].
  destruct (JS.lastIndexOf c s); [done|].
  destruct (Ascii.eqb x c); [done|]. intros _. by rewrite IH.
Qed.

(** [s.split(c).pop()] is the part of [s] behind the last [c]. *)
Lemma last_split c s :
  List.last (JS.split c s) EmptyString
  = match JS.lastIndexOf c s with
    | Some i => JS.drop (S i) s
    | None => s
    end.
Proof.
  induction s as [|x s IH]; [done|]. cbn [JS.lastIndexOf JS.split].
  pose proof (split_nonempty c s) as Hne.
  destruct (JS.lastIndexOf c s) as [i|] eqn:Hlast.
  - change (JS.drop (S (S i)) (String x s)) with (JS.drop (S i) s).
    rewrite <- IH.
    destruct (Ascii.eqb x c).
    + by destruct (JS.split c s).
    + destruct (JS.split c s) as [|h [|h' t]] eqn:Hsplit; [done| |done].
      pose proof (split_length c s) as Hlen. rewrite Hsplit in Hlen.
      assert (countChar c s = 0%nat) as Hzero by (cbn in Hlen; lia).
      exfalso. clear -Hlast Hzero. revert i Hlast.
      induction s as [|y s IH]; intros i; [done|].
      cbn [JS.lastIndexOf countChar] in *.
      destruct (Ascii.eqb y c); [lia|].
      destruct (JS.lastIndexOf c s) as [j|]; [|done].
      intros _. by apply (IH ltac:(lia) j).
  - rewrite (split_none c s Hlast) in *. destruct (Ascii.eqb x c); by cbn.
Qed.

Lemma normalizeSlashes_noBackslash s :
  noChar JS.backslash (JS.normalizeSlashes s) = true.
Proof.
  induction s as [|x s IH]; [done|].
  change (JS.normalizeSlashes (String x s))
    with (String (if Ascii.eqb x JS.backslash then "/"%char else x)
            (JS.normalizeSlashes s)).
  apply noChar_cons. split; [|done].
  by destruct (Ascii.eqb_spec x JS.backslash).
Qed.

(** For a plain file path with an extension, the extension that the
    preview reads off the whole path is the one the server takes from the
    base name. *)
Lemma preview_extension p :
  previewablePath p = true -> Path.extname p <> EmptyString ->
  "." +:+ List.last (JS.split "." p) EmptyString = Path.extname p.
Proof.
  intros [Hplain Hdd]%andb_prop Hext.
  apply negb_true_iff in Hdd.
  destruct (plain_path_parts p Hplain)
    as (pathPart & b & Hp & _ & _ & Hbase & _ & _).
  unfold Path.extname in *. rewrite Hdd, Hbase in *.
  destruct (JS.lastIndexOf "." b) as [[|i]|] eqn:Hdot; [done| |done].
  rewrite last_split, Hp, (lastIndexOf_app _ pathPart _ _ Hdot).
  replace (S (String.length pathPart + S i))
    with (String.length pathPart + S (S i))%nat by lia.
  rewrite str_drop_app_add. symmetry. by apply lastIndexOf_drop.
Qed.

(** X19. The scope check of the preview against the server's, on the
    normalised name of an entry.  They agree for the scopes [global] and
    [folders]; for [folder] with a value; for [extension] with a value on
    a directory when the group does not exclude, and on a file with a
    plain path that has an extension.  A scope that is none of the four
    matches everything on the server and nothing in the preview. *)
Theorem preview_scope_agrees e g :
  let server :=
    matchScope (JS.normalizeSlashes (entryName e)) (groupScope g)
      (scopeValue g) (isDirectory e) (exclude g) in
  let client := Client.matchGroup e (clientGroup g) in
  match groupScope g with
  | Global | Folders => client = server
  | Folder => scopeValue g <> EmptyString -> client = server
  | Extension =>
      scopeValue g <> EmptyString ->
      (if isDirectory e then exclude g = false
       else previewablePath (entryName e) = true
            /\ Path.extname (entryName e) <> EmptyString) ->
      client = server
  | NoScope => client = false /\ server = true
  end.
Proof.
  cbv zeta. unfold Client.matchGroup, matchScope.
  cbn [clientGroup Client.groupScope Client.scopeValue Client.exclude].
  destruct (groupScope g); try done.
  - intros Hvalue%String.eqb_neq. rewrite Hvalue.
    destruct (isDirectory e) eqn:Hdir.
    + by intros ->.
    + intros [Hpath Hext]. cbn [negb andb].
      assert (JS.normalizeSlashes (entryName e) = entryName e) as ->.
      { apply replaceChar_noChar. unfold previewablePath, plainFilePath in Hpath.
        by apply andb_prop in Hpath
          as [[[[? _]%andb_prop _]%andb_prop _]%andb_prop _]. }
      rewrite (preview_extension _ Hpath Hext).
      destruct (JS.startsWith (scopeValue g) ".") eqn:Hdot.
      * by rewrite Hvalue.
      * done.
  - intros Hvalue.
    assert (String.eqb (JS.normalizeSlashes (scopeValue g)) EmptyString = false)
      as -> by (by destruct (scopeValue g)).
    apply String.eqb_neq in Hvalue as ->.
    assert (JS.normalizeSlashes (JS.normalizeSlashes (entryName e))
            = JS.normalizeSlashes (entryName e)) as ->
      by apply replaceChar_noChar, normalizeSlashes_noBackslash.
    done.
Qed.

(** Where the scope checks part: a file without a dot is taken by the
    preview to have its whole name as extension; an excluding extension
    group takes directories in the preview and never on the server. *)
Example preview_scope_differs :
  let makefiles :=
    {| id := "g"; groupScope := Extension; scopeValue := "makefile";
       exclude := false; rules := [Lowercase] |} in
  let notText :=
    {| id := "g"; groupScope := Extension; scopeValue := "txt";
       exclude := true; rules := [Lowercase] |} in
  Client.matchGroup (fileEntry "Makefile") (clientGroup makefiles) = true
  /\ matchScope "Makefile" Extension "makefile" false false = false
  /\ Client.matchGroup (directoryEntry "a/b/") (clientGroup notText) = true
  /\ matchScope "a/b/" Extension "txt" true true = false.
Proof. by repeat split. Qed.

(** ** The pattern rule of the preview *)

Lemma replaceAllFrom_absent pat tmpl before s :
  JS.includes s pat = false -> JS.replaceAllFrom pat tmpl before s 0 = s.
Proof.
  revert before. induction s as [|c s IH]; intros before; [done|].
  cbn [JS.includes JS.replaceAllFrom].
  intros [-> Hrest]%orb_false_elim. by rewrite IH.
Qed.

(** X20. A pattern rule replaces the whole stem: when the pattern does
    not mention [{name}], the stem it produces does not depend on the stem
    it is given, so neither the original name nor any rule before it in
    the group has an effect on the result. *)
Theorem pattern_without_name_discards_stem currentDate index pathPart pat
    ext stem1 stem2 :
  pat <> EmptyString -> JS.includes pat "{name}" = false ->
  Client.applyRule currentDate index pathPart (Client.Pattern (Some pat))
    (stem1, ext)
  = Client.applyRule currentDate index pathPart (Client.Pattern (Some pat))
      (stem2, ext).
Proof.
  intros Hne%String.eqb_neq Hname.
  unfold Client.applyRule. cbn [orString]. rewrite Hne.
  unfold JS.replaceAllLiteral.
  rewrite !(replaceAllFrom_absent "{name}" _ _ pat Hname).
  by rewrite Hne.
Qed.

(** The theorem on one of the templates of the page, for two stems. *)
Lemma pattern_without_name_example :
  Client.applyRule "2026-01-01" (Number.ofZ 4) "docs/"
    (Client.Pattern (Some "{parent}_{index}")) ("report", ".txt")
  = Client.applyRule "2026-01-01" (Number.ofZ 4) "docs/"
      (Client.Pattern (Some "{parent}_{index}")) ("REPORT final", ".txt").
Proof.
  apply (pattern_without_name_discards_stem "2026-01-01" (Number.ofZ 4) "docs/"
           "{parent}_{index}" ".txt" "report" "REPORT final").
  - discriminate.
  - reflexivity.
Defined.

(** The pattern rule exists in the preview only: the server has no case
    for it and leaves the name as it is. *)
Example pattern_rule_is_preview_only :
  Client.applyRules "2026-01-01" "docs/report.txt" (Number.ofZ 4)
    [Client.Pattern (Some "{parent}_{index}_{name}")] false
  = "docs/docs_005_report.txt"
  /\ applyRenamingRules noRegex "report.txt" (Number.ofZ 4) [Unknown "pattern"]
     = "report.txt".
Proof. split; reflexivity. Qed.

(** ** Unlock tokens *)

(** X21. An unlock token is valid from its creation until one hour
    later, the last millisecond included, and a check never changes the
    store while it answers yes; the first check after that hour removes
    the token, after which it is refused at every time, earlier ones
    included.  A token that was never created is refused and the store is
    left alone. *)
Theorem token_is_valid_for_one_hour now token (s : gmap string Z) :
  token <> EmptyString ->
  let created :=
    snd (Payment.verifySessionAndCreateToken true now token s) in
  (forall t,
     Payment.isTokenValid t token created
     = if (t <=? now + 3600000)%Z then (true, created)
       else (false, delete token created))
  /\ (forall t t',
        fst (Payment.isTokenValid t token created) = false ->
        fst (Payment.isTokenValid t' token
               (snd (Payment.isTokenValid t token created))) = false)
  /\ (forall t other,
        s !! other = None ->
        other <> token ->
        Payment.isTokenValid t other created = (false, created)).
Proof.
  intros Hne%String.eqb_neq created.
  assert (forall t,
     Payment.isTokenValid t token created
     = if (t <=? now + 3600000)%Z then (true, created)
       else (false, delete token created)) as Hvalid.
  { intros t.
    unfold Payment.isTokenValid, created, Payment.verifySessionAndCreateToken,
      Payment.createToken.
    cbn [snd].
    rewrite Hne, lookup_insert_eq.
    destruct (Z.ltb_spec (now + 3600000) t), (Z.leb_spec t (now + 3600000));
      first [done | lia]. }
  split; [exact Hvalid|]. split.
  - intros t t'. rewrite Hvalid.
    destruct (t <=? now + 3600000)%Z; [done|]. intros _. cbn [snd].
    unfold Payment.isTokenValid. rewrite Hne.
    by rewrite lookup_delete_eq.
  - intros t other Hnone Hother. unfold Payment.isTokenValid.
    destruct (String.eqb other EmptyString); [done|].
    unfold created, Payment.verifySessionAndCreateToken, Payment.createToken.
    cbn [snd].
    rewrite lookup_insert_ne by done. by rewrite Hnone.
Qed.

(** The theorem for a token created at time 1000 in an empty store. *)
Lemma token_is_valid_example :
  let created :=
    snd (Payment.verifySessionAndCreateToken true 1000 "5f2c" ∅) in
  (forall t,
     Payment.isTokenValid t "5f2c" created
     = if (t <=? 1000 + 3600000)%Z then (true, created)
       else (false, delete "5f2c" created))
  /\ (forall t t',
        fst (Payment.isTokenValid t "5f2c" created) = false ->
        fst (Payment.isTokenValid t' "5f2c"
               (snd (Payment.isTokenValid t "5f2c" created))) = false)
  /\ (forall t other,
        (∅ : gmap string Z) !! other = None ->
        other <> "5f2c"%string ->
        Payment.isTokenValid t other created = (false, created)).
Proof.
  apply (token_is_valid_for_one_hour 1000 "5f2c" ∅). discriminate.
Defined.
